(** * Loop.py: the sequential spec runner, embedded and verified

    The development follows the source file top to bottom:
    - [Py]      the Python values the program handles (what [json.loads]
                returns) and the container operations it applies to them;
    - [Json]    [json.dumps (indent=2)] and [json.loads] on those values;
    - [Loop]    the program itself: configuration, helpers and [main], as
                computations over a world made of the file system, the
                external processes and the console.

    Python [str] is modelled by [string], one [ascii] per code point, so the
    model covers code points below 256.  Numbers are Python [int]s ([Z])
    of at most 4300 digits (the default limit of [int] on the digits it
    converts) and the floats [inf], [-inf] and [nan], which [json] reads
    from and writes as [Infinity], [-Infinity] and [NaN], a decimal too
    large for a float being read as an infinity.  A state file holding a
    finite float, a longer integer or a code point above 255 is outside the
    model and [Json.loads] says so with [Unmodelled]. *)

From Stdlib Require Import Bool Arith ZArith NArith Lia List Ascii String.
From Stdlib Require Import DecimalString DecimalN DecimalPos DecimalFacts.
From Stdlib Require Import Sorted Permutation.
Import ListNotations.

Local Open Scope string_scope.
Local Open Scope list_scope.

(** ** Strings: a few facts the standard library leaves out *)

Notation "s +++ t" := (String.append s t)
  (at level 60, right associativity) : string_scope.

Definition dquote : ascii := "034"%char.
Definition newline : ascii := "010"%char.

Fixpoint take (n : nat) (s : string) : string :=
  match n, s with
  | S n', String c s' => String c (take n' s')
  | _, _ => EmptyString
  end.

Fixpoint repeat_sp (n : nat) : string :=
  match n with
  | O => EmptyString
  | S n' => String " " (repeat_sp n')
  end.

(** ** Python values *)

Module Py.

#[local] Set Warnings "-register-all".

(** The floats of the model: the two infinities and [nan]. *)
Inductive special : Type :=
| Inf
| NegInf
| NaN.

(** What [json.loads] builds: [None], [bool], [int], [float], [str], [list]
    and [dict] with [str] keys.  A [dict] keeps its insertion order. *)
Inductive value : Type :=
| VNone
| VBool (b : bool)
| VInt (z : Z)
| VFloat (f : special)
| VStr (s : string)
| VList (l : list value)
| VDict (d : list (string * value)).

(** The exceptions the program can die from. *)
Inductive exn : Type :=
| JSONDecodeError
| KeyError
| TypeError
| AttributeError
| OSError
| Unmodelled.

Inductive res (A : Type) : Type :=
| Ok (a : A)
| Raise (e : exn).
Arguments Ok {A} a.
Arguments Raise {A} e.

(** Induction over values that reaches inside lists and dicts. *)
Section ValueInd.
Variable P : value -> Prop.
Hypothesis HNone : P VNone.
Hypothesis HBool : forall b, P (VBool b).
Hypothesis HInt : forall z, P (VInt z).
Hypothesis HFloat : forall f, P (VFloat f).
Hypothesis HStr : forall s, P (VStr s).
Hypothesis HList : forall l, Forall P l -> P (VList l).
Hypothesis HDict : forall d, Forall (fun kv => P (snd kv)) d -> P (VDict d).

Fixpoint value_ind' (v : value) : P v :=
  match v with
  | VNone => HNone
  | VBool b => HBool b
  | VInt z => HInt z
  | VFloat f => HFloat f
  | VStr s => HStr s
  | VList l =>
      HList l ((fix go (l : list value) : Forall P l :=
                  match l with
                  | [] => Forall_nil P
                  | x :: l' => Forall_cons x (value_ind' x) (go l')
                  end) l)
  | VDict d =>
      HDict d ((fix go (d : list (string * value))
                 : Forall (fun kv => P (snd kv)) d :=
                  match d with
                  | [] => Forall_nil _
                  | kv :: d' =>
                      Forall_cons kv (value_ind' (snd kv)) (go d')
                  end) d)
  end.
End ValueInd.

(** [d[k]] on a dict held as an insertion-ordered list. *)
Fixpoint dict_get (k : string) (d : list (string * value)) : option value :=
  match d with
  | [] => None
  | (k', v) :: d' => if String.eqb k k' then Some v else dict_get k d'
  end.

(** [d[k] = v]: an existing key keeps its position. *)
Fixpoint dict_set (k : string) (v : value) (d : list (string * value))
  : list (string * value) :=
  match d with
  | [] => [(k, v)]
  | (k', v') :: d' =>
      if String.eqb k k' then (k, v) :: d' else (k', v') :: dict_set k v d'
  end.

(** [dict(pairs)]. *)
Definition dict_of_pairs (pairs : list (string * value))
  : list (string * value) :=
  fold_left (fun d kv => dict_set (fst kv) (snd kv) d) pairs [].

(** [sub in s] for two strings. *)
Fixpoint str_contains (sub s : string) : bool :=
  String.prefix sub s ||
  match s with
  | EmptyString => false
  | String _ s' => str_contains sub s'
  end.

(** [name in c], with [name] a [str]: a list is searched with [==], a dict by
    key, a string for a substring; anything else is not iterable. *)
Definition contains (name : string) (c : value) : res bool :=
  match c with
  | VList l => Ok (existsb (fun x => match x with
                                     | VStr s => String.eqb name s
                                     | _ => false
                                     end) l)
  | VDict d => Ok (existsb (fun kv => String.eqb name (fst kv)) d)
  | VStr s => Ok (str_contains name s)
  | _ => Raise TypeError
  end.

(** [v[k]], with [k] a [str]. *)
Definition getitem (v : value) (k : string) : res value :=
  match v with
  | VDict d => match dict_get k d with
               | Some x => Ok x
               | None => Raise KeyError
               end
  | _ => Raise TypeError
  end.

(** [c.append(x)]: only a list has the method. *)
Definition append (c x : value) : res value :=
  match c with
  | VList l => Ok (VList (l ++ [x]))
  | _ => Raise AttributeError
  end.

End Py.
Import Py.

(** ** The [json] module *)

Module Json.

(** *** [json.dumps(obj, indent=2)]

    With [ensure_ascii] left at its default, every character outside
    [' '..'~'], the quote and the backslash are escaped; the output is
    plain ASCII. *)

Definition hex_digit (n : N) : ascii :=
  if (n <? 10)%N then ascii_of_N (48 + n) else ascii_of_N (87 + n).

Definition escape_char (c : ascii) : string :=
  let n := N_of_ascii c in
  if (n =? 34)%N then String "\" (String dquote EmptyString)
  else if (n =? 92)%N then "\\"
  else if (n =? 10)%N then "\n"
  else if (n =? 13)%N then "\r"
  else if (n =? 9)%N then "\t"
  else if (n =? 8)%N then "\b"
  else if (n =? 12)%N then "\f"
  else if ((32 <=? n) && (n <=? 126))%N then String c EmptyString
  else String "\" (String "u" (String "0" (String "0"
         (String (hex_digit (n / 16)) (String (hex_digit (n mod 16)) EmptyString))))).

Fixpoint escape (s : string) : string :=
  match s with
  | EmptyString => EmptyString
  | String c s' => escape_char c +++ escape s'
  end.

Definition encode_string (s : string) : string :=
  String dquote (escape s +++ String dquote EmptyString).

Definition encode_int (z : Z) : string :=
  match z with
  | Z0 => "0"
  | Zpos p => NilEmpty.string_of_uint (Pos.to_uint p)
  | Zneg p => String "-" (NilEmpty.string_of_uint (Pos.to_uint p))
  end.

(** [float.__repr__] on the floats of the model, as [json.dumps] writes
    them with [allow_nan] left at its default. *)
Definition encode_float (f : special) : string :=
  match f with
  | Inf => "Infinity"
  | NegInf => "-Infinity"
  | NaN => "NaN"
  end.

(** A line break followed by the indentation of nesting level [lvl]. *)
Definition nl (lvl : nat) : string := String newline (repeat_sp (2 * lvl)).

(** The items of a container after its first one, and the closing bracket;
    [enc] encodes one item at the inner level. *)
Section Containers.
Variable enc : value -> string.
Variable lvl : nat.

Fixpoint encode_items (l : list value) : string :=
  match l with
  | [] => nl lvl +++ "]"
  | y :: l' => "," +++ nl (S lvl) +++ enc y +++ encode_items l'
  end.

Fixpoint encode_members (d : list (string * value)) : string :=
  match d with
  | [] => nl lvl +++ "}"
  | (k, y) :: d' =>
      "," +++ nl (S lvl) +++ encode_string k +++ ": " +++ enc y +++
      encode_members d'
  end.
End Containers.

Fixpoint encode (lvl : nat) (v : value) {struct v} : string :=
  match v with
  | VNone => "null"
  | VBool true => "true"
  | VBool false => "false"
  | VInt z => encode_int z
  | VFloat f => encode_float f
  | VStr s => encode_string s
  | VList [] => "[]"
  | VList (x :: l) =>
      "[" +++ nl (S lvl) +++ encode (S lvl) x +++
      encode_items (encode (S lvl)) lvl l
  | VDict [] => "{}"
  | VDict ((k, x) :: d) =>
      "{" +++ nl (S lvl) +++ encode_string k +++ ": " +++ encode (S lvl) x +++
      encode_members (encode (S lvl)) lvl d
  end.

Definition dumps (v : value) : string := encode 0 v.

(** *** [json.loads] *)

(** The outcome of scanning at one position: a value and the text after it,
    a decode error, a construct outside the model, or no fuel left. *)
Inductive scan (A : Type) : Type :=
| Got (a : A) (rest : string)
| Bad
| Beyond
| Starved.
Arguments Got {A} a rest.
Arguments Bad {A}.
Arguments Beyond {A}.
Arguments Starved {A}.

(** Continue with [k] after a successful scan. *)
Definition andthen {A B : Type} (r : scan A) (k : A -> string -> scan B)
  : scan B :=
  match r with
  | Got a rest => k a rest
  | Bad => Bad
  | Beyond => Beyond
  | Starved => Starved
  end.

Definition is_ws (c : ascii) : bool :=
  let n := N_of_ascii c in
  ((n =? 32) || (n =? 9) || (n =? 10) || (n =? 13))%N.

Fixpoint skip_ws (s : string) : string :=
  match s with
  | String c s' => if is_ws c then skip_ws s' else s
  | EmptyString => EmptyString
  end.

(** [s] without its prefix [p], when it has it. *)
Fixpoint strip_prefix (p s : string) : option string :=
  match p, s with
  | EmptyString, _ => Some s
  | String a p', String b s' =>
      if Ascii.eqb a b then strip_prefix p' s' else None
  | String _ _, EmptyString => None
  end.

Definition hex_value (c : ascii) : option N :=
  let n := N_of_ascii c in
  if ((48 <=? n) && (n <=? 57))%N then Some (n - 48)%N
  else if ((97 <=? n) && (n <=? 102))%N then Some (n - 87)%N
  else if ((65 <=? n) && (n <=? 70))%N then Some (n - 55)%N
  else None.

(** The character a one-letter escape stands for. *)
Definition unescape (c : ascii) : option ascii :=
  let n := N_of_ascii c in
  if (n =? 34)%N then Some dquote
  else if (n =? 92)%N then Some "\"%char
  else if (n =? 47)%N then Some "/"%char
  else if (n =? 98)%N then Some "008"%char
  else if (n =? 102)%N then Some "012"%char
  else if (n =? 110)%N then Some "010"%char
  else if (n =? 114)%N then Some "013"%char
  else if (n =? 116)%N then Some "009"%char
  else None.

Definition cons_char (c : ascii) (r : scan string) : scan string :=
  andthen r (fun s rest => Got (String c s) rest).

(** [scanstring], entered after the opening quote (strict mode: a raw control
    character ends the scan with an error). *)
Fixpoint scanstring (s : string) : scan string :=
  match s with
  | EmptyString => Bad
  | String c r =>
      let n := N_of_ascii c in
      if (n =? 34)%N then Got EmptyString r
      else if (n =? 92)%N then
        match r with
        | EmptyString => Bad
        | String e r1 =>
            if (N_of_ascii e =? 117)%N then
              match r1 with
              | String h1 (String h2 (String h3 (String h4 r2))) =>
                  match hex_value h1, hex_value h2,
                        hex_value h3, hex_value h4 with
                  | Some a, Some b, Some c', Some d =>
                      let code := (((a * 16 + b) * 16 + c') * 16 + d)%N in
                      if (code <? 256)%N
                      then cons_char (ascii_of_N code) (scanstring r2)
                      else Beyond
                  | _, _, _, _ => Bad
                  end
              | _ => Bad
              end
            else
              match unescape e with
              | Some ch => cons_char ch (scanstring r1)
              | None => Bad
              end
        end
      else if (n <? 32)%N then Bad
      else cons_char c (scanstring r)
  end.

Definition digit_of (c : ascii) : option (Decimal.uint -> Decimal.uint) :=
  let n := N_of_ascii c in
  if (n =? 48)%N then Some Decimal.D0
  else if (n =? 49)%N then Some Decimal.D1
  else if (n =? 50)%N then Some Decimal.D2
  else if (n =? 51)%N then Some Decimal.D3
  else if (n =? 52)%N then Some Decimal.D4
  else if (n =? 53)%N then Some Decimal.D5
  else if (n =? 54)%N then Some Decimal.D6
  else if (n =? 55)%N then Some Decimal.D7
  else if (n =? 56)%N then Some Decimal.D8
  else if (n =? 57)%N then Some Decimal.D9
  else None.

Definition is_digit (c : ascii) : bool :=
  match digit_of c with Some _ => true | None => false end.

(** The longest run of digits in front of [s]. *)
Fixpoint scan_digits (s : string) : Decimal.uint * string :=
  match s with
  | String c r =>
      match digit_of c with
      | Some d => let (u, rest) := scan_digits r in (d u, rest)
      | None => (Decimal.Nil, s)
      end
  | EmptyString => (Decimal.Nil, EmptyString)
  end.

(** Does a fraction ([.] and a digit) or an exponent ([e], an optional sign
    and a digit) follow?  Then the number is a float. *)
Definition float_tail (s : string) : bool :=
  match s with
  | String c (String d r) =>
      let n := N_of_ascii c in
      if (n =? 46)%N then is_digit d
      else if ((n =? 101) || (n =? 69))%N then
        is_digit d ||
        (((N_of_ascii d =? 43) || (N_of_ascii d =? 45))%N &&
         match r with String d' _ => is_digit d' | EmptyString => false end)
      else false
  | _ => false
  end.

(** The integer part [0|[1-9]\d*] in front of [s]. *)
Definition scan_nat (s : string) : option (N * string) :=
  match s with
  | String c r =>
      if (N_of_ascii c =? 48)%N then Some (0%N, r)
      else if is_digit c then
        let (u, rest) := scan_digits s in Some (N.of_uint u, rest)
      else None
  | EmptyString => None
  end.

(** The fraction [\.\d+] in front of [s], when there is one: its digits
    and the text after them. *)
Definition scan_frac (s : string) : Decimal.uint * string :=
  match s with
  | String c (String d r) =>
      if (N_of_ascii c =? 46)%N && is_digit d
      then scan_digits (String d r)
      else (Decimal.Nil, s)
  | _ => (Decimal.Nil, s)
  end.

(** The exponent [[eE][-+]?\d+] in front of [s], when there is one: its
    value and the text after it. *)
Definition scan_exp (s : string) : Z * string :=
  match s with
  | String c r =>
      if ((N_of_ascii c =? 101) || (N_of_ascii c =? 69))%N then
        let (neg, body) :=
          match r with
          | String sg r' =>
              if (N_of_ascii sg =? 45)%N then (true, r')
              else if (N_of_ascii sg =? 43)%N then (false, r')
              else (false, r)
          | EmptyString => (false, r)
          end in
        match body with
        | String d _ =>
            if is_digit d then
              let (u, rest) := scan_digits body in
              let e := Z.of_N (N.of_uint u) in
              (if neg then Z.opp e else e, rest)
            else (0%Z, s)
        | EmptyString => (0%Z, s)
        end
      else (0%Z, s)
  | EmptyString => (0%Z, s)
  end.

(** The least magnitude that [float] rounds to an infinity: half-way
    between the largest float, [2^1024 - 2^971], and [2^1024]. *)
Definition FLOAT_OVERFLOW : Z := (2 ^ 1024 - 2 ^ 970)%Z.

(** [float(text)] for the decimal with integer part [n], fraction digits
    [frac] and exponent [e], where the model has it: a decimal of at least
    [FLOAT_OVERFLOW] in magnitude is read as an infinity.  Any other decimal
    is a finite float, outside the model. *)
Definition float_of_decimal (neg : bool) (n : N) (frac : Decimal.uint)
  (e : Z) : option special :=
  let k := Z.of_nat (Decimal.nb_digits frac) in
  let m := (Z.of_N n * 10 ^ k + Z.of_N (N.of_uint frac))%Z in
  let e' := (e - k)%Z in
  if (FLOAT_OVERFLOW * 10 ^ Z.max 0 (- e') <=? m * 10 ^ Z.max 0 e')%Z
  then Some (if neg then NegInf else Inf)
  else None.

(** [sys.get_int_max_str_digits()], at its default: [int(text)] and
    [str(n)] raise [ValueError] beyond this many digits. *)
Definition MAX_STR_DIGITS : nat := 4300.

Definition digits_ok (n : nat) : bool := Nat.leb n MAX_STR_DIGITS.

(** A number with an optional sign; [-Infinity] is tried when no digit
    follows the sign.  With a fraction or an exponent the text goes to
    [float], without to [int]; an integer of more digits than [int]
    converts is outside the model. *)
Definition scan_number (s : string) : scan value :=
  let (neg, body) := match strip_prefix "-" s with
                     | Some r => (true, r)
                     | None => (false, s)
                     end in
  match scan_nat body with
  | Some (n, rest) =>
      if float_tail rest then
        let (frac, r1) := scan_frac rest in
        let (e, r2) := scan_exp r1 in
        match float_of_decimal neg n frac e with
        | Some f => Got (VFloat f) r2
        | None => Beyond
        end
      else if digits_ok (String.length body - String.length rest)
      then Got (VInt (if neg then Z.opp (Z.of_N n) else Z.of_N n)) rest
      else Beyond
  | None =>
      match strip_prefix "Infinity" body with
      | Some rest => if neg then Got (VFloat NegInf) rest else Bad
      | None => Bad
      end
  end.

(** [scan_once] with the array and object loops it calls.  [fuel] bounds the
    number of values and loop rounds. *)
Fixpoint scan_once (fuel : nat) (s : string) {struct fuel} : scan value :=
  match fuel with
  | O => Starved
  | S fuel' =>
      match s with
      | EmptyString => Bad
      | String c r =>
          let n := N_of_ascii c in
          if (n =? 34)%N then
            andthen (scanstring r) (fun str rest => Got (VStr str) rest)
          else if (n =? 123)%N then
            match skip_ws r with
            | String c1 r1 =>
                if (N_of_ascii c1 =? 125)%N then Got (VDict []) r1
                else if (N_of_ascii c1 =? 34)%N then
                  andthen (scan_members fuel' r1 [])
                    (fun pairs rest => Got (VDict (dict_of_pairs pairs)) rest)
                else Bad
            | EmptyString => Bad
            end
          else if (n =? 91)%N then
            match skip_ws r with
            | String c1 r1 =>
                if (N_of_ascii c1 =? 93)%N then Got (VList []) r1
                else
                  andthen (scan_items fuel' (String c1 r1) [])
                    (fun l rest => Got (VList l) rest)
            | EmptyString => Bad
            end
          else
            match strip_prefix "null" s, strip_prefix "true" s,
                  strip_prefix "false" s with
            | Some rest, _, _ => Got VNone rest
            | _, Some rest, _ => Got (VBool true) rest
            | _, _, Some rest => Got (VBool false) rest
            | None, None, None =>
                match strip_prefix "NaN" s, strip_prefix "Infinity" s with
                | Some rest, _ => Got (VFloat NaN) rest
                | _, Some rest => Got (VFloat Inf) rest
                | None, None => scan_number s
                end
            end
      end
  end

(** The array loop, entered in front of a value; [acc] holds the values read
    so far. *)
with scan_items (fuel : nat) (s : string) (acc : list value) {struct fuel}
  : scan (list value) :=
  match fuel with
  | O => Starved
  | S fuel' =>
      andthen (scan_once fuel' s) (fun v rest =>
        match skip_ws rest with
        | String c r =>
            if (N_of_ascii c =? 93)%N then Got (acc ++ [v]) r
            else if (N_of_ascii c =? 44)%N
            then scan_items fuel' (skip_ws r) (acc ++ [v])
            else Bad
        | EmptyString => Bad
        end)
  end

(** The object loop, entered after the opening quote of a key. *)
with scan_members (fuel : nat) (s : string) (acc : list (string * value))
  {struct fuel} : scan (list (string * value)) :=
  match fuel with
  | O => Starved
  | S fuel' =>
      andthen (scanstring s) (fun key rest =>
        match skip_ws rest with
        | String c r =>
            if (N_of_ascii c =? 58)%N then
              andthen (scan_once fuel' (skip_ws r)) (fun v rest1 =>
                match skip_ws rest1 with
                | String c1 r1 =>
                    if (N_of_ascii c1 =? 125)%N
                    then Got (acc ++ [(key, v)]) r1
                    else if (N_of_ascii c1 =? 44)%N then
                      match skip_ws r1 with
                      | String c2 r2 =>
                          if (N_of_ascii c2 =? 34)%N
                          then scan_members fuel' r2 (acc ++ [(key, v)])
                          else Bad
                      | EmptyString => Bad
                      end
                    else Bad
                | EmptyString => Bad
                end)
            else Bad
        | EmptyString => Bad
        end)
  end.

(** [json.loads]: one value, white space allowed around it, nothing else.
    Twice the length of the text is fuel enough ([scan_never_starved]). *)
Definition loads (s : string) : res value :=
  match scan_once (S (2 * String.length s)) (skip_ws s) with
  | Got v rest =>
      match skip_ws rest with
      | EmptyString => Ok v
      | String _ _ => Raise JSONDecodeError
      end
  | Bad => Raise JSONDecodeError
  | Beyond | Starved => Raise Unmodelled
  end.

(** The number of digits of [z]. *)
Definition int_digits (z : Z) : nat :=
  String.length (encode_int (Z.abs z)).

(** A value [json.loads] can have built, and [json.dumps] can write: no
    dict holds a key twice, no integer has more digits than [int] and [str]
    convert. *)
Fixpoint nodup_keys (ks : list string) : bool :=
  match ks with
  | [] => true
  | k :: ks' => negb (existsb (String.eqb k) ks') && nodup_keys ks'
  end.

Fixpoint well_formed (v : value) : bool :=
  match v with
  | VList l => forallb well_formed l
  | VDict d =>
      nodup_keys (map fst d) && forallb (fun kv => well_formed (snd kv)) d
  | VInt z => digits_ok (int_digits z)
  | _ => true
  end.

End Json.

(** ** The program *)

Module Loop.

(** *** The world the program runs in *)

(** A command line. *)
Definition cmd := list string.

(** What [subprocess.run(..., capture_output=True, text=True)] returns. *)
Record completed : Type := Exit {
  returncode : Z;
  stdout : string;
  stderr : string
}.

(** The two places of the file system the program looks at, both relative to
    the directory it is started in: the directory [SPECS_DIR] (absent, or
    its entries by name, each with its text when [read_text] can read it)
    and the file [STATE_FILE] (absent, or its text). *)
Record fs : Type := Fs {
  specs_dir : option (list (string * option string));
  state_file : option string
}.

(** The external programs answer the [n]-th [subprocess.run] of a run, given
    its command line and standard input, with a completed process or with
    the error of a program that could not be started.  They leave the two
    places of [fs] alone. *)
Definition programs := nat -> cmd -> option string -> res completed.

(** A reference to an object in memory: the keys that lead to it from the
    object [load_state] built, the one [main] holds in [state]. *)
Definition ref := list string.

(** [heap] is that object; it is [None] until [load_state] has run. *)
Record world : Type := World {
  files : fs;
  procs : programs;
  calls : nat;
  heap : value
}.

(** What the program prints, line by source line. *)
Inductive message : Type :=
| MsgSpecsNotFound (dir : string) (* line 71 *)
| MsgAllCompleted                 (* line 79 *)
| MsgProcessing (name : string)   (* line 82 *)
| MsgCommand (c : cmd)            (* lines 43 and 61 *)
| MsgOutput (text : string)       (* lines 46 and 62 *)
| MsgClaudeFailed                 (* line 110 *)
| MsgVerifyFailed                 (* line 117 *)
| MsgCompleted (name : string).   (* line 123 *)

(** What the program does to the world, in order. *)
Inductive event : Type :=
| EvPrint (m : message)
| EvRun (c : cmd) (stdin : option string) (r : res completed)
| EvWrite (path : string) (text : string)
| EvSleep (secs : Z).

Definition trace := list event.

(** How a computation ends: with a value, with an uncaught exception, or in
    [sys.exit]. *)
Inductive outcome (A : Type) : Type :=
| Val (a : A)
| Exc (e : exn)
| SysExit (code : Z).
Arguments Val {A} a.
Arguments Exc {A} e.
Arguments SysExit {A} code.

(** A computation: from a world to an outcome, the world it leaves and the
    events it caused. *)
Definition M (A : Type) : Type := world -> outcome A * world * trace.

Definition ret {A} (a : A) : M A := fun w => (Val a, w, []).

Definition bind {A B} (m : M A) (k : A -> M B) : M B :=
  fun w =>
    match m w with
    | (Val a, w1, t1) =>
        match k a w1 with
        | (o, w2, t2) => (o, w2, t1 ++ t2)
        end
    | (Exc e, w1, t1) => (Exc e, w1, t1)
    | (SysExit c, w1, t1) => (SysExit c, w1, t1)
    end.

Notation "x <- m ;; k" := (bind m (fun x => k))
  (at level 61, m at next level, right associativity).
Notation "m ;;; k" := (bind m (fun _ => k))
  (at level 61, right associativity).

Definition raise {A} (e : exn) : M A := fun w => (Exc e, w, []).

Definition lift {A} (r : res A) : M A :=
  match r with
  | Ok a => ret a
  | Raise e => raise e
  end.

Definition sys_exit {A} (code : Z) : M A := fun w => (SysExit code, w, []).

Definition print (m : message) : M unit := fun w => (Val tt, w, [EvPrint m]).

Definition sleep (secs : Z) : M unit := fun w => (Val tt, w, [EvSleep secs]).

(** [subprocess.run(c, input=stdin, capture_output=True, text=True)]. *)
Definition subprocess_run (c : cmd) (stdin : option string) : M completed :=
  fun w =>
    let r := procs w (calls w) c stdin in
    let w' := World (files w) (procs w) (S (calls w)) (heap w) in
    match r with
    | Ok p => (Val p, w', [EvRun c stdin r])
    | Raise e => (Exc e, w', [EvRun c stdin r])
    end.

(** *** Objects in memory *)

(** The object a reference leads to from [v]. *)
Fixpoint lookup (v : value) (r : ref) : res value :=
  match r with
  | [] => Ok v
  | k :: r' =>
      match getitem v k with
      | Ok x => lookup x r'
      | Raise e => Raise e
      end
  end.

(** [v] once the object at [r] has become [x]. *)
Fixpoint update (v : value) (r : ref) (x : value) : value :=
  match r with
  | [] => x
  | k :: r' =>
      match v with
      | VDict d =>
          match dict_get k d with
          | Some y => VDict (dict_set k (update y r' x) d)
          | None => v
          end
      | other => other
      end
  end.

(** The object built by the caller becomes the one in memory; the reference
    to it is the empty path. *)
Definition new_object (v : value) : M ref :=
  fun w => (Val [], World (files w) (procs w) (calls w) v, []).

Definition deref (r : ref) : M value := fun w => lift (lookup (heap w) r) w.

(** [r[k]]: a reference to what the dict at [r] holds under [k]. *)
Definition subscript (r : ref) (k : string) : M ref :=
  v <- deref r ;;
  lift (getitem v k) ;;;
  ret (r ++ [k]).

(** [name in r]. *)
Definition contains_at (name : string) (r : ref) : M bool :=
  v <- deref r ;;
  lift (contains name v).

(** [r.append(x)]: the list at [r] grows where it is, for every holder of a
    reference to it or to an object around it. *)
Definition append_at (r : ref) (x : value) : M unit :=
  fun w =>
    match lookup (heap w) r with
    | Ok v =>
        match append v x with
        | Ok v' =>
            (Val tt,
             World (files w) (procs w) (calls w) (update (heap w) r v'), [])
        | Raise e => (Exc e, w, [])
        end
    | Raise e => (Exc e, w, [])
    end.

(** *** CONFIG *)

Definition SPECS_DIR : string := "apps/crm/docs/specs".

Definition STATE_FILE : string := ".ai-loop-state.json".

Definition VERIFY_COMMANDS : list cmd :=
  [ ["pnpm"; "-C"; "apps/crm"; "tsc"];
    ["pnpm"; "-C"; "apps/crm"; "build"] ].

(** *** HELPERS *)

(** [STATE_FILE.exists()] and [STATE_FILE.read_text()] inside. *)
Definition load_state : M ref :=
  fun w =>
    match state_file (files w) with
    | Some text => (v <- lift (Json.loads text) ;; new_object v) w
    | None => new_object (VDict [("done", VList [])]) w
    end.

(** [STATE_FILE.write_text(text)], run to its end. *)
Definition write_text (text : string) : M unit :=
  fun w =>
    (Val tt,
     World (Fs (specs_dir (files w)) (Some text)) (procs w) (calls w) (heap w),
     [EvWrite STATE_FILE text]).

Definition save_state (state : ref) : M unit :=
  v <- deref state ;;
  write_text (Json.dumps v).

(** Does [s] end with [suffix]? *)
Fixpoint ends_with (suffix s : string) : bool :=
  String.eqb s suffix ||
  match s with
  | EmptyString => false
  | String _ s' => ends_with suffix s'
  end.

(** [SPECS_DIR.glob("*.md")]: the names in the directory that end in [.md];
    nothing when the directory is absent. *)
Definition glob_md (f : fs) : list string :=
  match specs_dir f with
  | Some entries => filter (ends_with ".md") (map fst entries)
  | None => []
  end.

(** [sorted], on names (paths of one directory compare by name, and names by
    code point). *)
Fixpoint insert (x : string) (l : list string) : list string :=
  match l with
  | [] => [x]
  | y :: l' => if String.leb x y then x :: l else y :: insert x l'
  end.

Fixpoint sorted (l : list string) : list string :=
  match l with
  | [] => []
  | x :: l' => insert x (sorted l')
  end.

(** The [for] loop of [get_next_spec]. *)
Fixpoint first_not_in (done : ref) (specs : list string)
  : M (option string) :=
  match specs with
  | [] => ret None
  | spec :: specs' =>
      found <- contains_at spec done ;;
      if negb found then ret (Some spec) else first_not_in done specs'
  end.

Definition get_next_spec (done : ref) : M (option string) :=
  fun w =>
    let specs := sorted (glob_md (files w)) in
    first_not_in done specs w.

Definition run_cmd (c : cmd) : M (Z * string) :=
  print (MsgCommand c) ;;;
  r <- subprocess_run c None ;;
  let output := stdout r +++ stderr r in
  print (MsgOutput output) ;;;
  ret (returncode r, output).

Definition claude_cmd : cmd :=
  ["claude"; "-p"; "--permission-mode"; "acceptEdits"; "--add-dir"; "."].

Definition run_claude (prompt : string) : M (Z * string) :=
  let c := claude_cmd in
  r <- subprocess_run c (Some prompt) ;;
  let output := stdout r +++ stderr r in
  print (MsgCommand c) ;;;
  print (MsgOutput output) ;;;
  ret (returncode r, output).

(** *** MAIN LOOP *)

(** [spec.read_text(encoding="utf-8")]. *)
Definition read_spec (name : string) : M string :=
  fun w =>
    match specs_dir (files w) with
    | Some entries =>
        match find (fun e => String.eqb name (fst e)) entries with
        | Some (_, Some text) => ret text w
        | _ => raise OSError w
        end
    | None => raise OSError w
    end.

Definition prompt_head : string := "
You are a senior coding agent working in a monorepo.

RULES:
- Implement ONLY what this spec asks.
- Do NOT work ahead.
- Make minimal, safe changes.
- Respect existing architecture and patterns.
- If something is unclear, stop and explain instead of guessing.

After making changes, output:
1) Summary
2) Files modified
3) Commands run
4) Verification results
5) Risks / follow-ups

SPEC:
".

Definition make_prompt (spec_text : string) : string :=
  prompt_head +++ spec_text +++ String newline EmptyString.

(** The three [return]s of [main]. *)
Inductive halt : Type :=
| AllCompleted      (* line 80 *)
| ClaudeFailed      (* line 111 *)
| VerifyFailed.     (* line 118 *)

(** The [for] loop over the verification commands (lines 114-118); [false]
    stands for its [return]. *)
Fixpoint verify (cmds : list cmd) : M bool :=
  match cmds with
  | [] => ret true
  | c :: cmds' =>
      r <- run_cmd c ;;
      if negb (fst r =? 0)%Z
      then print MsgVerifyFailed ;;; ret false
      else verify cmds'
  end.

(** Lines 121-122: [state["done"].append(name)] and [save_state(state)]. *)
Definition mark_done (state : ref) (name : string) : M unit :=
  done <- subscript state "done" ;;
  append_at done (VStr name) ;;;
  save_state state.

(** One round of [while True]: [None] to go round again, or the [return]
    taken. *)
Definition round (state : ref) : M (option halt) :=
  done <- subscript state "done" ;;
  spec <- get_next_spec done ;;
  match spec with
  | None =>
      print MsgAllCompleted ;;;
      ret (Some AllCompleted)
  | Some name =>
      print (MsgProcessing name) ;;;
      spec_text <- read_spec name ;;
      let prompt := make_prompt spec_text in
      r <- run_claude prompt ;;
      if negb (fst r =? 0)%Z then
        print MsgClaudeFailed ;;;
        ret (Some ClaudeFailed)
      else
        passed <- verify VERIFY_COMMANDS ;;
        if negb passed then ret (Some VerifyFailed)
        else
          mark_done state name ;;;
          print (MsgCompleted name) ;;;
          sleep 1 ;;;
          ret None
  end.

(** [while True], for at most [fuel] rounds; [None] when they are used up. *)
Fixpoint loop (fuel : nat) (state : ref) : M (option halt) :=
  match fuel with
  | O => ret None
  | S fuel' =>
      r <- round state ;;
      match r with
      | None => loop fuel' state
      | Some h => ret (Some h)
      end
  end.

(** [main].  Every round but the last marks one more spec done, so one round
    more than there are specs is enough ([main_returns]). *)
Definition main : M (option halt) :=
  fun w =>
    match specs_dir (files w) with
    | None => (print (MsgSpecsNotFound SPECS_DIR) ;;; sys_exit 1) w
    | Some _ =>
        (state <- load_state ;;
         loop (S (List.length (glob_md (files w)))) state) w
    end.

(** [STATE_FILE.write_text(text)] cut short.  The file is opened for writing,
    which empties it, and the text then goes out front to back (it is plain
    ASCII, one byte per character).  [k = 0]: stopped before the file is
    opened; [k = S n]: stopped after it is opened and [n] characters are
    out (all of them when [n] reaches the length). *)
Definition write_text_cut (text : string) (k : nat) (f : fs) : fs :=
  match k with
  | O => f
  | S n => Fs (specs_dir f) (Some (take n text))
  end.

Definition save_state_cut (state : value) (k : nat) (f : fs) : fs :=
  write_text_cut (Json.dumps state) k f.

(** The exit status of the process. *)
Definition exit_status {A} (o : outcome A) : Z :=
  match o with
  | Val _ => 0
  | Exc _ => 1
  | SysExit code => code
  end.

End Loop.

Import Loop.

(** ** Reading a trace *)

(** The texts written to the state file, in order. *)
Fixpoint writes (t : trace) : list string :=
  match t with
  | [] => []
  | EvWrite _ text :: t' => text :: writes t'
  | _ :: t' => writes t'
  end.

(** The command lines started, in order. *)
Fixpoint commands_run (t : trace) : list cmd :=
  match t with
  | [] => []
  | EvRun c _ _ :: t' => c :: commands_run t'
  | _ :: t' => commands_run t'
  end.

(** Did the process exit with status 0? *)
Definition exit_ok (r : res completed) : bool :=
  match r with
  | Ok p => (returncode p =? 0)%Z
  | Raise _ => false
  end.

Definition cmd_eqb (a b : cmd) : bool :=
  if list_eq_dec string_dec a b then true else false.

(** The events that tell how a unit fared: the announcement of the unit and
    the processes run for it. *)
Definition is_milestone (e : event) : bool :=
  match e with
  | EvPrint (MsgProcessing _) => true
  | EvRun _ _ _ => true
  | _ => false
  end.

Definition milestones (t : trace) : trace := filter is_milestone t.

(** [t] starts with the runs of [cmds], in order, without input, each exiting
    with 0. *)
Fixpoint checks_pass (cmds : list cmd) (t : trace) : bool :=
  match cmds with
  | [] => true
  | c :: cmds' =>
      match t with
      | EvRun c' None r :: t' =>
          cmd_eqb c c' && exit_ok r && checks_pass cmds' t'
      | _ => false
      end
  end.

(** [t] starts with unit [u] announced, the agent run on a prompt and exiting
    with 0, and every verification command run and exiting with 0. *)
Definition passed_at (u : string) (t : trace) : bool :=
  match t with
  | EvPrint (MsgProcessing u') :: EvRun c (Some _) r :: t' =>
      String.eqb u u' && cmd_eqb c claude_cmd && exit_ok r &&
      checks_pass VERIFY_COMMANDS t'
  | _ => false
  end.

Fixpoint passed_somewhere (u : string) (t : trace) : bool :=
  passed_at u t ||
  match t with
  | [] => false
  | _ :: t' => passed_somewhere u t'
  end.

(** The run with trace [t] saw the agent and all the verification succeed
    for unit [u]. *)
Definition succeeded (u : string) (t : trace) : Prop :=
  passed_somewhere u (milestones t) = true.

(** A process that exited with a status other than 0. *)
Definition exit_failed (e : event) : bool :=
  match e with
  | EvRun _ _ (Ok p) => negb (returncode p =? 0)%Z
  | _ => false
  end.

(** No unit is announced in [t]. *)
Definition no_announce (t : trace) : bool :=
  forallb (fun e => match e with
                    | EvPrint (MsgProcessing _) => false
                    | _ => true
                    end) t.

(** ** The state in memory and in the file *)

(** The reference [main] holds in [state], and the one [state["done"]]
    evaluates to. *)
Definition state_ref : ref := [].
Definition done_ref : ref := ["done"].

(** [state] once the list under its key ["done"] has become [done']. *)
Definition set_done (state done' : value) : value :=
  update state done_ref done'.

(** The [for] loop of [get_next_spec] on the object [done] refers to. *)
Fixpoint first_pending (done : value) (specs : list string)
  : res (option string) :=
  match specs with
  | [] => Ok None
  | spec :: specs' =>
      match contains spec done with
      | Ok false => Ok (Some spec)
      | Ok true => first_pending done specs'
      | Raise e => Raise e
      end
  end.

(** What the state file holds, as [load_state] reads it. *)
Definition stored (sf : option string) : res value :=
  match sf with
  | Some text => Json.loads text
  | None => Ok (VDict [("done", VList [])])
  end.

(** The state in memory is the one the state file holds. *)
Definition in_sync (w : world) : Prop :=
  Json.well_formed (heap w) = true /\
  stored (state_file (files w)) = Ok (heap w).

(** The state file after the texts [texts] were written to it in turn. *)
Definition last_write (before : option string) (texts : list string)
  : option string :=
  fold_left (fun _ text => Some text) texts before.

(** Each text of [texts] holds a state whose list of done units is the one
    before it with one new unit at the end, starting from the list [d]. *)
Fixpoint grows (d : list value) (texts : list string) : Prop :=
  match texts with
  | [] => True
  | text :: texts' =>
      exists st u,
        Json.loads text = Ok st /\
        getitem st "done" = Ok (VList (d ++ [VStr u])) /\
        ~ In (VStr u) d /\
        grows (d ++ [VStr u]) texts'
  end.

(** Unit [u] is recorded as done in the state file [sf]. *)
Definition recorded (sf : option string) (u : string) : Prop :=
  exists st done,
    stored sf = Ok st /\ getitem st "done" = Ok done /\
    contains u done = Ok true.

(** The specs that are not in the list [d]. *)
Definition is_pending (d : list value) (s : string) : bool :=
  match contains s (VList d) with
  | Ok true => false
  | _ => true
  end.

Definition pending (d : list value) (specs : list string) : list string :=
  filter (is_pending d) specs.

(** ** The paths through one round

    [round_path w o w' t]: one way [round state_ref] can go from [w], with
    its outcome, final world and trace. *)

Definition after_calls (w : world) (n : nat) : world :=
  World (files w) (procs w) (calls w + n) (heap w).

(** The events up to the agent's output. *)
Definition agent_events (u prompt : string) (p : completed) : trace :=
  [EvPrint (MsgProcessing u); EvRun claude_cmd (Some prompt) (Ok p);
   EvPrint (MsgCommand claude_cmd);
   EvPrint (MsgOutput (stdout p +++ stderr p))].

Inductive round_path (w : world)
  : outcome (option halt) -> world -> trace -> Prop :=
| path_no_done e :
    getitem (heap w) "done" = Raise e ->
    round_path w (Exc e) w []
| path_not_container done e :
    getitem (heap w) "done" = Ok done ->
    first_pending done (sorted (glob_md (files w))) = Raise e ->
    round_path w (Exc e) w []
| path_all_completed done :
    getitem (heap w) "done" = Ok done ->
    first_pending done (sorted (glob_md (files w))) = Ok None ->
    round_path w (Val (Some AllCompleted)) w [EvPrint MsgAllCompleted]
| path_unreadable done u :
    getitem (heap w) "done" = Ok done ->
    first_pending done (sorted (glob_md (files w))) = Ok (Some u) ->
    read_spec u w = (Exc OSError, w, []) ->
    round_path w (Exc OSError) w [EvPrint (MsgProcessing u)]
| path_agent_not_started done u text e :
    getitem (heap w) "done" = Ok done ->
    first_pending done (sorted (glob_md (files w))) = Ok (Some u) ->
    read_spec u w = (Val text, w, []) ->
    procs w (calls w) claude_cmd (Some (make_prompt text)) = Raise e ->
    round_path w (Exc e) (after_calls w 1)
      [EvPrint (MsgProcessing u);
       EvRun claude_cmd (Some (make_prompt text)) (Raise e)]
| path_agent_failed done u text p :
    getitem (heap w) "done" = Ok done ->
    first_pending done (sorted (glob_md (files w))) = Ok (Some u) ->
    read_spec u w = (Val text, w, []) ->
    procs w (calls w) claude_cmd (Some (make_prompt text)) = Ok p ->
    returncode p <> 0%Z ->
    round_path w (Val (Some ClaudeFailed)) (after_calls w 1)
      (agent_events u (make_prompt text) p ++ [EvPrint MsgClaudeFailed])
| path_verify_failed done u text p wv tv :
    getitem (heap w) "done" = Ok done ->
    first_pending done (sorted (glob_md (files w))) = Ok (Some u) ->
    read_spec u w = (Val text, w, []) ->
    procs w (calls w) claude_cmd (Some (make_prompt text)) = Ok p ->
    returncode p = 0%Z ->
    verify VERIFY_COMMANDS (after_calls w 1) = (Val false, wv, tv) ->
    round_path w (Val (Some VerifyFailed)) wv
      (agent_events u (make_prompt text) p ++ tv)
| path_verify_not_started done u text p wv tv e :
    getitem (heap w) "done" = Ok done ->
    first_pending done (sorted (glob_md (files w))) = Ok (Some u) ->
    read_spec u w = (Val text, w, []) ->
    procs w (calls w) claude_cmd (Some (make_prompt text)) = Ok p ->
    returncode p = 0%Z ->
    verify VERIFY_COMMANDS (after_calls w 1) = (Exc e, wv, tv) ->
    round_path w (Exc e) wv
      (agent_events u (make_prompt text) p ++ tv)
| path_not_a_list done u text p wv tv e :
    getitem (heap w) "done" = Ok done ->
    first_pending done (sorted (glob_md (files w))) = Ok (Some u) ->
    read_spec u w = (Val text, w, []) ->
    procs w (calls w) claude_cmd (Some (make_prompt text)) = Ok p ->
    returncode p = 0%Z ->
    verify VERIFY_COMMANDS (after_calls w 1) = (Val true, wv, tv) ->
    append done (VStr u) = Raise e ->
    round_path w (Exc e) wv
      (agent_events u (make_prompt text) p ++ tv)
| path_marked_done done u text p wv tv done' :
    getitem (heap w) "done" = Ok done ->
    first_pending done (sorted (glob_md (files w))) = Ok (Some u) ->
    read_spec u w = (Val text, w, []) ->
    procs w (calls w) claude_cmd (Some (make_prompt text)) = Ok p ->
    returncode p = 0%Z ->
    verify VERIFY_COMMANDS (after_calls w 1) = (Val true, wv, tv) ->
    append done (VStr u) = Ok done' ->
    round_path w (Val None)
      (World (Fs (specs_dir (files wv))
                 (Some (Json.dumps (set_done (heap w) done'))))
             (procs wv) (calls wv) (set_done (heap w) done'))
      (agent_events u (make_prompt text) p ++ tv ++
       [EvWrite STATE_FILE (Json.dumps (set_done (heap w) done'));
        EvPrint (MsgCompleted u); EvSleep 1]).

(** The rounds of a run that marked a unit done, one after the other:
    [rounds w us w' t] takes the world [w] through one such round per unit
    of [us] to [w'], causing [t]. *)
Inductive rounds : world -> list string -> world -> trace -> Prop :=
| rounds_nil w : rounds w [] w []
| rounds_cons w done u w1 t1 us w2 t2 :
    round state_ref w = (Val None, w1, t1) ->
    getitem (heap w) "done" = Ok done ->
    first_pending done (sorted (glob_md (files w))) = Ok (Some u) ->
    rounds w1 us w2 t2 ->
    rounds w (u :: us) w2 (t1 ++ t2).

(** The state files that runs of [main] lead to from no state file at all,
    each with the traces of the runs that led there.  A run may find any
    specs directory and any behaviour of the external programs. *)
Inductive reachable : option string -> list trace -> Prop :=
| reach_fresh : reachable None []
| reach_run sf hist w o w' t :
    reachable sf hist ->
    state_file (files w) = sf ->
    main w = (o, w', t) ->
    reachable (state_file (files w')) (hist ++ [t]).

(** ** Sample worlds *)

Definition two_specs : list (string * option string) :=
  [("02-b.md", Some "do b"); ("01-a.md", Some "do a")].

(** Every program exits with 0. *)
Definition all_pass : programs := fun _ _ _ => Ok (Exit 0 "ok" EmptyString).

(** Every program exits with 1. *)
Definition all_fail : programs := fun _ _ _ => Ok (Exit 1 EmptyString "no").

Definition a_done : value := VDict [("done", VList [VStr "01-a.md"])].

Definition ab_done : value :=
  VDict [("done", VList [VStr "01-a.md"; VStr "02-b.md"])].

(** A first run, with no state file yet. *)
Definition fresh_world : world :=
  World (Fs (Some two_specs) None) all_pass 0 VNone.

(** A run that finds the first spec done and whose agent fails. *)
Definition failing_world : world :=
  World (Fs (Some two_specs) (Some (Json.dumps a_done))) all_fail 0 VNone.

(** A state with fields besides ["done"]. *)
Definition rich_state : value :=
  VDict [("version", VInt 3); ("done", VList [VStr "01-a.md"]);
         ("note", VStr "kept")].


Import Json.

(** ** Notions used in the proofs *)

(** Text that may follow a value inside what [dumps] writes. *)
Definition delimited (s : string) : bool :=
  match s with
  | EmptyString => true
  | String c _ => ((N_of_ascii c =? 44) || (N_of_ascii c =? 10))%N
  end.

(** A character a value can start with: no white space, no closing
    bracket. *)
Definition opens (c : ascii) : bool :=
  negb (is_ws c) && negb (N_of_ascii c =? 93)%N.

Definition head_opens (s : string) : bool :=
  match s with
  | EmptyString => false
  | String c _ => opens c
  end.

(** Fuel that scanning the text of [v] uses at most. *)
Fixpoint cost (v : value) : nat :=
  match v with
  | VList l => S (list_sum (map (fun x => S (cost x)) l))
  | VDict d => S (list_sum (map (fun kv => S (cost (snd kv))) d))
  | _ => 1
  end.

Definition items_cost (l : list value) : nat :=
  list_sum (map (fun x => S (cost x)) l).
Definition members_cost (d : list (string * value)) : nat :=
  list_sum (map (fun kv => S (cost (snd kv))) d).

(** What the round trip needs of one value. *)
Definition reads_back (v : value) : Prop :=
  well_formed v = true ->
  forall lvl fuel rest,
    cost v <= fuel -> delimited rest = true ->
    scan_once fuel (encode lvl v +++ rest) = Got v rest.

Definition values_ok (d : list (string * value)) : bool :=
  forallb (fun kv => well_formed (snd kv)) d.

(** [a] is [b], or ran out of fuel. *)
Definition le_scan {A} (a b : scan A) : Prop := a = Starved \/ a = b.

(** The scan stopped without a value. *)
Definition halted {A} (r : scan A) : Prop := r = Bad \/ r = Starved.

(** The scan of a cut text of [v]: stopped without a value or, for the
    digits of a number, read what is there to the end. *)
Definition stuck (v : value) (r : scan value) : Prop :=
  halted r \/
  (exists z, v = VInt z) /\ exists v', r = Got v' EmptyString.

(** What the cut needs of one value. *)
Definition cut_short (v : value) : Prop :=
  well_formed v = true ->
  forall lvl fuel n,
    n < String.length (encode lvl v) ->
    stuck v (scan_once fuel (take n (encode lvl v))).

Fixpoint all_digits (s : string) : bool :=
  match s with
  | EmptyString => true
  | String c r => is_digit c && all_digits r
  end.

Definition le_name (a b : string) : Prop := String.leb a b = true.



(** The units announced (line 82), in order. *)
Fixpoint announced (t : trace) : list string :=
  match t with
  | [] => []
  | EvPrint (MsgProcessing u) :: t' => u :: announced t'
  | _ :: t' => announced t'
  end.

(** The units reported completed (line 123), in order. *)
Fixpoint completed_units (t : trace) : list string :=
  match t with
  | [] => []
  | EvPrint (MsgCompleted u) :: t' => u :: completed_units t'
  | _ :: t' => completed_units t'
  end.

(** The command lines of one unit: the agent, then the verification. *)
Definition unit_commands : list cmd := claude_cmd :: VERIFY_COMMANDS.

(** Strictly before, in the order [sorted] uses. *)
Definition lt_name (a b : string) : Prop := le_name a b /\ a <> b.

(** A state whose ["done"] is a dict, and a run that finds it. *)
Definition dict_done : value := VDict [("done", VDict [])].

Definition dict_world : world :=
  World (Fs (Some two_specs) (Some (dumps dict_done))) all_pass 0 VNone.

(** A directory whose second spec cannot be read. *)
Definition unreadable_world : world :=
  World (Fs (Some [("01-a.md", Some "do a"); ("02-b.md", None)]) None)
        all_pass 0 VNone.

(** Every process started exits with 0. *)
Definition always_pass (p : programs) : Prop :=
  forall n c stdin, exists q, p n c stdin = Ok q /\ returncode q = 0%Z.

(** * Facts *)

Lemma append_assoc (a b c : string) : (a +++ b) +++ c = a +++ b +++ c.
Proof. induction a as [|x a IH]; simpl; [reflexivity | now rewrite IH]. Qed.

Lemma length_append (a b : string) :
  String.length (a +++ b) = String.length a + String.length b.
Proof. induction a as [|x a IH]; simpl; [reflexivity | now rewrite IH]. Qed.

Lemma skip_ws_sp n s : skip_ws (repeat_sp n +++ s) = skip_ws s.
Proof. induction n; simpl; auto. Qed.

Lemma skip_ws_nl lvl s : skip_ws (nl lvl +++ s) = skip_ws s.
Proof. unfold nl. simpl. apply skip_ws_sp. Qed.

Lemma scanstring_escape_char c rest :
  scanstring (escape_char c +++ rest) = cons_char c (scanstring rest).
Proof.
  destruct c as [[] [] [] [] [] [] [] []]; reflexivity.
Qed.

Lemma scanstring_escape s rest :
  scanstring (escape s +++ String dquote rest) = Got s rest.
Proof.
  induction s as [|c s IH]; simpl.
  - reflexivity.
  - rewrite append_assoc, scanstring_escape_char, IH. reflexivity.
Qed.

Lemma append_nil_r (a : string) : a +++ EmptyString = a.
Proof. induction a as [|x a IH]; simpl; [reflexivity | now rewrite IH]. Qed.

Lemma delimited_no_float rest : delimited rest = true -> float_tail rest = false.
Proof.
  destruct rest as [|c [|d r]]; try reflexivity;
    destruct c as [[] [] [] [] [] [] [] []]; simpl; try discriminate; reflexivity.
Qed.

Lemma delimited_no_digit rest :
  delimited rest = true -> scan_digits rest = (Decimal.Nil, rest).
Proof.
  destruct rest as [|c r]; try reflexivity;
    destruct c as [[] [] [] [] [] [] [] []]; simpl; try discriminate; reflexivity.
Qed.

Lemma scan_digits_uint u rest :
  delimited rest = true ->
  scan_digits (NilEmpty.string_of_uint u +++ rest) = (u, rest).
Proof.
  intros H. induction u; simpl; try (rewrite IHu; reflexivity).
  now apply delimited_no_digit.
Qed.

Lemma to_uint_head p :
  exists c r, NilEmpty.string_of_uint (Pos.to_uint p) = String c r /\
              is_digit c = true /\ (N_of_ascii c =? 48)%N = false.
Proof.
  pose proof (DecimalPos.Unsigned.to_of (Pos.to_uint p)) as Hn.
  rewrite DecimalPos.Unsigned.of_to in Hn. simpl in Hn.
  pose proof (DecimalPos.Unsigned.to_uint_nonzero p) as Hz.
  destruct (Pos.to_uint p) as [|u|u|u|u|u|u|u|u|u|u] eqn:E;
    try (simpl; eexists _, _; split; [reflexivity | split; reflexivity]).
  - exfalso. now apply (DecimalPos.Unsigned.to_uint_nonnil p).
  - exfalso. rewrite unorm_D0 in Hn. unfold Decimal.unorm in Hn.
    destruct (Decimal.nzhead u) eqn:En;
      apply (nzhead_nonzero u u); congruence.
Qed.

Lemma scan_nat_pos p rest :
  delimited rest = true ->
  scan_nat (NilEmpty.string_of_uint (Pos.to_uint p) +++ rest)
  = Some (Npos p, rest).
Proof.
  intros H. destruct (to_uint_head p) as (c & r & E & Hd & H0).
  unfold scan_nat. rewrite E. cbn [String.append]. rewrite H0, Hd.
  change (String c (r +++ rest)) with (String c r +++ rest).
  rewrite <- E, scan_digits_uint by assumption.
  unfold N.of_uint. now rewrite DecimalPos.Unsigned.of_to.
Qed.

Lemma digits_scanned a rest :
  String.length (a +++ rest) - String.length rest = String.length a.
Proof. rewrite length_append. lia. Qed.

Lemma scan_once_int z fuel rest :
  well_formed (VInt z) = true ->
  delimited rest = true ->
  scan_once (S fuel) (encode_int z +++ rest) = Got (VInt z) rest.
Proof.
  intros Hwf H. pose proof (delimited_no_float _ H) as Hf.
  cbn [well_formed] in Hwf. unfold int_digits in Hwf.
  destruct z as [|p|p]; cbn [Z.abs encode_int] in Hwf.
  - pose proof (digits_scanned "0" rest) as Hl.
    cbn [String.append] in Hl.
    cbn [encode_int String.append scan_once]. cbv beta iota zeta.
    change (N_of_ascii "0" =? 34)%N with false.
    change (N_of_ascii "0" =? 123)%N with false.
    change (N_of_ascii "0" =? 91)%N with false. cbv iota.
    unfold scan_number, scan_nat. cbn [strip_prefix Ascii.eqb Bool.eqb].
    cbv iota beta. change (N_of_ascii "0" =? 48)%N with true. cbv iota.
    rewrite Hf, Hl. reflexivity.
  - destruct (to_uint_head p) as (c & r & E & Hd & H0).
    pose proof (scan_nat_pos p rest H) as Hs.
    pose proof (digits_scanned
                  (NilEmpty.string_of_uint (Pos.to_uint p)) rest) as Hl.
    simpl encode_int. rewrite E in *.
    revert Hs Hd H0. destruct c as [[] [] [] [] [] [] [] []]; try discriminate;
      intros Hs _ _; cbn [scan_once String.append]; cbv beta iota zeta;
      cbn [N_of_ascii N.eqb Pos.eqb N.add N.mul N_of_digits];
      cbv beta iota; unfold scan_number; cbn [strip_prefix Ascii.eqb Bool.eqb];
      cbv iota beta; cbn [String.append] in Hs, Hl; rewrite Hs, Hf, Hl, Hwf;
      reflexivity.
  - pose proof (scan_nat_pos p rest H) as Hs.
    pose proof (digits_scanned
                  (NilEmpty.string_of_uint (Pos.to_uint p)) rest) as Hl.
    cbn [encode_int String.append scan_once]. cbv beta iota zeta.
    change (N_of_ascii "-" =? 34)%N with false.
    change (N_of_ascii "-" =? 123)%N with false.
    change (N_of_ascii "-" =? 91)%N with false. cbv iota.
    unfold scan_number. cbn [strip_prefix Ascii.eqb Bool.eqb]. cbv iota beta.
    rewrite Hs, Hf, Hl, Hwf. reflexivity.
Qed.

Lemma encode_head lvl v : head_opens (encode lvl v) = true.
Proof.
  destruct v as [|[]|z|[]|s|[|x l]|[|[k x] d]]; try reflexivity.
  destruct z as [|p|p]; try reflexivity.
  destruct (to_uint_head p) as (c & r & E & Hd & _). simpl. rewrite E.
  revert Hd. destruct c as [[] [] [] [] [] [] [] []]; try discriminate; reflexivity.
Qed.

Lemma skip_ws_head s t : head_opens s = true -> skip_ws (s +++ t) = s +++ t.
Proof.
  destruct s as [|c s]; [discriminate|]. simpl. unfold opens.
  destruct (is_ws c); [discriminate | reflexivity].
Qed.

Lemma head_not_close s t :
  head_opens s = true ->
  exists c r, s +++ t = String c r /\ is_ws c = false /\
              (N_of_ascii c =? 93)%N = false.
Proof.
  destruct s as [|c s]; [discriminate|]. simpl. unfold opens. intros H.
  exists c, (s +++ t). apply andb_prop in H as [H1 H2].
  rewrite negb_true_iff in H1, H2. auto.
Qed.

Lemma delimited_items enc lvl l rest :
  delimited (encode_items enc lvl l +++ rest) = true.
Proof. destruct l; reflexivity. Qed.

Lemma delimited_members enc lvl d rest :
  delimited (encode_members enc lvl d +++ rest) = true.
Proof. destruct d as [|[k y] d]; reflexivity. Qed.

Lemma items_cost_cons x l : items_cost (x :: l) = S (cost x) + items_cost l.
Proof. reflexivity. Qed.

Lemma members_cost_cons k x d :
  members_cost ((k, x) :: d) = S (cost x) + members_cost d.
Proof. reflexivity. Qed.

Lemma scan_items_encode lvl l :
  Forall reads_back l ->
  forallb well_formed l = true ->
  forall x, reads_back x -> well_formed x = true ->
  forall fuel acc rest,
    items_cost (x :: l) <= fuel ->
    scan_items fuel
      (encode (S lvl) x +++ encode_items (encode (S lvl)) lvl l +++ rest) acc
    = Got (acc ++ x :: l) rest.
Proof.
  induction 1 as [|y l Hy Hl IH]; intros Hwf x Hx Hwx fuel acc rest Hfuel;
    rewrite items_cost_cons in Hfuel;
    (destruct fuel as [|fuel]; [inversion Hfuel|]);
    cbn [scan_items]; (rewrite Hx; [|assumption|lia|apply delimited_items]);
    cbn [andthen encode_items]; rewrite !append_assoc.
  - rewrite skip_ws_nl. reflexivity.
  - simpl in Hwf. apply andb_prop in Hwf as [Hwy Hwl].
    change (skip_ws ("," +++ ?s)) with ("," +++ s).
    cbn [String.append]. cbv beta iota.
    change (N_of_ascii "," =? 93)%N with false.
    change (N_of_ascii "," =? 44)%N with true. cbv iota.
    rewrite skip_ws_nl, skip_ws_head by apply encode_head.
    rewrite IH; [|assumption|assumption|assumption|lia].
    now rewrite <- List.app_assoc.
Qed.

Lemma scan_members_encode lvl d :
  Forall (fun kv => reads_back (snd kv)) d ->
  forallb (fun kv => well_formed (snd kv)) d = true ->
  forall k x, reads_back x -> well_formed x = true ->
  forall fuel acc rest,
    members_cost ((k, x) :: d) <= fuel ->
    scan_members fuel
      (escape k +++
       String dquote (String ":" (String " " (encode (S lvl) x +++
       encode_members (encode (S lvl)) lvl d +++ rest)))) acc
    = Got (acc ++ (k, x) :: d) rest.
Proof.
  induction 1 as [|[k' y] d Hy Hd IH]; intros Hwf k x Hx Hwx fuel acc rest Hfuel;
    rewrite members_cost_cons in Hfuel;
    (destruct fuel as [|fuel]; [inversion Hfuel|]);
    cbn [scan_members]; rewrite scanstring_escape; cbn [andthen];
    change (skip_ws (String ":" ?s)) with (String ":" s);
    cbv beta iota;
    change (N_of_ascii ":" =? 58)%N with true; cbv iota;
    change (skip_ws (String " " ?s)) with (skip_ws s);
    rewrite skip_ws_head by apply encode_head;
    (rewrite Hx; [|assumption|lia|apply delimited_members]);
    cbn [andthen encode_members]; rewrite !append_assoc.
  - rewrite skip_ws_nl. reflexivity.
  - simpl in Hwf. apply andb_prop in Hwf as [Hwy Hwl].
    change (skip_ws ("," +++ ?s)) with ("," +++ s).
    cbn [String.append]. cbv beta iota.
    change (N_of_ascii "," =? 125)%N with false.
    change (N_of_ascii "," =? 44)%N with true. cbv iota.
    rewrite skip_ws_nl. unfold encode_string at 1.
    cbn [String.append skip_ws]. change (is_ws dquote) with false. cbv iota.
    change (N_of_ascii dquote =? 34)%N with true. cbv iota.
    rewrite !append_assoc. cbn [String.append].
    rewrite IH; [|assumption|assumption|assumption|lia].
    now rewrite <- List.app_assoc.
Qed.

Lemma dict_set_fresh k v d :
  existsb (String.eqb k) (map fst d) = false -> dict_set k v d = d ++ [(k, v)].
Proof.
  induction d as [|[k' v'] d IH]; simpl; [reflexivity|].
  intros H. apply orb_false_elim in H as [H1 H2].
  rewrite H1, IH by assumption. reflexivity.
Qed.

Lemma dict_of_pairs_from acc d :
  nodup_keys (map fst (acc ++ d)) = true ->
  fold_left (fun d kv => dict_set (fst kv) (snd kv) d) d acc = acc ++ d.
Proof.
  revert acc. induction d as [|[k v] d IH]; intros acc H; simpl.
  - now rewrite List.app_nil_r.
  - assert (Hk : existsb (String.eqb k) (map fst acc) = false).
    { clear IH. induction acc as [|[k' v'] acc IHa]; simpl; [reflexivity|].
      simpl in H. apply andb_prop in H as [H1 H2].
      rewrite IHa by assumption. rewrite orb_false_r.
      rewrite negb_true_iff, map_app, existsb_app in H1.
      apply orb_false_elim in H1 as [_ H1]. simpl in H1.
      apply orb_false_elim in H1 as [H1 _]. now rewrite String.eqb_sym. }
    rewrite dict_set_fresh by assumption.
    rewrite IH; rewrite <- List.app_assoc; [reflexivity | exact H].
Qed.

Lemma dict_of_pairs_nodup d :
  nodup_keys (map fst d) = true -> dict_of_pairs d = d.
Proof. intros H. unfold dict_of_pairs. now rewrite dict_of_pairs_from. Qed.

Theorem scan_once_encode v : reads_back v.
Proof.
  induction v as [| b | z | f | s | l IH | d IH] using value_ind';
    intros Hwf lvl fuel rest Hfuel Hrest;
    (destruct fuel as [|fuel]; [inversion Hfuel|]).
  - reflexivity.
  - destruct b; reflexivity.
  - now apply scan_once_int.
  - destruct f; reflexivity.
  - unfold encode, encode_string. cbn [String.append scan_once]. cbv beta iota zeta.
    change (N_of_ascii dquote =? 34)%N with true. cbv iota.
    rewrite append_assoc. cbn [String.append].
    rewrite scanstring_escape. reflexivity.
  - destruct l as [|x l]; [reflexivity|].
    inversion IH as [|? ? Hx Hl]; subst.
    simpl in Hwf. apply andb_prop in Hwf as [Hwx Hwl].
    cbn [encode String.append scan_once]. cbv beta iota zeta.
    change (N_of_ascii "[" =? 34)%N with false.
    change (N_of_ascii "[" =? 123)%N with false.
    change (N_of_ascii "[" =? 91)%N with true. cbv iota.
    rewrite !append_assoc, skip_ws_nl, skip_ws_head by apply encode_head.
    destruct (head_not_close (encode (S lvl) x)
                (encode_items (encode (S lvl)) lvl l +++ rest)
                (encode_head _ _)) as (c & r & E & _ & Hc).
    rewrite E, Hc, <- E.
    rewrite (scan_items_encode lvl l Hl Hwl x Hx Hwx fuel [] rest).
    + reflexivity.
    + simpl in Hfuel. unfold items_cost. simpl. lia.
  - destruct d as [|[k x] d]; [reflexivity|].
    inversion IH as [|? ? Hx Hd]; subst. simpl in Hx.
    pose proof Hwf as Hwf0.
    simpl in Hwf. apply andb_prop in Hwf as [Hnd Hwf].
    apply andb_prop in Hwf as [Hwx Hwd].
    cbn [encode String.append scan_once]. cbv beta iota zeta.
    change (N_of_ascii "{" =? 34)%N with false.
    change (N_of_ascii "{" =? 123)%N with true. cbv iota.
    rewrite !append_assoc, skip_ws_nl. unfold encode_string at 1.
    cbn [String.append skip_ws]. change (is_ws dquote) with false. cbv iota.
    change (N_of_ascii dquote =? 125)%N with false.
    change (N_of_ascii dquote =? 34)%N with true. cbv iota.
    rewrite !append_assoc. cbn [String.append].
    rewrite (scan_members_encode lvl d Hd Hwd k x Hx Hwx fuel [] rest).
    + cbn [andthen app]. rewrite dict_of_pairs_nodup; [reflexivity|].
      simpl in Hwf0. apply andb_prop in Hwf0 as [Hn _]. exact Hn.
    + simpl in Hfuel. unfold members_cost. simpl. lia.
Qed.

Lemma head_opens_length s : head_opens s = true -> 1 <= String.length s.
Proof. destruct s; [discriminate | simpl; lia]. Qed.

Lemma items_cost_length lvl l :
  Forall (fun v => forall lvl, cost v <= String.length (encode lvl v)) l ->
  items_cost l <= String.length (encode_items (encode (S lvl)) lvl l).
Proof.
  induction 1 as [|x l Hx _ IH]; [unfold items_cost; simpl; lia|].
  rewrite items_cost_cons. cbn [encode_items].
  rewrite !length_append. specialize (Hx (S lvl)). simpl String.length. lia.
Qed.

Lemma members_cost_length lvl d :
  Forall (fun kv => forall lvl, cost (snd kv)
                                <= String.length (encode lvl (snd kv))) d ->
  members_cost d <= String.length (encode_members (encode (S lvl)) lvl d).
Proof.
  induction 1 as [|[k x] d Hx _ IH]; [unfold members_cost; simpl; lia|].
  rewrite members_cost_cons. cbn [encode_members].
  rewrite !length_append. specialize (Hx (S lvl)). simpl in Hx.
  simpl String.length. lia.
Qed.

Lemma cost_le_length v : forall lvl, cost v <= String.length (encode lvl v).
Proof.
  induction v as [| b | z | f | s | l IH | d IH] using value_ind'; intros lvl;
    try (apply head_opens_length, encode_head).
  - destruct l as [|x l]; [simpl; lia|].
    inversion IH as [|? ? Hx Hl]; subst.
    change (cost (VList (x :: l))) with (S (items_cost (x :: l))).
    rewrite items_cost_cons. cbn [encode].
    rewrite !length_append. pose proof (items_cost_length lvl l Hl).
    specialize (Hx (S lvl)). simpl String.length. lia.
  - destruct d as [|[k x] d]; [simpl; lia|].
    inversion IH as [|? ? Hx Hd]; subst. simpl in Hx.
    change (cost (VDict ((k, x) :: d))) with (S (members_cost ((k, x) :: d))).
    rewrite members_cost_cons. cbn [encode].
    rewrite !length_append. pose proof (members_cost_length lvl d Hd).
    specialize (Hx (S lvl)). simpl String.length. lia.
Qed.

(** [json.loads(json.dumps(v, indent=2))] builds [v] again. *)
Theorem loads_dumps v : well_formed v = true -> loads (dumps v) = Ok v.
Proof.
  intros Hwf. unfold loads, dumps.
  rewrite <- (append_nil_r (encode 0 v)) at 2.
  rewrite skip_ws_head by apply encode_head.
  rewrite scan_once_encode; [reflexivity | assumption | | reflexivity].
  pose proof (cost_le_length v 0). lia.
Qed.


(** *** What [loads] builds is well formed *)

Lemma dict_set_keys k v d :
  forall k', existsb (String.eqb k') (map fst (dict_set k v d))
             = existsb (String.eqb k') (map fst d) || String.eqb k' k.
Proof.
  intros k'. induction d as [|[k0 v0] d IH]; simpl.
  - now rewrite orb_false_r.
  - destruct (String.eqb_spec k k0) as [->|Hne]; simpl.
    + destruct (String.eqb k' k0), (existsb (String.eqb k') (map fst d)); reflexivity.
    + rewrite IH. now rewrite orb_assoc.
Qed.

Lemma dict_set_nodup k v d :
  nodup_keys (map fst d) = true -> nodup_keys (map fst (dict_set k v d)) = true.
Proof.
  induction d as [|[k0 v0] d IH]; simpl; [reflexivity|].
  intros H. apply andb_prop in H as [H1 H2].
  destruct (String.eqb_spec k k0) as [->|Hne]; simpl.
  - now rewrite H1, H2.
  - rewrite IH by assumption. rewrite dict_set_keys.
    rewrite negb_true_iff in H1. rewrite H1. simpl.
    destruct (String.eqb_spec k0 k); [congruence | reflexivity].
Qed.

Lemma dict_set_values k v d :
  well_formed v = true -> values_ok d = true ->
  values_ok (dict_set k v d) = true.
Proof.
  intros Hv. induction d as [|[k0 v0] d IH]; simpl.
  - now rewrite Hv.
  - intros H. apply andb_prop in H as [H1 H2].
    destruct (String.eqb k k0); simpl.
    + now rewrite Hv, H2.
    + now rewrite H1, IH.
Qed.

Lemma dict_of_pairs_ok ps :
  values_ok ps = true ->
  nodup_keys (map fst (dict_of_pairs ps)) = true /\
  values_ok (dict_of_pairs ps) = true.
Proof.
  unfold dict_of_pairs.
  assert (G : forall acc,
             nodup_keys (map fst acc) = true -> values_ok acc = true ->
             values_ok ps = true ->
             let d := fold_left (fun d kv => dict_set (fst kv) (snd kv) d) ps acc in
             nodup_keys (map fst d) = true /\ values_ok d = true).
  { induction ps as [|[k v] ps IH]; intros acc Hn Hv Hps; simpl; [auto|].
    simpl in Hps. apply andb_prop in Hps as [Hv1 Hps].
    apply IH; auto using dict_set_nodup, dict_set_values. }
  intros H. now apply G.
Qed.

Lemma forallb_snoc {A} (f : A -> bool) l x :
  forallb f (l ++ [x]) = forallb f l && f x.
Proof. rewrite forallb_app. simpl. now rewrite andb_true_r. Qed.

Lemma string_of_uint_length u :
  String.length (NilEmpty.string_of_uint u) = Decimal.nb_digits u.
Proof. induction u; simpl; auto. Qed.

Lemma scan_digits_count s : forall u rest,
  scan_digits s = (u, rest) ->
  String.length s = Decimal.nb_digits u + String.length rest.
Proof.
  induction s as [|c s IH]; intros u rest; cbn [scan_digits].
  - now intros [= <- <-].
  - destruct (digit_of c) as [dg|] eqn:E; [|now intros [= <- <-]].
    destruct (scan_digits s) as [u' rest'] eqn:Es. intros [= <- <-].
    specialize (IH _ _ eq_refl). cbn [String.length]. rewrite IH.
    revert E. unfold digit_of.
    repeat match goal with
           | |- context [if ?b then _ else _] => destruct b
           end; intros [= <-]; reflexivity.
Qed.

(** An integer has no more digits than the text it was read from. *)
Lemma scan_nat_digits_le body n rest :
  scan_nat body = Some (n, rest) ->
  int_digits (Z.of_N n) <= String.length body - String.length rest.
Proof.
  destruct body as [|c s]; [discriminate|]. unfold scan_nat.
  destruct (N_of_ascii c =? 48)%N.
  { intros [= <- <-]. unfold int_digits.
    cbn [Z.of_N Z.abs encode_int String.length]. lia. }
  destruct (is_digit c) eqn:Hd; [|discriminate].
  destruct (scan_digits (String c s)) as [u r] eqn:Es. intros [= <- <-].
  pose proof (scan_digits_count _ _ _ Es) as Hl. rewrite Hl.
  assert (Hu : u <> Decimal.Nil).
  { revert Es. cbn [scan_digits]. unfold is_digit in Hd.
    destruct (digit_of c) as [dg|] eqn:E; [|discriminate].
    destruct (scan_digits s). intros [= <- _]. revert E. unfold digit_of.
    repeat match goal with
           | |- context [if ?b then _ else _] => destruct b
           end; intros [= <-]; discriminate. }
  unfold int_digits. rewrite Z.abs_eq by lia.
  pose proof (DecimalN.Unsigned.to_of u) as Hto.
  pose proof (nb_digits_unorm u Hu) as Hn.
  assert (H1 : 1 <= Decimal.nb_digits u)
    by (destruct u; cbn [Decimal.nb_digits]; try lia; congruence).
  destruct (N.of_uint u) as [|p].
  - cbn [Z.of_N encode_int String.length]. lia.
  - cbn [Z.of_N encode_int]. cbn [N.to_uint] in Hto.
    rewrite Hto, string_of_uint_length. lia.
Qed.

Lemma digits_ok_le a b : a <= b -> digits_ok b = true -> digits_ok a = true.
Proof.
  unfold digits_ok. intros H Hb. apply Nat.leb_le in Hb. apply Nat.leb_le.
  lia.
Qed.

Lemma int_digits_opp z : int_digits (- z) = int_digits z.
Proof. unfold int_digits. now rewrite Z.abs_opp. Qed.

Lemma scan_well_formed fuel :
  (forall s v r, scan_once fuel s = Got v r -> well_formed v = true) /\
  (forall s acc l r, scan_items fuel s acc = Got l r ->
                     forallb well_formed acc = true ->
                     forallb well_formed l = true) /\
  (forall s acc ps r, scan_members fuel s acc = Got ps r ->
                      values_ok acc = true -> values_ok ps = true).
Proof.
  induction fuel as [|fuel (IHo & IHi & IHm)];
    [repeat split; intros; discriminate|].
  repeat split.
  - intros s v r. cbn [scan_once]. destruct s as [|c s]; [discriminate|].
    cbv zeta.
    destruct (N_of_ascii c =? 34)%N.
    { destruct (scanstring s); simpl; try discriminate. now intros [= <- _]. }
    destruct (N_of_ascii c =? 123)%N.
    { destruct (skip_ws s) as [|c1 r1]; [discriminate|].
      destruct (N_of_ascii c1 =? 125)%N; [now intros [= <- _]|].
      destruct (N_of_ascii c1 =? 34)%N; [|discriminate].
      destruct (scan_members fuel r1 []) as [ps rest| | |] eqn:E;
        simpl; try discriminate.
      intros [= <- _]. apply IHm in E; [|reflexivity].
      destruct (dict_of_pairs_ok ps E) as [H1 H2].
      simpl. now rewrite H1. }
    destruct (N_of_ascii c =? 91)%N.
    { destruct (skip_ws s) as [|c1 r1]; [discriminate|].
      destruct (N_of_ascii c1 =? 93)%N; [now intros [= <- _]|].
      destruct (scan_items fuel (String c1 r1) []) as [l rest| | |] eqn:E;
        simpl; try discriminate.
      intros [= <- _]. apply IHi in E; [|reflexivity]. exact E. }
    destruct (strip_prefix "null" (String c s)); [now intros [= <- _]|].
    destruct (strip_prefix "true" (String c s)); [now intros [= <- _]|].
    destruct (strip_prefix "false" (String c s)); [now intros [= <- _]|].
    destruct (strip_prefix "NaN" (String c s)); [now intros [= <- _]|].
    destruct (strip_prefix "Infinity" (String c s)); [now intros [= <- _]|].
    unfold scan_number.
    destruct (strip_prefix "-" (String c s)) as [body|];
      (destruct (scan_nat _) as [[n rest]|] eqn:En;
       [ destruct (float_tail rest);
         [ destruct (scan_frac rest) as [frac r1];
           destruct (scan_exp r1) as [e r2];
           destruct (float_of_decimal _ n frac e);
           [now intros [= <- _] | discriminate]
         | destruct (digits_ok _) eqn:Ed; [|discriminate];
           intros [= <- _]; cbn [well_formed]; rewrite ?int_digits_opp;
           exact (digits_ok_le _ _ (scan_nat_digits_le _ _ _ En) Ed) ]
       | destruct (strip_prefix "Infinity" _); try discriminate;
         now intros [= <- _] ]).
  - intros s acc l r. cbn [scan_items].
    destruct (scan_once fuel s) as [v rest| | |] eqn:E; simpl; try discriminate.
    apply IHo in E.
    destruct (skip_ws rest) as [|c r0]; [discriminate|].
    destruct (N_of_ascii c =? 93)%N.
    { intros [= <- _] Hacc. now rewrite forallb_snoc, Hacc, E. }
    destruct (N_of_ascii c =? 44)%N; [|discriminate].
    intros H Hacc. apply IHi in H; [exact H|].
    now rewrite forallb_snoc, Hacc, E.
  - intros s acc ps r. cbn [scan_members].
    destruct (scanstring s) as [key rest| | |]; simpl; try discriminate.
    destruct (skip_ws rest) as [|c r0]; [discriminate|].
    destruct (N_of_ascii c =? 58)%N; [|discriminate].
    destruct (scan_once fuel (skip_ws r0)) as [v rest1| | |] eqn:E;
      simpl; try discriminate.
    apply IHo in E.
    destruct (skip_ws rest1) as [|c1 r1]; [discriminate|].
    destruct (N_of_ascii c1 =? 125)%N.
    { intros [= <- _] Hacc. unfold values_ok in *.
      now rewrite forallb_snoc, Hacc. }
    destruct (N_of_ascii c1 =? 44)%N; [|discriminate].
    destruct (skip_ws r1) as [|c2 r2]; [discriminate|].
    destruct (N_of_ascii c2 =? 34)%N; [|discriminate].
    intros H Hacc. apply IHm in H; [exact H|].
    unfold values_ok in *. now rewrite forallb_snoc, Hacc.
Qed.

Theorem loads_well_formed s v : loads s = Ok v -> well_formed v = true.
Proof.
  unfold loads.
  destruct (scan_once _ _) as [v' rest| | |] eqn:E; try discriminate.
  destruct (skip_ws rest); [|discriminate].
  intros [= <-]. eapply scan_well_formed; eassumption.
Qed.


(** *** More fuel changes nothing once there is enough *)

Lemma le_scan_refl {A} (a : scan A) : le_scan a a.
Proof. now right. Qed.

Lemma le_scan_andthen {A B} (a b : scan A) (k1 k2 : A -> string -> scan B) :
  le_scan a b -> (forall x r, le_scan (k1 x r) (k2 x r)) ->
  le_scan (andthen a k1) (andthen b k2).
Proof.
  intros [->| ->] Hk; [now left|].
  destruct b; simpl; auto using le_scan_refl.
Qed.

Lemma scan_more_fuel fuel :
  (forall s, le_scan (scan_once fuel s) (scan_once (S fuel) s)) /\
  (forall s acc, le_scan (scan_items fuel s acc) (scan_items (S fuel) s acc)) /\
  (forall s acc,
     le_scan (scan_members fuel s acc) (scan_members (S fuel) s acc)).
Proof.
  induction fuel as [|fuel (IHo & IHi & IHm)];
    [repeat split; intros; now left|].
  repeat split.
  - intros s. cbn [scan_once]. destruct s as [|c s]; [apply le_scan_refl|].
    cbv zeta.
    destruct (N_of_ascii c =? 34)%N; [apply le_scan_refl|].
    destruct (N_of_ascii c =? 123)%N.
    { destruct (skip_ws s) as [|c1 r1]; [apply le_scan_refl|].
      destruct (N_of_ascii c1 =? 125)%N; [apply le_scan_refl|].
      destruct (N_of_ascii c1 =? 34)%N; [|apply le_scan_refl].
      apply le_scan_andthen; [apply IHm | intros; apply le_scan_refl]. }
    destruct (N_of_ascii c =? 91)%N; [|apply le_scan_refl].
    destruct (skip_ws s) as [|c1 r1]; [apply le_scan_refl|].
    destruct (N_of_ascii c1 =? 93)%N; [apply le_scan_refl|].
    apply le_scan_andthen; [apply IHi | intros; apply le_scan_refl].
  - intros s acc. cbn [scan_items].
    apply le_scan_andthen; [apply IHo|]. intros v rest.
    destruct (skip_ws rest) as [|c r]; [apply le_scan_refl|].
    destruct (N_of_ascii c =? 93)%N; [apply le_scan_refl|].
    destruct (N_of_ascii c =? 44)%N; [apply IHi | apply le_scan_refl].
  - intros s acc. cbn [scan_members].
    apply le_scan_andthen; [apply le_scan_refl|]. intros key rest.
    destruct (skip_ws rest) as [|c r]; [apply le_scan_refl|].
    destruct (N_of_ascii c =? 58)%N; [|apply le_scan_refl].
    apply le_scan_andthen; [apply IHo|]. intros v rest1.
    destruct (skip_ws rest1) as [|c1 r1]; [apply le_scan_refl|].
    destruct (N_of_ascii c1 =? 125)%N; [apply le_scan_refl|].
    destruct (N_of_ascii c1 =? 44)%N; [|apply le_scan_refl].
    destruct (skip_ws r1) as [|c2 r2]; [apply le_scan_refl|].
    destruct (N_of_ascii c2 =? 34)%N; [apply IHm | apply le_scan_refl].
Qed.

Lemma scan_once_more_fuel fuel fuel' s :
  fuel <= fuel' -> le_scan (scan_once fuel s) (scan_once fuel' s).
Proof.
  induction 1 as [|m _ IH]; [apply le_scan_refl|].
  destruct IH as [->|E]; [now left|]. rewrite E. apply scan_more_fuel.
Qed.

(** *** Scanning uses up text, and the fuel [loads] gives is enough *)

Lemma skip_ws_length s : String.length (skip_ws s) <= String.length s.
Proof.
  induction s as [|c s IH]; simpl; [lia|]. destruct (is_ws c); simpl; lia.
Qed.

Lemma strip_prefix_length p : forall s r,
  strip_prefix p s = Some r ->
  String.length s = String.length p + String.length r.
Proof.
  induction p as [|a p IH]; intros [|b s] r; simpl; try discriminate.
  - now intros [= <-].
  - now intros [= <-].
  - destruct (Ascii.eqb a b); [|discriminate]. intros H.
    now rewrite (IH _ _ H).
Qed.

Lemma cons_char_got c r s rest :
  cons_char c r = Got s rest -> exists s', r = Got s' rest.
Proof. destruct r; simpl; try discriminate. intros [= _ <-]. eauto. Qed.

Lemma string_length_ind (P : string -> Prop) :
  (forall s, (forall r, String.length r < String.length s -> P r) -> P s) ->
  forall s, P s.
Proof.
  intros H s. remember (String.length s) as n eqn:E. revert s E.
  induction n as [n IH] using lt_wf_ind. intros s ->.
  apply H. intros r Hr. now apply (IH _ Hr).
Qed.

Lemma scanstring_length s : forall k r,
  scanstring s = Got k r -> String.length r < String.length s.
Proof.
  induction s as [s IH] using string_length_ind.
  destruct s as [|c s]; intros k r; cbn [scanstring]; [discriminate|].
  cbv zeta. destruct (N_of_ascii c =? 34)%N.
  { intros [= _ <-]. simpl. lia. }
  destruct (N_of_ascii c =? 92)%N.
  - destruct s as [|e r1]; [discriminate|].
    destruct (N_of_ascii e =? 117)%N.
    + destruct r1 as [|h1 [|h2 [|h3 [|h4 r2]]]]; try discriminate.
      destruct (hex_value h1), (hex_value h2), (hex_value h3), (hex_value h4);
        try discriminate.
      destruct (_ <? 256)%N; [|discriminate].
      intros H. apply cons_char_got in H as [s' H].
      apply IH in H; simpl in *; lia.
    + destruct (unescape e); [|discriminate].
      intros H. apply cons_char_got in H as [s' H].
      apply IH in H; simpl in *; lia.
  - destruct (N_of_ascii c <? 32)%N; [discriminate|].
    intros H. apply cons_char_got in H as [s' H].
    apply IH in H; simpl in *; lia.
Qed.

Lemma scanstring_not_starved s : scanstring s <> Starved.
Proof.
  induction s as [s IH] using string_length_ind.
  assert (Hc : forall c r, String.length r < String.length s ->
                           cons_char c (scanstring r) <> Starved).
  { intros c r Hr. specialize (IH r Hr).
    destruct (scanstring r); simpl; congruence. }
  destruct s as [|c s]; cbn [scanstring]; [discriminate|].
  cbv zeta. destruct (N_of_ascii c =? 34)%N; [discriminate|].
  destruct (N_of_ascii c =? 92)%N.
  - destruct s as [|e r1]; [discriminate|].
    destruct (N_of_ascii e =? 117)%N.
    + destruct r1 as [|h1 [|h2 [|h3 [|h4 r2]]]]; try discriminate.
      destruct (hex_value h1), (hex_value h2), (hex_value h3), (hex_value h4);
        try discriminate.
      destruct (_ <? 256)%N; [|discriminate]. apply Hc. simpl. lia.
    + destruct (unescape e); [|discriminate]. apply Hc. simpl. lia.
  - destruct (N_of_ascii c <? 32)%N; [discriminate|]. apply Hc. simpl. lia.
Qed.

Lemma scan_digits_length s :
  String.length (snd (scan_digits s)) <= String.length s.
Proof.
  induction s as [|c s IH]; simpl; [lia|].
  destruct (digit_of c); [|simpl; lia].
  destruct (scan_digits s); simpl in *; lia.
Qed.

Lemma scan_nat_length s n r :
  scan_nat s = Some (n, r) -> String.length r < String.length s.
Proof.
  destruct s as [|c s]; [discriminate|]. unfold scan_nat.
  destruct (N_of_ascii c =? 48)%N; [intros [= _ <-]; simpl; lia|].
  unfold is_digit. cbn [scan_digits].
  destruct (digit_of c) as [dg|]; [|discriminate].
  pose proof (scan_digits_length s). destruct (scan_digits s) as [u rest].
  intros [= _ <-]. simpl in *. lia.
Qed.

Lemma scan_frac_length s :
  String.length (snd (scan_frac s)) <= String.length s.
Proof.
  unfold scan_frac. destruct s as [|c [|d r]]; try (cbn; lia).
  destruct (_ && _); [|cbn; lia].
  pose proof (scan_digits_length (String d r)). cbn in *. lia.
Qed.

Lemma scan_exp_length s :
  String.length (snd (scan_exp s)) <= String.length s.
Proof.
  unfold scan_exp. destruct s as [|c r]; [cbn; lia|].
  destruct (_ || _)%bool; [|cbn; lia].
  assert (G : forall neg body,
            String.length body <= String.length r ->
            String.length
              (snd (match body with
                    | String d _ =>
                        if is_digit d then
                          let (u, rest) := scan_digits body in
                          let e := Z.of_N (N.of_uint u) in
                          (if neg : bool then Z.opp e else e, rest)
                        else (0%Z, String c r)
                    | EmptyString => (0%Z, String c r)
                    end)) <= String.length (String c r)).
  { intros neg body Hb. destruct body as [|d b]; [cbn; lia|].
    destruct (is_digit d); [|cbn; lia].
    pose proof (scan_digits_length (String d b)).
    destruct (scan_digits (String d b)). cbn in *. lia. }
  destruct r as [|sg r']; [cbn; lia|].
  destruct (N_of_ascii sg =? 45)%N; [apply (G true r'); cbn; lia|].
  destruct (N_of_ascii sg =? 43)%N;
    [apply (G false r') | apply (G false (String sg r'))]; cbn; lia.
Qed.

Lemma scan_number_length s v r :
  scan_number s = Got v r -> String.length r < String.length s.
Proof.
  assert (G : forall neg body n rest,
            scan_nat body = Some (n, rest) ->
            (if float_tail rest then
               let (frac, r1) := scan_frac rest in
               let (e, r2) := scan_exp r1 in
               match float_of_decimal neg n frac e with
               | Some f => Got (VFloat f) r2
               | None => Beyond
               end
             else if digits_ok (String.length body - String.length rest)
             then Got (VInt (if neg then Z.opp (Z.of_N n) else Z.of_N n)) rest
             else Beyond) = Got v r ->
            String.length r < String.length body).
  { intros neg body n rest En. apply scan_nat_length in En.
    destruct (float_tail rest).
    - pose proof (scan_frac_length rest) as H1.
      destruct (scan_frac rest) as [frac r1].
      pose proof (scan_exp_length r1) as H2.
      destruct (scan_exp r1) as [e r2].
      destruct (float_of_decimal neg n frac e); [|discriminate].
      intros [= _ <-]. cbn in *. lia.
    - destruct (digits_ok _); [|discriminate]. now intros [= _ <-]. }
  unfold scan_number.
  destruct (strip_prefix "-" s) as [body|] eqn:E.
  - apply strip_prefix_length in E. simpl in E.
    destruct (scan_nat body) as [[n rest]|] eqn:En.
    + intros H. apply (G true _ _ _ En) in H. lia.
    + destruct (strip_prefix "Infinity" body) eqn:Ei; [|discriminate].
      intros [= _ <-]. apply strip_prefix_length in Ei. lia.
  - destruct (scan_nat s) as [[n rest]|] eqn:En.
    + apply (G false _ _ _ En).
    + destruct (strip_prefix "Infinity" s); discriminate.
Qed.

Lemma scan_number_not_starved s : scan_number s <> Starved.
Proof.
  unfold scan_number.
  destruct (strip_prefix "-" s) as [body|];
    (destruct (scan_nat _) as [[n rest]|];
     [ destruct (float_tail rest);
       [ destruct (scan_frac rest) as [frac r1];
         destruct (scan_exp r1) as [e r2];
         destruct (float_of_decimal _ n frac e); discriminate
       | destruct (digits_ok _); discriminate ]
     | destruct (strip_prefix "Infinity" _); discriminate]).
Qed.

Lemma andthen_got {A B} (a : scan A) (k : A -> string -> scan B) b r :
  andthen a k = Got b r -> exists x r0, a = Got x r0 /\ k x r0 = Got b r.
Proof. destruct a; simpl; try discriminate. eauto. Qed.

Lemma scan_consumes fuel :
  (forall s v r, scan_once fuel s = Got v r ->
                 String.length r < String.length s) /\
  (forall s acc l r, scan_items fuel s acc = Got l r ->
                     String.length r < String.length s) /\
  (forall s acc ps r, scan_members fuel s acc = Got ps r ->
                      String.length r < String.length s).
Proof.
  induction fuel as [|fuel (IHo & IHi & IHm)];
    [repeat split; intros; discriminate|].
  repeat split.
  - intros s v r. cbn [scan_once]. destruct s as [|c s]; [discriminate|].
    cbv zeta.
    destruct (N_of_ascii c =? 34)%N.
    { intros H. apply andthen_got in H as (k & r0 & H & [= _ <-]).
      apply scanstring_length in H. simpl. lia. }
    destruct (N_of_ascii c =? 123)%N.
    { pose proof (skip_ws_length s).
      destruct (skip_ws s) as [|c1 r1]; [discriminate|].
      destruct (N_of_ascii c1 =? 125)%N; [intros [= _ <-]; simpl in *; lia|].
      destruct (N_of_ascii c1 =? 34)%N; [|discriminate].
      intros H1. apply andthen_got in H1 as (ps & r0 & H1 & [= _ <-]).
      apply IHm in H1. simpl in *. lia. }
    destruct (N_of_ascii c =? 91)%N.
    { pose proof (skip_ws_length s).
      destruct (skip_ws s) as [|c1 r1]; [discriminate|].
      destruct (N_of_ascii c1 =? 93)%N; [intros [= _ <-]; simpl in *; lia|].
      intros H1. apply andthen_got in H1 as (l & r0 & H1 & [= _ <-]).
      apply IHi in H1. simpl in *. lia. }
    destruct (strip_prefix "null" (String c s)) eqn:E1.
    { intros [= _ <-]. apply strip_prefix_length in E1. simpl in *. lia. }
    destruct (strip_prefix "true" (String c s)) eqn:E2.
    { intros [= _ <-]. apply strip_prefix_length in E2. simpl in *. lia. }
    destruct (strip_prefix "false" (String c s)) eqn:E3.
    { intros [= _ <-]. apply strip_prefix_length in E3. simpl in *. lia. }
    destruct (strip_prefix "NaN" (String c s)) eqn:E4.
    { intros [= _ <-]. apply strip_prefix_length in E4. simpl in *. lia. }
    destruct (strip_prefix "Infinity" (String c s)) eqn:E5.
    { intros [= _ <-]. apply strip_prefix_length in E5. simpl in *. lia. }
    apply scan_number_length.
  - intros s acc l r. cbn [scan_items]. intros H.
    apply andthen_got in H as (v & rest & H & Hk). apply IHo in H.
    pose proof (skip_ws_length rest).
    destruct (skip_ws rest) as [|c r0]; [discriminate|].
    destruct (N_of_ascii c =? 93)%N; [injection Hk as _ <-; simpl in *; lia|].
    destruct (N_of_ascii c =? 44)%N; [|discriminate].
    apply IHi in Hk. pose proof (skip_ws_length r0). simpl in *. lia.
  - intros s acc ps r. cbn [scan_members]. intros H.
    apply andthen_got in H as (key & rest & H & Hk).
    apply scanstring_length in H.
    pose proof (skip_ws_length rest).
    destruct (skip_ws rest) as [|c r0]; [discriminate|].
    destruct (N_of_ascii c =? 58)%N; [|discriminate].
    apply andthen_got in Hk as (v & rest1 & Hv & Hk). apply IHo in Hv.
    pose proof (skip_ws_length r0). pose proof (skip_ws_length rest1).
    destruct (skip_ws rest1) as [|c1 r1]; [discriminate|].
    destruct (N_of_ascii c1 =? 125)%N; [injection Hk as _ <-; simpl in *; lia|].
    destruct (N_of_ascii c1 =? 44)%N; [|discriminate].
    pose proof (skip_ws_length r1).
    destruct (skip_ws r1) as [|c2 r2]; [discriminate|].
    destruct (N_of_ascii c2 =? 34)%N; [|discriminate].
    apply IHm in Hk. simpl in *. lia.
Qed.

Lemma andthen_not_starved {A B} (a : scan A) (k : A -> string -> scan B) :
  a <> Starved -> (forall x r, a = Got x r -> k x r <> Starved) ->
  andthen a k <> Starved.
Proof. destruct a; simpl; auto; discriminate. Qed.

Lemma scan_never_starved fuel :
  (forall s, 2 * String.length s < fuel -> scan_once fuel s <> Starved) /\
  (forall s acc, 2 * String.length s + 1 < fuel ->
                 scan_items fuel s acc <> Starved) /\
  (forall s acc, 2 * String.length s + 1 < fuel ->
                 scan_members fuel s acc <> Starved).
Proof.
  induction fuel as [|fuel (IHo & IHi & IHm)];
    [repeat split; intros; lia|].
  repeat split.
  - intros s Hf. cbn [scan_once]. destruct s as [|c s]; [discriminate|].
    cbv zeta.
    destruct (N_of_ascii c =? 34)%N.
    { apply andthen_not_starved; [apply scanstring_not_starved|discriminate]. }
    destruct (N_of_ascii c =? 123)%N.
    { pose proof (skip_ws_length s).
      destruct (skip_ws s) as [|c1 r1]; [discriminate|].
      destruct (N_of_ascii c1 =? 125)%N; [discriminate|].
      destruct (N_of_ascii c1 =? 34)%N; [|discriminate].
      apply andthen_not_starved; [|discriminate].
      apply IHm. simpl in *. lia. }
    destruct (N_of_ascii c =? 91)%N.
    { pose proof (skip_ws_length s).
      destruct (skip_ws s) as [|c1 r1]; [discriminate|].
      destruct (N_of_ascii c1 =? 93)%N; [discriminate|].
      apply andthen_not_starved; [|discriminate].
      apply IHi. simpl in *. lia. }
    destruct (strip_prefix "null" (String c s)); [discriminate|].
    destruct (strip_prefix "true" (String c s)); [discriminate|].
    destruct (strip_prefix "false" (String c s)); [discriminate|].
    destruct (strip_prefix "NaN" (String c s)); [discriminate|].
    destruct (strip_prefix "Infinity" (String c s)); [discriminate|].
    apply scan_number_not_starved.
  - intros s acc Hf. cbn [scan_items].
    apply andthen_not_starved; [apply IHo; lia|].
    intros v rest Hv. apply (proj1 (scan_consumes fuel)) in Hv.
    pose proof (skip_ws_length rest).
    destruct (skip_ws rest) as [|c r0]; [discriminate|].
    destruct (N_of_ascii c =? 93)%N; [discriminate|].
    destruct (N_of_ascii c =? 44)%N; [|discriminate].
    apply IHi. pose proof (skip_ws_length r0). simpl in *. lia.
  - intros s acc Hf. cbn [scan_members].
    apply andthen_not_starved; [apply scanstring_not_starved|].
    intros key rest Hk. apply scanstring_length in Hk.
    pose proof (skip_ws_length rest).
    destruct (skip_ws rest) as [|c r0]; [discriminate|].
    destruct (N_of_ascii c =? 58)%N; [|discriminate].
    pose proof (skip_ws_length r0).
    apply andthen_not_starved; [apply IHo; simpl in *; lia|].
    intros v rest1 Hv. apply (proj1 (scan_consumes fuel)) in Hv.
    pose proof (skip_ws_length rest1).
    destruct (skip_ws rest1) as [|c1 r1]; [discriminate|].
    destruct (N_of_ascii c1 =? 125)%N; [discriminate|].
    destruct (N_of_ascii c1 =? 44)%N; [|discriminate].
    pose proof (skip_ws_length r1).
    destruct (skip_ws r1) as [|c2 r2]; [discriminate|].
    destruct (N_of_ascii c2 =? 34)%N; [|discriminate].
    apply IHm. simpl in *. lia.
Qed.

(** [loads] never runs out of fuel: it returns a value or raises a decode
    error, unless the text holds a finite float, an integer of more than
    4300 digits or a character above 255. *)
Theorem loads_total s :
  scan_once (S (2 * String.length s)) (skip_ws s) <> Starved.
Proof.
  apply scan_never_starved. pose proof (skip_ws_length s). lia.
Qed.


(** *** Scanning a text that was cut short *)

Lemma take_append_le n : forall a b,
  n <= String.length a -> take n (a +++ b) = take n a.
Proof.
  induction n as [|n IH]; intros [|c a] b H; simpl in *; try reflexivity.
  - lia.
  - now rewrite IH by lia.
Qed.

Lemma take_append_ge n : forall a b,
  String.length a <= n ->
  take n (a +++ b) = a +++ take (n - String.length a) b.
Proof.
  induction n as [|n IH]; intros [|c a] b H; simpl in *; try reflexivity.
  - lia.
  - now rewrite IH by lia.
Qed.

Lemma repeat_sp_length k : String.length (repeat_sp k) = k.
Proof. induction k; simpl; auto. Qed.

Lemma nl_length lvl : String.length (nl lvl) = S (2 * lvl).
Proof. unfold nl. cbn [String.length]. now rewrite repeat_sp_length. Qed.

Lemma skip_ws_take_sp k : forall n s,
  skip_ws (take n (repeat_sp k +++ s)) = skip_ws (take (n - k) s).
Proof.
  induction k as [|k IH]; intros n s.
  - now rewrite Nat.sub_0_r.
  - destruct n as [|n]; [reflexivity|]. cbn. apply IH.
Qed.

Lemma skip_ws_take_nl lvl n s :
  skip_ws (take n (nl lvl +++ s)) = skip_ws (take (n - S (2 * lvl)) s).
Proof.
  destruct n as [|n]; [reflexivity|]. unfold nl.
  cbn [String.append take skip_ws]. change (is_ws newline) with true.
  cbv iota. rewrite skip_ws_take_sp. reflexivity.
Qed.

Lemma take_head n a b :
  head_opens a = true -> head_opens (take (S n) (a +++ b)) = true.
Proof. destruct a as [|c a]; [discriminate|]. auto. Qed.

Lemma delimited_take n s : delimited s = true -> delimited (take n s) = true.
Proof. destruct n, s; auto. Qed.

Lemma halted_andthen {A B} (a : scan A) (k : A -> string -> scan B) :
  halted a -> halted (andthen a k).
Proof. intros [->| ->]; [now left | now right]. Qed.

Lemma scan_once_empty fuel : halted (scan_once fuel EmptyString).
Proof. destruct fuel; [now right | now left]. Qed.

Lemma scan_items_empty fuel acc : halted (scan_items fuel EmptyString acc).
Proof.
  destruct fuel as [|fuel]; [now right|]. cbn [scan_items].
  apply halted_andthen, scan_once_empty.
Qed.

Lemma scanstring_cut_escape_char c n R :
  n < String.length (escape_char c) ->
  scanstring (take n (escape_char c +++ R)) = Bad.
Proof.
  destruct c as [[] [] [] [] [] [] [] []];
    destruct n as [|[|[|[|[|[|n]]]]]]; intros H; try reflexivity;
    exfalso; cbn in H; lia.
Qed.

Lemma scanstring_past_escape_char c m R :
  scanstring (take (String.length (escape_char c) + m) (escape_char c +++ R))
  = cons_char c (scanstring (take m R)).
Proof. destruct c as [[] [] [] [] [] [] [] []]; reflexivity. Qed.

Lemma scanstring_take_escape s : forall n R,
  (n <= String.length (escape s) ->
   scanstring (take n (escape s +++ String dquote R)) = Bad) /\
  (String.length (escape s) < n ->
   scanstring (take n (escape s +++ String dquote R))
   = Got s (take (n - String.length (escape s) - 1) R)).
Proof.
  induction s as [|c s IH]; intros n R.
  - cbn [escape String.append String.length]. split.
    + intros H. assert (n = 0) as -> by lia. reflexivity.
    + intros H. destruct n as [|n]; [lia|]. cbn.
      now rewrite Nat.sub_0_r.
  - cbn [escape]. rewrite append_assoc, length_append.
    destruct (Nat.lt_ge_cases n (String.length (escape_char c))) as [Hlt|Hge].
    + split; [|lia]. intros _. now apply scanstring_cut_escape_char.
    + set (X := escape s +++ String dquote R).
      assert (E : take n (escape_char c +++ X)
                  = take (String.length (escape_char c)
                          + (n - String.length (escape_char c)))
                      (escape_char c +++ X)) by (f_equal; lia).
      rewrite E, scanstring_past_escape_char. subst X.
      destruct (IH (n - String.length (escape_char c)) R) as [H1 H2]. split.
      * intros H. rewrite H1 by lia. reflexivity.
      * intros H. rewrite H2 by lia. unfold cons_char. cbn [andthen].
        f_equal. f_equal. lia.
Qed.

Lemma all_digits_uint u : all_digits (NilEmpty.string_of_uint u) = true.
Proof. induction u; simpl; auto. Qed.

Lemma all_digits_take n : forall s,
  all_digits s = true -> all_digits (take n s) = true.
Proof.
  induction n as [|n IH]; intros [|c s]; simpl; auto.
  intros H. apply andb_prop in H as [H1 H2]. now rewrite H1, IH.
Qed.

Lemma scan_digits_all s :
  all_digits s = true -> snd (scan_digits s) = EmptyString.
Proof.
  induction s as [|c s IH]; simpl; [reflexivity|].
  unfold is_digit. destruct (digit_of c); [|discriminate].
  intros H. specialize (IH H). destruct (scan_digits s). exact IH.
Qed.

Lemma scan_once_number c r fuel :
  is_digit c = true \/ c = "-"%char ->
  scan_once (S fuel) (String c r) = scan_number (String c r).
Proof.
  intros [H| ->]; [|reflexivity]. revert H.
  destruct c as [[] [] [] [] [] [] [] []]; try discriminate; reflexivity.
Qed.

Lemma scan_nat_digits c r :
  is_digit c = true -> (N_of_ascii c =? 48)%N = false ->
  all_digits r = true ->
  exists n, scan_nat (String c r) = Some (n, EmptyString).
Proof.
  intros Hd H0 Hr. unfold scan_nat. rewrite H0, Hd.
  assert (Ha : all_digits (String c r) = true) by (simpl; now rewrite Hd, Hr).
  apply scan_digits_all in Ha.
  destruct (scan_digits (String c r)) as [u rest]. simpl in Ha. subst rest.
  eauto.
Qed.

Lemma scan_number_digits c r :
  is_digit c = true -> (N_of_ascii c =? 48)%N = false ->
  all_digits r = true ->
  digits_ok (String.length (String c r)) = true ->
  (exists v, scan_number (String c r) = Got v EmptyString) /\
  (exists v, scan_number (String "-" (String c r)) = Got v EmptyString).
Proof.
  intros Hd H0 Hr Hok. destruct (scan_nat_digits c r Hd H0 Hr) as [n Hn].
  assert (El : String.length (String c r) - String.length EmptyString
               = String.length (String c r))
    by (cbn [String.length]; lia).
  split.
  - unfold scan_number.
    assert (E : strip_prefix "-" (String c r) = None).
    { revert Hd. clear. destruct c as [[] [] [] [] [] [] [] []];
        try discriminate; reflexivity. }
    rewrite E, Hn. cbn [float_tail]. rewrite El, Hok. eauto.
  - unfold scan_number. cbn [strip_prefix]. change (Ascii.eqb "-" "-") with true.
    cbv iota. rewrite Hn. cbn [float_tail]. rewrite El, Hok. eauto.
Qed.

Lemma take_length n : forall s, String.length (take n s) <= String.length s.
Proof.
  induction n as [|n IH]; intros [|c s]; cbn [take String.length]; try lia.
  specialize (IH s). lia.
Qed.

Lemma scan_once_take_int z fuel n :
  well_formed (VInt z) = true ->
  n < String.length (encode_int z) ->
  stuck (VInt z) (scan_once fuel (take n (encode_int z))).
Proof.
  intros Hwf Hn. destruct fuel as [|fuel]; [left; now right|].
  cbn [well_formed] in Hwf. unfold int_digits in Hwf.
  assert (Hpos : forall p m,
            digits_ok (String.length
                         (NilEmpty.string_of_uint (Pos.to_uint p))) = true ->
            exists c r, take (S m) (NilEmpty.string_of_uint (Pos.to_uint p))
                        = String c r /\ is_digit c = true /\
                        (N_of_ascii c =? 48)%N = false /\
                        all_digits r = true /\
                        digits_ok (String.length (String c r)) = true).
  { intros p m Hok. destruct (to_uint_head p) as (c & r & E & Hd & H0).
    pose proof (all_digits_uint (Pos.to_uint p)) as Ha.
    pose proof (take_length (S m)
                  (NilEmpty.string_of_uint (Pos.to_uint p))) as Hl.
    rewrite E in *.
    simpl in Ha. apply andb_prop in Ha as [_ Ha].
    exists c, (take m r). repeat split; auto using all_digits_take.
    eapply digits_ok_le; [exact Hl | exact Hok]. }
  destruct n as [|n]; [left; now left|].
  destruct z as [|p|p]; cbn [Z.abs encode_int] in Hwf.
  - simpl in Hn. lia.
  - cbn [encode_int].
    destruct (Hpos p n Hwf) as (c & r & -> & Hd & H0 & Hr & Hok).
    rewrite scan_once_number by auto. right. split; [eauto|].
    apply scan_number_digits; assumption.
  - cbn [encode_int take]. destruct n as [|n]; [left; now left|].
    destruct (Hpos p n Hwf) as (c & r & -> & Hd & H0 & Hr & Hok).
    rewrite scan_once_number by auto. right. split; [eauto|].
    apply scan_number_digits; assumption.
Qed.

(** A whole value followed by a cut rest: read back, if the fuel lasts. *)
Lemma scan_once_then_cut x lvl fuel rest :
  well_formed x = true -> delimited rest = true ->
  le_scan (scan_once fuel (encode lvl x +++ rest)) (Got x rest).
Proof.
  intros Hwf Hrest.
  rewrite <- (scan_once_encode x Hwf lvl (fuel + cost x) rest)
    by (assumption || lia).
  apply scan_once_more_fuel. lia.
Qed.

Lemma stuck_then_bad {B} v r (k : value -> string -> scan B) :
  stuck v r -> (forall v', k v' EmptyString = Bad) -> halted (andthen r k).
Proof.
  intros [H|(_ & v' & ->)] Hk; [now apply halted_andthen|].
  left. apply Hk.
Qed.

Lemma le_scan_halted {A B} (a : scan A) x rest (k : A -> string -> scan B) :
  le_scan a (Got x rest) -> halted (k x rest) -> halted (andthen a k).
Proof. intros [->| ->] H; [now right | exact H]. Qed.

Lemma skip_ws_opens s : head_opens s = true -> skip_ws s = s.
Proof.
  destruct s as [|c s]; [discriminate|]. simpl. unfold opens.
  destruct (is_ws c); [discriminate | reflexivity].
Qed.

Lemma scan_items_cut lvl l :
  Forall cut_short l -> forallb well_formed l = true ->
  forall x, cut_short x -> well_formed x = true ->
  forall fuel acc n,
    n < String.length (encode (S lvl) x +++ encode_items (encode (S lvl)) lvl l) ->
    halted (scan_items fuel
              (take n (encode (S lvl) x
                       +++ encode_items (encode (S lvl)) lvl l)) acc).
Proof.
  induction 1 as [|y l Hy Hl IH]; intros Hwf x Hx Hwx fuel acc n Hn;
    (destruct fuel as [|fuel]; [now right|]); cbn [scan_items];
    rewrite length_append in Hn;
    (destruct (Nat.lt_ge_cases n (String.length (encode (S lvl) x)))
      as [Hlt|Hge];
     [ rewrite take_append_le by lia;
       apply (stuck_then_bad x); [now apply Hx | reflexivity]
     | rewrite take_append_ge by lia ]).
  - eapply le_scan_halted.
    + apply scan_once_then_cut; [assumption|]. apply delimited_take. reflexivity.
    + cbn [encode_items]. rewrite skip_ws_take_nl.
      cbn [encode_items] in Hn. rewrite length_append, nl_length in Hn.
      simpl String.length in Hn.
      replace (n - String.length (encode (S lvl) x) - S (2 * lvl)) with 0 by lia.
      now left.
  - simpl in Hwf. apply andb_prop in Hwf as [Hwy Hwl].
    eapply le_scan_halted.
    + apply scan_once_then_cut; [assumption|]. apply delimited_take. reflexivity.
    + cbn [encode_items] in Hn |- *.
      rewrite !length_append, nl_length in Hn. simpl String.length in Hn.
      destruct (n - String.length (encode (S lvl) x)) as [|m] eqn:Em;
        [now left|].
      cbn [String.append take skip_ws]. change (is_ws ",") with false.
      cbv iota. change (N_of_ascii "," =? 93)%N with false.
      change (N_of_ascii "," =? 44)%N with true. cbv iota.
      rewrite skip_ws_take_nl.
      destruct (m - S (2 * S lvl)) as [|m'] eqn:Em'; [apply scan_items_empty|].
      rewrite skip_ws_opens by (apply take_head, encode_head).
      apply IH; try assumption. rewrite length_append. lia.
Qed.

Lemma encode_members_cons enc lvl k y d :
  encode_members enc lvl ((k, y) :: d)
  = String "," (nl (S lvl) +++
      String dquote (escape k +++
        String dquote (String ":" (String " "
          (enc y +++ encode_members enc lvl d))))).
Proof.
  cbn [encode_members]. unfold encode_string. cbn [String.append].
  rewrite !append_assoc. reflexivity.
Qed.

Lemma scan_members_cut lvl d :
  Forall (fun kv => cut_short (snd kv)) d ->
  forallb (fun kv => well_formed (snd kv)) d = true ->
  forall k x, cut_short x -> well_formed x = true ->
  forall fuel acc n,
    n < String.length
          (escape k +++
           String dquote (String ":" (String " " (encode (S lvl) x +++
           encode_members (encode (S lvl)) lvl d)))) ->
    halted (scan_members fuel
              (take n (escape k +++
                       String dquote (String ":" (String " "
                         (encode (S lvl) x +++
                          encode_members (encode (S lvl)) lvl d))))) acc).
Proof.
  induction 1 as [|[k' y] d Hy Hd IH]; intros Hwf k x Hx Hwx fuel acc n Hn;
    (destruct fuel as [|fuel]; [now right|]); cbn [scan_members];
    rewrite length_append in Hn; cbn [String.length] in Hn;
    rewrite length_append in Hn;
    (destruct (Nat.le_gt_cases n (String.length (escape k))) as [Hle|Hgt];
     [ rewrite (proj1 (scanstring_take_escape k n _) Hle); now left
     | rewrite (proj2 (scanstring_take_escape k n _) Hgt) ]);
    cbn [andthen];
    (destruct (n - String.length (escape k) - 1) as [|[|[|m]]] eqn:Em;
     [ now left
     | cbn; apply halted_andthen, scan_once_empty
     | cbn; apply halted_andthen, scan_once_empty
     | ]);
    change (take (S (S (S m))) (String ":" (String " " ?s)))
      with (String ":" (String " " (take (S m) s)));
    cbn [skip_ws]; change (is_ws ":") with false; cbv iota;
    change (N_of_ascii ":" =? 58)%N with true; cbv iota;
    cbn [skip_ws]; change (is_ws " ") with true; cbv iota;
    rewrite skip_ws_opens by (apply take_head, encode_head);
    (destruct (Nat.lt_ge_cases (S m) (String.length (encode (S lvl) x)))
      as [Hlt|Hge];
     [ rewrite take_append_le by lia;
       apply (stuck_then_bad x); [now apply Hx | reflexivity]
     | rewrite take_append_ge by lia ]).
  - eapply le_scan_halted.
    + apply scan_once_then_cut; [assumption|]. apply delimited_take. reflexivity.
    + cbn [encode_members] in Hn |- *. rewrite skip_ws_take_nl.
      rewrite length_append, nl_length in Hn. simpl String.length in Hn.
      replace (S m - String.length (encode (S lvl) x) - S (2 * lvl))
        with 0 by lia.
      now left.
  - simpl in Hwf. apply andb_prop in Hwf as [Hwy Hwl]. simpl in Hy.
    eapply le_scan_halted.
    + apply scan_once_then_cut; [assumption|]. apply delimited_take. reflexivity.
    + rewrite encode_members_cons in Hn |- *.
      cbn [String.length] in Hn. rewrite length_append, nl_length in Hn.
      cbn [String.length] in Hn. rewrite length_append in Hn.
      cbn [String.length] in Hn. rewrite length_append in Hn.
      destruct (S m - String.length (encode (S lvl) x)) as [|m1] eqn:Em1;
        [now left|].
      change (take (S m1) (String "," ?s)) with (String "," (take m1 s)).
      cbn [skip_ws]. change (is_ws ",") with false.
      cbv iota. change (N_of_ascii "," =? 125)%N with false.
      change (N_of_ascii "," =? 44)%N with true. cbv iota.
      rewrite skip_ws_take_nl.
      destruct (m1 - S (2 * S lvl)) as [|m2] eqn:Em2; [now left|].
      change (take (S m2) (String dquote ?s)) with (String dquote (take m2 s)).
      cbn [skip_ws]. change (is_ws dquote) with false.
      cbv iota. change (N_of_ascii dquote =? 34)%N with true. cbv iota.
      apply IH; try assumption.
      rewrite length_append. cbn [String.length]. rewrite length_append. lia.
Qed.

Theorem scan_once_cut v : cut_short v.
Proof.
  induction v as [| b | z | f | s | l IH | d IH] using value_ind';
    intros Hwf lvl fuel n Hn.
  - destruct fuel as [|fuel]; [left; now right|]. left. left.
    cbn in Hn. destruct n as [|[|[|[|n]]]]; try reflexivity. lia.
  - destruct fuel as [|fuel]; [left; now right|]. left. left.
    destruct b; cbn in Hn; destruct n as [|[|[|[|[|n]]]]]; try reflexivity; lia.
  - now apply scan_once_take_int.
  - destruct fuel as [|fuel]; [left; now right|]. left. left.
    destruct f; cbn in Hn;
      destruct n as [|[|[|[|[|[|[|[|[|n]]]]]]]]]; try reflexivity; lia.
  - destruct fuel as [|fuel]; [left; now right|]. left.
    cbn [encode] in Hn |- *. unfold encode_string in Hn |- *.
    cbn [String.length] in Hn. rewrite length_append in Hn.
    cbn [String.length] in Hn.
    destruct n as [|n]; [now left|].
    change (take (S n) (String dquote ?t)) with (String dquote (take n t)).
    cbn [scan_once]. cbv zeta. change (N_of_ascii dquote =? 34)%N with true.
    cbv iota.
    rewrite (proj1 (scanstring_take_escape s n EmptyString)) by lia.
    now left.
  - destruct fuel as [|fuel]; [left; now right|]. left.
    destruct l as [|x l].
    { cbn in Hn. destruct n as [|[|n]]; [now left | now left | lia]. }
    inversion IH as [|? ? Hx Hl]; subst.
    simpl in Hwf. apply andb_prop in Hwf as [Hwx Hwl].
    cbn [encode String.append] in Hn |- *. cbn [String.length] in Hn.
    rewrite length_append, nl_length in Hn.
    destruct n as [|n]; [now left|].
    change (take (S n) (String "[" ?t)) with (String "[" (take n t)).
    cbn [scan_once]. cbv zeta.
    change (N_of_ascii "[" =? 34)%N with false.
    change (N_of_ascii "[" =? 123)%N with false.
    change (N_of_ascii "[" =? 91)%N with true. cbv iota.
    rewrite skip_ws_take_nl.
    destruct (n - S (2 * S lvl)) as [|m] eqn:Em; [now left|].
    rewrite skip_ws_opens by (apply take_head, encode_head).
    pose proof (take_head m (encode (S lvl) x)
                  (encode_items (encode (S lvl)) lvl l) (encode_head _ _)) as Hh.
    destruct (take (S m) _) as [|c1 r1] eqn:Et; [discriminate|].
    simpl in Hh. unfold opens in Hh. apply andb_prop in Hh as [_ Hh].
    apply negb_true_iff in Hh. rewrite Hh. rewrite <- Et.
    apply halted_andthen, scan_items_cut; try assumption. lia.
  - destruct fuel as [|fuel]; [left; now right|]. left.
    destruct d as [|[k x] d].
    { cbn in Hn. destruct n as [|[|n]]; [now left | now left | lia]. }
    inversion IH as [|? ? Hx Hd]; subst. simpl in Hx.
    simpl in Hwf. apply andb_prop in Hwf as [_ Hwf].
    apply andb_prop in Hwf as [Hwx Hwd].
    cbn [encode String.append] in Hn |- *. unfold encode_string in Hn |- *.
    cbn [String.append] in Hn |- *.
    rewrite !append_assoc in Hn |- *. cbn [String.append] in Hn |- *.
    cbn [String.length] in Hn. rewrite length_append, nl_length in Hn.
    destruct n as [|n]; [now left|].
    change (take (S n) (String "{" ?t)) with (String "{" (take n t)).
    cbn [scan_once]. cbv zeta.
    change (N_of_ascii "{" =? 34)%N with false.
    change (N_of_ascii "{" =? 123)%N with true. cbv iota.
    rewrite skip_ws_take_nl.
    destruct (n - S (2 * S lvl)) as [|m] eqn:Em; [now left|].
    change (take (S m) (String dquote ?t)) with (String dquote (take m t)).
    cbn [skip_ws]. change (is_ws dquote) with false. cbv iota.
    change (N_of_ascii dquote =? 125)%N with false.
    change (N_of_ascii dquote =? 34)%N with true. cbv iota.
    apply halted_andthen, scan_members_cut; try assumption.
    cbn [String.length] in Hn. lia.
Qed.

(** A state file holding only the beginning of a dumped dict does not load:
    [json.loads] raises its decode error. *)
Theorem loads_cut_dict d n :
  well_formed (VDict d) = true ->
  n < String.length (dumps (VDict d)) ->
  loads (take n (dumps (VDict d))) = Raise JSONDecodeError.
Proof.
  intros Hwf Hn. unfold loads.
  pose proof (loads_total (take n (dumps (VDict d)))) as Htot.
  destruct n as [|n]; [reflexivity|].
  assert (Hh : head_opens (take (S n) (dumps (VDict d))) = true).
  { unfold dumps. destruct d as [|[k x] d]; reflexivity. }
  rewrite skip_ws_opens in Htot |- * by exact Hh.
  destruct (scan_once_cut (VDict d) Hwf 0
              (S (2 * String.length (take (S n) (dumps (VDict d)))))
              (S n) Hn)
    as [[E|E]|((z & Hz) & _)]; unfold dumps in *.
  - now rewrite E.
  - contradiction.
  - discriminate.
Qed.


(** *** The order on names and [sorted] *)

Lemma ascii_compare_refl c : Ascii.compare c c = Eq.
Proof. apply N.compare_refl. Qed.

Lemma compare_trans_lt a : forall b c,
  String.compare a b = Lt -> String.compare b c = Lt -> String.compare a c = Lt.
Proof.
  induction a as [|x a IH]; intros [|y b] [|z c]; simpl; try discriminate; auto.
  unfold Ascii.compare.
  destruct (N.compare_spec (N_of_ascii x) (N_of_ascii y)) as [E1|L1|G1];
    try discriminate;
    destruct (N.compare_spec (N_of_ascii y) (N_of_ascii z)) as [E2|L2|G2];
    try discriminate; intros H1 H2.
  - rewrite E1, E2, N.compare_refl. eauto.
  - rewrite E1. now apply N.compare_lt_iff in L2 as ->.
  - rewrite <- E2. now apply N.compare_lt_iff in L1 as ->.
  - assert (L : (N_of_ascii x < N_of_ascii z)%N) by lia.
    now apply N.compare_lt_iff in L as ->.
Qed.

Lemma compare_refl a : String.compare a a = Eq.
Proof.
  induction a as [|x a IH]; simpl; [reflexivity|].
  now rewrite ascii_compare_refl.
Qed.

Lemma leb_trans a b c : le_name a b -> le_name b c -> le_name a c.
Proof.
  unfold le_name, String.leb. intros H1 H2.
  destruct (String.compare a b) eqn:E1; try discriminate;
    destruct (String.compare b c) eqn:E2; try discriminate.
  - apply String.compare_eq_iff in E1. apply String.compare_eq_iff in E2.
    subst. now rewrite compare_refl.
  - apply String.compare_eq_iff in E1. subst. now rewrite E2.
  - apply String.compare_eq_iff in E2. subst. now rewrite E1.
  - now rewrite (compare_trans_lt a b c).
Qed.

Lemma insert_perm x l : Permutation (insert x l) (x :: l).
Proof.
  induction l as [|y l IH]; simpl; [reflexivity|].
  destruct (String.leb x y); [reflexivity|].
  rewrite IH. apply perm_swap.
Qed.

Lemma sorted_perm l : Permutation (sorted l) l.
Proof.
  induction l as [|x l IH]; simpl; [constructor|].
  rewrite insert_perm. now constructor.
Qed.

Lemma insert_sorted x l :
  StronglySorted le_name l -> StronglySorted le_name (insert x l).
Proof.
  induction 1 as [|y l Hs IH Hy]; simpl.
  - repeat constructor.
  - destruct (String.leb x y) eqn:E.
    + constructor; [now constructor|]. constructor; [exact E|].
      eapply Forall_impl; [|exact Hy]. intros z Hz. now apply leb_trans with y.
    + constructor; [exact IH|].
      apply (Permutation_Forall (Permutation_sym (insert_perm x l))).
      constructor; [|exact Hy].
      destruct (String.leb_total x y) as [H|H]; [congruence | exact H].
Qed.

Lemma sorted_sorted l : StronglySorted le_name (sorted l).
Proof. induction l; simpl; [constructor | now apply insert_sorted]. Qed.

(** *** [get_next_spec] *)

Lemma first_pending_list completed specs :
  exists r, first_pending (VList completed) specs = Ok r /\
    match r with
    | Some u =>
        exists before after,
          specs = before ++ u :: after /\
          (forall b, In b before -> In (VStr b) completed) /\
          ~ In (VStr u) completed
    | None => forall u, In u specs -> In (VStr u) completed
    end.
Proof.
  assert (Hin : forall u,
            existsb (fun x => match x with
                              | VStr s => String.eqb u s
                              | _ => false
                              end) completed = true
            <-> In (VStr u) completed).
  { intros u. rewrite existsb_exists. split.
    - intros (x & Hx & E). destruct x; try discriminate.
      apply String.eqb_eq in E. now subst.
    - intros H. exists (VStr u). split; [exact H | apply String.eqb_refl]. }
  induction specs as [|s specs (r & Hr & IH)]; simpl.
  - exists None. split; [reflexivity | intros u []].
  - destruct (existsb _ completed) eqn:E.
    + exists r. split; [exact Hr|]. apply Hin in E.
      destruct r as [u|].
      * destruct IH as (before & after & -> & Hb & Hu).
        exists (s :: before), after. repeat split; auto.
        intros b [<-|Hb']; auto.
      * intros u [<-|Hu]; auto.
    + exists (Some s). split; [reflexivity|].
      exists [], specs. repeat split; [intros b [] |].
      intros H. apply Hin in H. congruence.
Qed.

(** The loop of [get_next_spec] reads the object its argument refers to and
    nothing else. *)
Lemma first_not_in_pending done specs w d :
  lookup (heap w) done = Ok d ->
  first_not_in done specs w = lift (first_pending d specs) w.
Proof.
  intros Hd. induction specs as [|s specs IH]; [reflexivity|].
  cbn [first_not_in first_pending]. unfold bind at 1.
  unfold contains_at, bind, deref. rewrite Hd. cbn [lift ret].
  destruct (contains s d) as [[|]|e]; cbn [lift ret raise negb];
    [|reflexivity|reflexivity].
  rewrite IH. destruct (first_pending d specs); reflexivity.
Qed.

Lemma first_not_in_reads done specs : forall w,
  exists o, first_not_in done specs w = (o, w, []).
Proof.
  induction specs as [|s specs IH]; intros w; [eexists; reflexivity|].
  cbn [first_not_in]. unfold bind at 1. unfold contains_at, bind, deref.
  destruct (lookup (heap w) done) as [d|e]; cbn [lift ret raise];
    [|eexists; reflexivity].
  destruct (contains s d) as [[|]|e]; cbn [lift ret raise negb];
    try (eexists; reflexivity).
  destruct (IH w) as [o ->]. eexists; reflexivity.
Qed.

(** C2: [get_next_spec] goes through the [*.md] names of the directory in
    ascending order and returns the first that is not in the completed list
    it is given a reference to, [None] when all are in it; with no such name
    in the directory it returns [None] at once, whatever it is given. *)
Theorem get_next_spec_first_pending (w : world) (done : ref)
    (completed : list value) :
  lookup (heap w) done = Ok (VList completed) ->
  let specs := sorted (glob_md (files w)) in
  StronglySorted le_name specs /\
  Permutation specs (glob_md (files w)) /\
  (exists r,
     get_next_spec done w = (Val r, w, []) /\
     match r with
     | Some u =>
         exists before after,
           specs = before ++ u :: after /\
           (forall b, In b before -> In (VStr b) completed) /\
           ~ In (VStr u) completed
     | None => forall u, In u specs -> In (VStr u) completed
     end) /\
  (forall (anything : ref) (w0 : world),
     glob_md (files w0) = [] ->
     get_next_spec anything w0 = (Val None, w0, [])).
Proof.
  intros Hd specs. split; [apply sorted_sorted|].
  split; [apply sorted_perm|]. split.
  - destruct (first_pending_list completed specs) as (r & Hr & H).
    exists r. split; [|exact H].
    unfold get_next_spec. fold specs.
    now rewrite (first_not_in_pending _ _ _ _ Hd), Hr.
  - intros anything w0 H. unfold get_next_spec. now rewrite H.
Qed.

Lemma get_next_spec_first_pending_witness :
  let w := World (Fs (Some two_specs) None) all_pass 0 a_done in
  let done := done_ref in
  let completed := [VStr "01-a.md"] in
  lookup (heap w) done = Ok (VList completed) /\
  let specs := sorted (glob_md (files w)) in
  StronglySorted le_name specs /\
  Permutation specs (glob_md (files w)) /\
  (exists r,
     get_next_spec done w = (Val r, w, []) /\
     match r with
     | Some u =>
         exists before after,
           specs = before ++ u :: after /\
           (forall b, In b before -> In (VStr b) completed) /\
           ~ In (VStr u) completed
     | None => forall u, In u specs -> In (VStr u) completed
     end) /\
  (forall (anything : ref) (w0 : world),
     glob_md (files w0) = [] ->
     get_next_spec anything w0 = (Val None, w0, [])).
Proof.
  split; [reflexivity|].
  apply (get_next_spec_first_pending
           (World (Fs (Some two_specs) None) all_pass 0 a_done)
           done_ref [VStr "01-a.md"]).
  reflexivity.
Defined.

(** C8: [get_next_spec] reads only.  It leaves the world as it found it, the
    object its argument refers to and every other object in memory included,
    and causes no event; so a second call on the same directory and the same
    completed collection gives the result of the first. *)
Theorem get_next_spec_idempotent (done : ref) (w : world) :
  let '(o1, w1, t1) := get_next_spec done w in
  let '(o2, w2, t2) := get_next_spec done w1 in
  o1 = o2 /\ w1 = w /\ w2 = w /\ t1 = [] /\ t2 = [] /\
  heap w1 = heap w /\ lookup (heap w1) done = lookup (heap w) done.
Proof.
  unfold get_next_spec.
  destruct (first_not_in_reads done (sorted (glob_md (files w))) w) as [o E].
  rewrite E, E. auto 10.
Qed.

(** *** Start-up, the agent call and the verification loop *)

(** C9: with the specs directory absent, [main] prints the diagnostic and
    leaves through [sys.exit(1)]: exit status 1, no process started, nothing
    written, the world untouched. *)
Theorem main_without_specs_dir (w : world) :
  specs_dir (files w) = None ->
  main w = (SysExit 1, w, [EvPrint (MsgSpecsNotFound SPECS_DIR)]) /\
  exit_status (fst (fst (main w))) = 1%Z /\
  commands_run (snd (main w)) = [] /\
  writes (snd (main w)) = [].
Proof.
  intros H. unfold main. rewrite H. cbn. auto.
Qed.

Lemma main_without_specs_dir_witness :
  let w := World (Fs None (Some "{}")) all_fail 0 VNone in
  specs_dir (files w) = None /\
  main w = (SysExit 1, w, [EvPrint (MsgSpecsNotFound SPECS_DIR)]) /\
  exit_status (fst (fst (main w))) = 1%Z /\
  commands_run (snd (main w)) = [] /\
  writes (snd (main w)) = [].
Proof.
  split; [reflexivity|].
  apply (main_without_specs_dir (World (Fs None (Some "{}")) all_fail 0 VNone)).
  reflexivity.
Defined.

Lemma run_claude_eq prompt w :
  run_claude prompt w =
  let w' := World (files w) (procs w) (S (calls w)) (heap w) in
  match procs w (calls w) claude_cmd (Some prompt) with
  | Ok p =>
      (Val (returncode p, stdout p +++ stderr p), w',
       [EvRun claude_cmd (Some prompt) (Ok p); EvPrint (MsgCommand claude_cmd);
        EvPrint (MsgOutput (stdout p +++ stderr p))])
  | Raise e => (Exc e, w', [EvRun claude_cmd (Some prompt) (Raise e)])
  end.
Proof.
  unfold run_claude, bind, subprocess_run.
  destruct (procs w (calls w) claude_cmd (Some prompt)); reflexivity.
Qed.

Lemma run_cmd_eq c w :
  run_cmd c w =
  let w' := World (files w) (procs w) (S (calls w)) (heap w) in
  match procs w (calls w) c None with
  | Ok p =>
      (Val (returncode p, stdout p +++ stderr p), w',
       [EvPrint (MsgCommand c); EvRun c None (Ok p);
        EvPrint (MsgOutput (stdout p +++ stderr p))])
  | Raise e => (Exc e, w', [EvPrint (MsgCommand c); EvRun c None (Raise e)])
  end.
Proof.
  unfold run_cmd, bind, subprocess_run, print. cbn.
  destruct (procs w (calls w) c None); reflexivity.
Qed.

(** C7: [run_claude] starts one process, with the fixed six-word command
    line (46 characters in all, whatever the prompt) and with the whole
    prompt, unchanged, as its standard input; the exit status it returns is
    that of this process. *)
Theorem run_claude_prompt_on_stdin (prompt : string) (w : world) :
  let '(o, _, t) := run_claude prompt w in
  let r := procs w (calls w) claude_cmd (Some prompt) in
  (exists rest, t = EvRun claude_cmd (Some prompt) r :: rest) /\
  commands_run t = [claude_cmd] /\
  list_sum (map String.length claude_cmd) = 46 /\
  match r with
  | Ok p => o = Val (returncode p, stdout p +++ stderr p)
  | Raise e => o = Exc e
  end.
Proof.
  rewrite run_claude_eq. cbv zeta.
  destruct (procs w (calls w) claude_cmd (Some prompt)); cbn;
    repeat split; eauto.
Qed.

(** The verification loop when every command exits with 0. *)
Lemma verify_all_pass cmds : forall w,
  (forall i c, nth_error cmds i = Some c ->
     exists q, procs w (calls w + i) c None = Ok q /\ returncode q = 0%Z) ->
  exists t,
    verify cmds w
    = (Val true,
       World (files w) (procs w) (calls w + List.length cmds) (heap w), t) /\
    commands_run t = cmds /\ writes t = [].
Proof.
  induction cmds as [|c cmds IH]; intros w H.
  - exists []. cbn. rewrite Nat.add_0_r. destruct w; auto.
  - destruct (H 0 c eq_refl) as (q & Hq & Hrc). rewrite Nat.add_0_r in Hq.
    destruct (IH (World (files w) (procs w) (S (calls w)) (heap w))) as (t & Ht & Hc & Hw).
    { intros i ci Hi. cbn. specialize (H (S i) ci Hi).
      now rewrite Nat.add_succ_r in H. }
    cbn [verify]. unfold bind at 1. rewrite run_cmd_eq, Hq. cbn.
    rewrite Hrc. cbn. rewrite Ht. cbn.
    eexists. split; [|split].
    + repeat f_equal. lia.
    + cbn. now rewrite Hc.
    + cbn. exact Hw.
Qed.

(** C3: the verification loop runs the commands in order and stops at the
    first that exits with a status other than 0: the commands after it are
    not started, and the loop ends by printing the failure message right
    after that command's output. *)
Theorem verify_short_circuit (pre : list cmd) (c : cmd) (post : list cmd) :
  forall (w : world) (p : completed),
  (forall i ci, nth_error pre i = Some ci ->
     exists q, procs w (calls w + i) ci None = Ok q /\ returncode q = 0%Z) ->
  procs w (calls w + List.length pre) c None = Ok p ->
  returncode p <> 0%Z ->
  exists t0,
    verify (pre ++ c :: post) w
    = (Val false,
       World (files w) (procs w) (calls w + List.length pre + 1) (heap w),
       t0 ++ [EvPrint (MsgCommand c); EvRun c None (Ok p);
              EvPrint (MsgOutput (stdout p +++ stderr p));
              EvPrint MsgVerifyFailed]) /\
    commands_run t0 = pre /\ writes t0 = [].
Proof.
  induction pre as [|c0 pre IH]; intros w p H Hp Hrc.
  - exists []. cbn [app verify List.length]. unfold bind at 1.
    rewrite Nat.add_0_r in Hp. rewrite run_cmd_eq, Hp. cbn.
    apply Z.eqb_neq in Hrc. rewrite Hrc. cbn.
    repeat split. repeat f_equal. lia.
  - destruct (H 0 c0 eq_refl) as (q & Hq & Hq0). rewrite Nat.add_0_r in Hq.
    destruct (IH (World (files w) (procs w) (S (calls w)) (heap w)) p)
      as (t0 & Ht & Hc & Hw); [| |exact Hrc|].
    { intros i ci Hi. cbn. specialize (H (S i) ci Hi).
      now rewrite Nat.add_succ_r in H. }
    { cbn. cbn in Hp. now rewrite Nat.add_succ_r in Hp. }
    cbn [app verify]. unfold bind at 1. rewrite run_cmd_eq, Hq. cbn.
    rewrite Hq0. cbn. rewrite Ht. cbn.
    exists ([EvPrint (MsgCommand c0); EvRun c0 None (Ok q);
             EvPrint (MsgOutput (stdout q +++ stderr q))] ++ t0).
    split; [|split].
    + repeat f_equal. lia.
    + cbn. now rewrite Hc.
    + cbn. exact Hw.
Qed.

Lemma verify_short_circuit_witness :
  let A := ["a"] in let B := ["b"] in let C := ["c"] in
  let progs : programs :=
    fun n _ _ => Ok (Exit (if Nat.eqb n 1 then 1 else 0) EmptyString EmptyString) in
  let w := World (Fs (Some []) None) progs 0 VNone in
  let p := Exit 1 EmptyString EmptyString in
  ((forall i ci, nth_error [A] i = Some ci ->
      exists q, procs w (calls w + i) ci None = Ok q /\ returncode q = 0%Z) /\
   procs w (calls w + List.length [A]) B None = Ok p /\
   returncode p <> 0%Z) /\
  exists t0,
    verify ([A] ++ B :: [C]) w
    = (Val false,
       World (files w) (procs w) (calls w + List.length [A] + 1) (heap w),
       t0 ++ [EvPrint (MsgCommand B); EvRun B None (Ok p);
              EvPrint (MsgOutput (stdout p +++ stderr p));
              EvPrint MsgVerifyFailed]) /\
    commands_run t0 = [A] /\ writes t0 = [].
Proof.
  intros A B C progs w p.
  assert (H : forall i ci, nth_error [A] i = Some ci ->
                exists q, procs w (calls w + i) ci None = Ok q /\
                          returncode q = 0%Z).
  { intros [|[|i]] ci Hi; try discriminate.
    exists (Exit 0 EmptyString EmptyString). split; reflexivity. }
  split; [split; [exact H | split; [reflexivity | discriminate]]|].
  apply (verify_short_circuit [A] B [C] w p);
    [exact H | reflexivity | discriminate].
Defined.


(** *** One round of the loop *)

Lemma read_spec_cases u w :
  read_spec u w = (Exc OSError, w, []) \/
  exists text, read_spec u w = (Val text, w, []).
Proof.
  unfold read_spec. destruct (specs_dir (files w)) as [entries|];
    [|left; reflexivity].
  destruct (find _ entries) as [[n [text|]]|];
    [right; exists text; reflexivity | left; reflexivity | left; reflexivity].
Qed.

Lemma verify_outcome cmds : forall w o w' t,
  verify cmds w = (o, w', t) ->
  (exists b, o = Val b) \/ (exists e, o = Exc e).
Proof.
  induction cmds as [|c cmds IH]; intros w o w' t; cbn [verify].
  - intros [= <- _ _]. eauto.
  - unfold bind at 1. rewrite run_cmd_eq. cbv zeta.
    destruct (procs w (calls w) c None) as [p|e]; [|intros [= <- _ _]; eauto].
    cbn [fst]. destruct (negb (returncode p =? 0)%Z).
    + cbn. intros [= <- _ _]. eauto.
    + destruct (verify cmds _) as [[o1 w1] t1] eqn:E. intros [= <- _ _].
      eapply IH; eassumption.
Qed.

Lemma verify_keeps_heap cmds : forall w o w' t,
  verify cmds w = (o, w', t) -> heap w' = heap w.
Proof.
  induction cmds as [|c cmds IH]; intros w o w' t; cbn [verify].
  - now intros [= _ <- _].
  - unfold bind at 1. rewrite run_cmd_eq. cbv zeta.
    destruct (procs w (calls w) c None) as [p|e]; [|now intros [= _ <- _]].
    cbn [fst]. destruct (negb (returncode p =? 0)%Z).
    + cbn. now intros [= _ <- _].
    + destruct (verify cmds _) as [[o1 w1] t1] eqn:E. intros [= _ <- _].
      now rewrite (IH _ _ _ _ E).
Qed.

Lemma lookup_done h : lookup h done_ref = getitem h "done".
Proof. unfold done_ref. cbn [lookup]. now destruct (getitem h "done"). Qed.

(** [state["done"]] gives the reference [done_ref] when the state is a dict
    with that key. *)
Lemma subscript_done w :
  subscript state_ref "done" w
  = match getitem (heap w) "done" with
    | Ok _ => (Val done_ref, w, [])
    | Raise e => (Exc e, w, [])
    end.
Proof.
  unfold subscript, bind, deref, state_ref. cbn [lookup lift ret].
  destruct (getitem (heap w) "done"); reflexivity.
Qed.

Lemma get_next_spec_done w done :
  getitem (heap w) "done" = Ok done ->
  get_next_spec done_ref w
  = lift (first_pending done (sorted (glob_md (files w)))) w.
Proof.
  intros H. unfold get_next_spec. apply first_not_in_pending.
  now rewrite lookup_done.
Qed.

(** Lines 121-122 on a state whose ["done"] is [done]. *)
Lemma mark_done_eq w done u :
  getitem (heap w) "done" = Ok done ->
  mark_done state_ref u w
  = match append done (VStr u) with
    | Ok done' =>
        let h := set_done (heap w) done' in
        (Val tt,
         World (Fs (specs_dir (files w)) (Some (dumps h))) (procs w) (calls w) h,
         [EvWrite STATE_FILE (dumps h)])
    | Raise e => (Exc e, w, [])
    end.
Proof.
  intros H. unfold mark_done. unfold bind at 1. rewrite subscript_done, H.
  unfold bind at 1. unfold append_at. rewrite lookup_done, H.
  destruct (append done (VStr u)) as [done'|e]; [|reflexivity].
  reflexivity.
Qed.

Lemma round_paths w o w' t :
  round state_ref w = (o, w', t) -> round_path w o w' t.
Proof.
  unfold round. unfold bind at 1. rewrite subscript_done.
  destruct (getitem (heap w) "done") as [done|e] eqn:Hget;
    [|intros [= <- <- <-]; now constructor].
  unfold bind at 1. rewrite (get_next_spec_done _ _ Hget).
  destruct (first_pending done _) as [[u|]|e] eqn:Hnext; cbn [lift ret raise];
    [| cbn; intros [= <- <- <-]; econstructor; eassumption
     | intros [= <- <- <-]; econstructor; eassumption].
  unfold bind at 1. cbn [print]. unfold bind at 1.
  destruct (read_spec_cases u w) as [Hr|(text & Hr)]; rewrite Hr;
    [intros [= <- <- <-]; econstructor; eassumption|].
  unfold bind at 1. rewrite run_claude_eq. cbv zeta.
  destruct (procs w (calls w) claude_cmd (Some (make_prompt text)))
    as [p|e] eqn:Hp;
    [|intros [= <- <- <-];
      replace (S (calls w)) with (calls w + 1) by lia;
      eapply path_agent_not_started; eassumption].
  cbn [fst]. destruct (returncode p =? 0)%Z eqn:Hrc; cbn [negb].
  - apply Z.eqb_eq in Hrc. unfold bind at 1.
    replace (World (files w) (procs w) (S (calls w)) (heap w))
      with (after_calls w 1) by (unfold after_calls; f_equal; lia).
    destruct (verify VERIFY_COMMANDS (after_calls w 1)) as [[ov wv] tv] eqn:Hv.
    pose proof (verify_keeps_heap _ _ _ _ _ Hv) as Hh. cbn in Hh.
    destruct (verify_outcome _ _ _ _ _ Hv) as [[[|] ->]|[e ->]]; cbn [negb].
    + unfold bind at 1. rewrite (mark_done_eq wv done u) by now rewrite Hh.
      destruct (append done (VStr u)) as [done'|e] eqn:Ha.
      * cbn. rewrite Hh. intros [= <- <- <-].
        eapply path_marked_done; eassumption.
      * intros [= <- <- <-]. rewrite List.app_nil_r.
        eapply path_not_a_list; eassumption.
    + cbn. intros [= <- <- <-]. rewrite List.app_nil_r.
      eapply path_verify_failed; eassumption.
    + intros [= <- <- <-]. eapply path_verify_not_started; eassumption.
  - apply Z.eqb_neq in Hrc. cbn. intros [= <- <- <-].
    replace (S (calls w)) with (calls w + 1) by lia.
    eapply path_agent_failed; eassumption.
Qed.

(** *** The verification loop, whatever its outcome *)

Lemma milestones_app a b : milestones (a ++ b) = milestones a ++ milestones b.
Proof. apply filter_app. Qed.

Lemma writes_app a b : writes (a ++ b) = writes a ++ writes b.
Proof.
  induction a as [|[] a IH]; simpl; auto. now rewrite IH.
Qed.

Lemma cmd_eqb_refl c : cmd_eqb c c = true.
Proof. unfold cmd_eqb. destruct (list_eq_dec string_dec c c); congruence. Qed.

Lemma verify_facts cmds : forall w o w' t,
  verify cmds w = (o, w', t) ->
  files w' = files w /\ procs w' = procs w /\ writes t = [] /\
  no_announce t = true /\
  (o = Val true ->
     existsb exit_failed t = false /\
     forall rest, checks_pass cmds (milestones t ++ rest) = true) /\
  (o <> Val true -> checks_pass cmds (milestones t) = false) /\
  (existsb exit_failed t = true <-> o = Val false).
Proof.
  induction cmds as [|c cmds IH]; intros w o w' t; cbn [verify].
  - intros [= <- <- <-]. cbn. repeat apply conj; auto; try congruence.
  - unfold bind at 1. rewrite run_cmd_eq. cbv zeta.
    destruct (procs w (calls w) c None) as [p|e].
    2:{ intros [= <- <- <-]. cbn. repeat apply conj; auto; try discriminate.
        intros _. now rewrite andb_false_r. }
    cbn [fst]. destruct (returncode p =? 0)%Z eqn:Hrc; cbn [negb].
    + destruct (verify cmds _) as [[o1 w1] t1] eqn:E. intros [= <- <- <-].
      destruct (IH _ _ _ _ E) as (Hf & Hp & Hw & Hn & Ht & Hs & Hx).
      cbn in Hf, Hp. cbn [app writes no_announce forallb existsb exit_failed].
      rewrite Hrc. cbn [negb orb andb]. unfold no_announce in Hn.
      repeat apply conj; auto; try apply Hx.
      * intros Ho. split; [now apply Ht|].
        intros rest. cbn. rewrite cmd_eqb_refl, Hrc. cbn. now apply Ht.
      * intros Ho. cbn. rewrite cmd_eqb_refl, Hrc. cbn. now apply Hs.
    + cbn. intros [= <- <- <-]. cbn. rewrite Hrc. cbn.
      repeat apply conj; auto; try discriminate.
      intros _. now rewrite andb_false_r.
Qed.

Lemma passed_somewhere_skip v t rest :
  no_announce t = true ->
  passed_somewhere v (milestones t ++ rest) = passed_somewhere v rest.
Proof.
  induction t as [|e t IH]; [reflexivity|].
  cbn [no_announce forallb]. intros H. apply andb_prop in H as [He Ht].
  unfold milestones. cbn [filter]. fold (milestones t).
  destruct e as [[]| | |]; cbn [is_milestone]; try discriminate; auto.
Qed.

(** *** Values under the key ["done"] *)

Lemma getitem_dict st k x :
  getitem st k = Ok x -> exists d, st = VDict d /\ dict_get k d = Some x.
Proof.
  destruct st; try discriminate. simpl.
  destruct (dict_get k d) eqn:E; [|discriminate]. intros [= ->]. eauto.
Qed.

Lemma dict_get_set k v d x :
  dict_get k d = Some x -> dict_get k (dict_set k v d) = Some v.
Proof.
  induction d as [|[k' v'] d IH]; simpl; [discriminate|].
  destruct (String.eqb k k') eqn:E; simpl; rewrite ?String.eqb_refl, ?E; auto.
Qed.



Lemma set_done_dict d x y :
  dict_get "done" d = Some x ->
  set_done (VDict d) y = VDict (dict_set "done" y d).
Proof. intros H. unfold set_done, done_ref. cbn [update]. now rewrite H. Qed.

Lemma getitem_set_done st x y :
  getitem st "done" = Ok x -> getitem (set_done st y) "done" = Ok y.
Proof.
  intros H. destruct (getitem_dict _ _ _ H) as (d & -> & Hd).
  rewrite (set_done_dict _ _ _ Hd). simpl.
  now rewrite (dict_get_set _ _ _ _ Hd).
Qed.

Lemma dict_get_well_formed k d x :
  values_ok d = true -> dict_get k d = Some x -> well_formed x = true.
Proof.
  induction d as [|[k' v'] d IH]; simpl; [discriminate|].
  intros H. apply andb_prop in H as [H1 H2].
  destruct (String.eqb k k'); [now intros [= <-] | auto].
Qed.

Lemma getitem_well_formed st k x :
  well_formed st = true -> getitem st k = Ok x -> well_formed x = true.
Proof.
  intros Hwf H. destruct (getitem_dict _ _ _ H) as (d & -> & Hd).
  simpl in Hwf. apply andb_prop in Hwf as [_ Hv].
  eapply dict_get_well_formed; eassumption.
Qed.

Lemma set_done_well_formed st x y :
  getitem st "done" = Ok x ->
  well_formed st = true -> well_formed y = true ->
  well_formed (set_done st y) = true.
Proof.
  intros Hx. destruct (getitem_dict _ _ _ Hx) as (d & -> & Hd).
  rewrite (set_done_dict _ _ _ Hd). simpl.
  intros H Hy. apply andb_prop in H as [Hn Hv].
  rewrite dict_set_nodup by assumption.
  now apply dict_set_values.
Qed.

Lemma contains_list u d :
  contains u (VList d) = Ok true <-> In (VStr u) d.
Proof.
  simpl. split.
  - intros [= H]. apply existsb_exists in H as (x & Hx & E).
    destruct x; try discriminate. apply String.eqb_eq in E. now subst.
  - intros H. f_equal. apply existsb_exists. exists (VStr u).
    split; [exact H | apply String.eqb_refl].
Qed.

Lemma first_pending_some done specs u :
  first_pending done specs = Ok (Some u) ->
  In u specs /\ contains u done = Ok false.
Proof.
  induction specs as [|s specs IH]; simpl; [discriminate|].
  destruct (contains s done) as [[|]|e] eqn:E; try discriminate.
  - intros H. destruct (IH H). auto.
  - intros [= ->]. auto.
Qed.

Lemma append_list done x done' :
  append done x = Ok done' ->
  exists d, done = VList d /\ done' = VList (d ++ [x]).
Proof. destruct done; try discriminate. intros [= <-]. eauto. Qed.

(** *** A round that marks its unit done *)

Lemma milestones_agent u prompt p :
  milestones (agent_events u prompt p)
  = [EvPrint (MsgProcessing u); EvRun claude_cmd (Some prompt) (Ok p)].
Proof. reflexivity. Qed.

Lemma marked_round w w1 t1 :
  round state_ref w = (Val None, w1, t1) ->
  exists d u,
    getitem (heap w) "done" = Ok (VList d) /\
    first_pending (VList d) (sorted (glob_md (files w))) = Ok (Some u) /\
    In u (sorted (glob_md (files w))) /\ ~ In (VStr u) d /\
    heap w1 = set_done (heap w) (VList (d ++ [VStr u])) /\
    getitem (heap w1) "done" = Ok (VList (d ++ [VStr u])) /\
    files w1 = Fs (specs_dir (files w)) (Some (dumps (heap w1))) /\
    procs w1 = procs w /\
    writes t1 = [dumps (heap w1)] /\
    existsb exit_failed t1 = false /\
    (forall v rest,
       passed_somewhere v (milestones t1 ++ rest)
       = String.eqb v u || passed_somewhere v rest) /\
    (well_formed (heap w) = true -> in_sync w1).
Proof.
  intros H. apply round_paths in H. inversion H; subst; clear H.
  match goal with H : append _ _ = Ok _ |- _ =>
    apply append_list in H as (d & -> & ->) end.
  match goal with H : verify _ _ = _ |- _ =>
    destruct (verify_facts _ _ _ _ _ H) as (Hf & Hp & Hw & Hn & Ht & _ & _) end.
  destruct (Ht eq_refl) as (Hx & Hc). clear Ht.
  match goal with H : first_pending _ _ = _ |- _ =>
    pose proof (first_pending_some _ _ _ H) as (Hin & Hnot) end.
  exists d, u. cbn [files procs heap]. rewrite Hf, Hp.
  cbn [after_calls files procs].
  repeat apply conj; auto.
  - intros Hd. apply contains_list in Hd. congruence.
  - eapply getitem_set_done; eassumption.
  - unfold agent_events. cbn [app writes]. rewrite writes_app, Hw. reflexivity.
  - unfold agent_events. cbn [app existsb exit_failed].
    match goal with H : returncode _ = 0%Z |- _ => rewrite H end.
    cbn. rewrite existsb_app, Hx. reflexivity.
  - intros v rest.
    rewrite !milestones_app, milestones_agent.
    change (milestones [EvWrite _ _; EvPrint (MsgCompleted u); EvSleep 1])
      with (@nil event).
    rewrite List.app_nil_r. cbn [app].
    cbn [passed_somewhere passed_at].
    rewrite cmd_eqb_refl.
    match goal with H : returncode _ = 0%Z |- _ => cbn [exit_ok]; rewrite H end.
    rewrite Hc. cbn [Z.eqb andb orb]. rewrite !andb_true_r.
    now rewrite passed_somewhere_skip.
  - intros Hwf.
    assert (Hwf1 : well_formed (set_done (heap w) (VList (d ++ [VStr u])))
                   = true).
    { eapply set_done_well_formed; [eassumption | assumption |].
      match goal with H : getitem (heap w) _ = Ok _ |- _ =>
        pose proof (getitem_well_formed _ _ _ Hwf H) as Hd end.
      simpl in Hd |- *. now rewrite forallb_snoc, Hd. }
    split; [exact Hwf1|]. cbn [files state_file stored heap].
    now apply loads_dumps.
Qed.

(** *** A round that ends the loop *)

Lemma stopping_round w o w' t :
  round state_ref w = (o, w', t) ->
  o <> Val None ->
  files w' = files w /\ procs w' = procs w /\ heap w' = heap w /\
  writes t = [] /\
  ((exists d, getitem (heap w) "done" = Ok (VList d)) ->
   forall v, passed_somewhere v (milestones t) = false) /\
  (existsb exit_failed t = true <->
   o = Val (Some ClaudeFailed) \/ o = Val (Some VerifyFailed)) /\
  (o = Val (Some ClaudeFailed) \/ o = Val (Some VerifyFailed) ->
   exists done u t',
     getitem (heap w) "done" = Ok done /\
     first_pending done (sorted (glob_md (files w))) = Ok (Some u) /\
     t = EvPrint (MsgProcessing u) :: t' /\ no_announce t' = true).
Proof.
  intros H Hstop. apply round_paths in H.
  inversion H; subst; clear H;
    try (exfalso; apply Hstop; reflexivity);
    try match goal with H : verify _ _ = _ |- _ =>
      pose proof (verify_keeps_heap _ _ _ _ _ H) as Hh;
      destruct (verify_facts _ _ _ _ _ H)
        as (Hf & Hp & Hw & Hn & Ht & Hs & Hx) end;
    try match goal with H : returncode _ = 0%Z |- _ =>
      pose proof H as Hrc0; apply Z.eqb_eq in Hrc0 end;
    try match goal with H : returncode _ <> 0%Z |- _ =>
      pose proof H as Hrc1; apply Z.eqb_neq in Hrc1 end;
    rewrite ?Hf, ?Hp, ?Hh; cbn [after_calls files procs heap];
    repeat apply conj; auto;
    try (rewrite writes_app, ?Hw; reflexivity);
    try (intros _ v; reflexivity);
    try (intros Hfalse; cbn in Hfalse; discriminate);
    try (intros [Hfalse|Hfalse]; discriminate).
  - intros _ v. cbn. now rewrite andb_false_r.
  - intros _ v. rewrite milestones_app, milestones_agent. cbn.
    now rewrite Hrc1, !andb_false_r.
  - intros _. rewrite existsb_app. cbn. now rewrite Hrc1.
  - intros _. exists done, u. eexists.
    split; [eassumption|]. split; [eassumption|]. split; reflexivity.
  - intros _ v. rewrite milestones_app, milestones_agent. cbn [app].
    cbn [passed_somewhere passed_at]. rewrite Hs by discriminate.
    rewrite andb_false_r. cbn [orb].
    apply (passed_somewhere_skip v tv []) in Hn.
    rewrite List.app_nil_r in Hn. exact Hn.
  - intros _. rewrite existsb_app. apply orb_true_iff. right. now apply Hx.
  - intros _. exists done, u. eexists.
    split; [eassumption|]. split; [eassumption|].
    split; [reflexivity | exact Hn].
  - intros _ v. rewrite milestones_app, milestones_agent. cbn [app].
    cbn [passed_somewhere passed_at]. rewrite Hs by discriminate.
    rewrite andb_false_r. cbn [orb].
    apply (passed_somewhere_skip v tv []) in Hn.
    rewrite List.app_nil_r in Hn. exact Hn.
  - intros Hfalse. rewrite existsb_app in Hfalse. cbn in Hfalse.
    rewrite Hrc0 in Hfalse. cbn in Hfalse. apply Hx in Hfalse. discriminate.
  - intros [d Hd].
    match goal with H1 : getitem (heap w) _ = Ok done |- _ =>
      rewrite H1 in Hd; injection Hd as -> end.
    discriminate.
  - intros Hfalse. rewrite existsb_app in Hfalse. cbn in Hfalse.
    rewrite Hrc0 in Hfalse. cbn in Hfalse. apply Hx in Hfalse. discriminate.
Qed.


(** *** The loop as a sequence of rounds *)

Lemma loop_rounds fuel : forall w o w' t,
  loop fuel state_ref w = (o, w', t) ->
  exists us wk t1 t2,
    rounds w us wk t1 /\ t = t1 ++ t2 /\
    ((o = Val None /\ w' = wk /\ t2 = [] /\ List.length us = fuel) \/
     (round state_ref wk = (o, w', t2) /\ o <> Val None)).
Proof.
  induction fuel as [|fuel IH]; intros w o w' t; cbn [loop].
  - intros [= <- <- <-]. exists [], w, [], []. split; [constructor|].
    split; [reflexivity|]. left. auto.
  - unfold bind at 1. destruct (round state_ref w) as [[o1 w1] t1] eqn:Hr.
    destruct o1 as [[h|]|e|c].
    + cbn. intros [= <- <- <-]. exists [], w, [], (t1 ++ []).
      split; [constructor|]. split; [reflexivity|]. right.
      rewrite List.app_nil_r. split; [exact Hr | discriminate].
    + destruct (loop fuel state_ref w1) as [[o2 w2] t2] eqn:Hl.
      intros [= <- <- <-].
      destruct (IH _ _ _ _ Hl) as (us & wk & ta & tb & Hrs & -> & Hend).
      destruct (marked_round _ _ _ Hr) as (d & u & Hd & Hu & _).
      exists (u :: us), wk, (t1 ++ ta), tb.
      split; [econstructor; eassumption|].
      split; [now rewrite List.app_assoc|].
      destruct Hend as [(-> & -> & -> & <-)|Hend]; [left; auto | right; exact Hend].
    + intros [= <- <- <-]. exists [], w, [], t1.
      split; [constructor|]. split; [reflexivity|]. right.
      split; [exact Hr | discriminate].
    + intros [= <- <- <-]. exists [], w, [], t1.
      split; [constructor|]. split; [reflexivity|]. right.
      split; [exact Hr | discriminate].
Qed.

Lemma last_write_app before a b :
  last_write before (a ++ b) = last_write (last_write before a) b.
Proof. apply fold_left_app. Qed.

Lemma is_pending_iff d s : is_pending d s = true <-> ~ In (VStr s) d.
Proof.
  unfold is_pending. pose proof (contains_list s d) as H.
  destruct (contains s (VList d)) as [[|]|e] eqn:E.
  - split; [discriminate|]. intros Hn. exfalso. apply Hn, H. reflexivity.
  - split; [|reflexivity]. intros _ Hin. apply H in Hin. discriminate.
  - discriminate.
Qed.

Lemma is_pending_more d u s :
  is_pending (d ++ [VStr u]) s = true -> is_pending d s = true.
Proof.
  rewrite !is_pending_iff. intros H Hin. apply H, in_or_app. auto.
Qed.

Lemma pending_more d u specs :
  List.length (pending (d ++ [VStr u]) specs) <= List.length (pending d specs).
Proof.
  unfold pending. induction specs as [|s specs IH]; [reflexivity|].
  cbn [filter]. destruct (is_pending (d ++ [VStr u]) s) eqn:E.
  - rewrite (is_pending_more _ _ _ E). cbn [List.length]. lia.
  - destruct (is_pending d s); cbn [List.length]; lia.
Qed.

Lemma pending_shrinks d u specs :
  In u specs -> ~ In (VStr u) d ->
  List.length (pending (d ++ [VStr u]) specs) < List.length (pending d specs).
Proof.
  intros Hin Hnot. induction specs as [|s specs IH]; [destruct Hin|].
  pose proof (pending_more d u specs) as Hmono. unfold pending in *.
  cbn [filter]. destruct Hin as [->|Hin].
  - apply is_pending_iff in Hnot. rewrite Hnot.
    assert (E : is_pending (d ++ [VStr u]) u = false).
    { destruct (is_pending (d ++ [VStr u]) u) eqn:E; [|reflexivity].
      apply is_pending_iff in E. exfalso. apply E, in_or_app. simpl. auto. }
    rewrite E. cbn [List.length]. lia.
  - specialize (IH Hin). destruct (is_pending (d ++ [VStr u]) s) eqn:E.
    + rewrite (is_pending_more _ _ _ E). cbn [List.length]. lia.
    + destruct (is_pending d s); cbn [List.length]; lia.
Qed.

(** What a sequence of marking rounds does. *)
Lemma rounds_facts w us w' t :
  rounds w us w' t ->
  specs_dir (files w') = specs_dir (files w) /\ procs w' = procs w /\
  existsb exit_failed t = false /\
  state_file (files w') = last_write (state_file (files w)) (writes t) /\
  List.length (writes t) = List.length us /\
  (forall v rest,
     passed_somewhere v (milestones t ++ rest)
     = existsb (String.eqb v) us || passed_somewhere v rest) /\
  (forall d, getitem (heap w) "done" = Ok (VList d) ->
     getitem (heap w') "done" = Ok (VList (d ++ map VStr us)) /\
     List.length (pending (d ++ map VStr us) (sorted (glob_md (files w))))
     + List.length us
     <= List.length (pending d (sorted (glob_md (files w)))) /\
     (well_formed (heap w) = true -> grows d (writes t))) /\
  (in_sync w -> in_sync w').
Proof.
  induction 1 as [w | w done u w1 t1 us w2 t2 Hr Hd Hu Hrs IH].
  - cbn. repeat apply conj; auto.
    intros d Hd. rewrite List.app_nil_r. repeat apply conj; auto. lia.
  - destruct IH as (Hs & Hp & Hx & Hf & Hl & Hpass & Hdone & Hsync).
    destruct (marked_round _ _ _ Hr)
      as (d & u' & Hd' & Hu' & Hin & Hnot & Hst1 & Hd1 & Hf1 & Hp1 & Hw1 & Hx1
          & Hpass1 & Hsync1).
    rewrite Hd in Hd'. injection Hd' as ->.
    rewrite Hu in Hu'. injection Hu' as <-.
    assert (Hspecs : specs_dir (files w1) = specs_dir (files w))
      by now rewrite Hf1.
    assert (Hglob : glob_md (files w1) = glob_md (files w))
      by (unfold glob_md; now rewrite Hspecs).
    repeat apply conj.
    + congruence.
    + congruence.
    + rewrite existsb_app, Hx1, Hx. reflexivity.
    + rewrite writes_app, last_write_app, Hf, Hw1, Hf1. reflexivity.
    + rewrite writes_app, length_app, Hw1, Hl. reflexivity.
    + intros v rest. rewrite milestones_app, <- List.app_assoc, Hpass1, Hpass.
      cbn [existsb]. now rewrite orb_assoc.
    + intros d0 H. rewrite Hd in H. injection H as <-.
      destruct (Hdone _ Hd1) as (Hd2 & Hlen & Hg).
      cbn [map List.length]. rewrite <- List.app_assoc in Hd2, Hlen.
      cbn [app] in Hd2, Hlen. rewrite Hglob in Hlen.
      repeat apply conj.
      * exact Hd2.
      * pose proof (pending_shrinks d u _ Hin Hnot). lia.
      * intros Hwf. rewrite writes_app, Hw1. cbn [app grows].
        destruct (Hsync1 Hwf) as [Hwf1 Hload1].
        exists (heap w1), u. repeat apply conj; auto.
        now apply loads_dumps.
    + intros [Hwf _]. apply Hsync, Hsync1, Hwf.
Qed.

(** *** A whole run *)

Lemma load_state_stored w :
  load_state w = (v <- lift (stored (state_file (files w))) ;; new_object v) w.
Proof. unfold load_state, stored. destruct (state_file (files w)); reflexivity. Qed.

(** [load_state] returns with the stored state in memory, or raises what
    reading it raises. *)
Lemma load_state_cases w :
  (exists st,
     stored (state_file (files w)) = Ok st /\
     load_state w
     = (Val state_ref, World (files w) (procs w) (calls w) st, [])) \/
  (exists e,
     stored (state_file (files w)) = Raise e /\
     load_state w = (Exc e, w, [])).
Proof.
  rewrite load_state_stored.
  destruct (stored (state_file (files w))) as [st|e]; [left | right]; eauto.
Qed.

Lemma stored_well_formed sf st : stored sf = Ok st -> well_formed st = true.
Proof.
  unfold stored. destruct sf as [text|].
  - apply loads_well_formed.
  - now intros [= <-].
Qed.

Lemma rounds_first_done w u us w' t :
  rounds w (u :: us) w' t ->
  exists d, getitem (heap w) "done" = Ok (VList d).
Proof.
  inversion 1; subst.
  match goal with H : round _ _ = _ |- _ =>
    destruct (marked_round _ _ _ H) as (d & _ & Hd & _) end.
  eauto.
Qed.

Lemma sorted_length l : List.length (sorted l) = List.length l.
Proof. apply Permutation_length, sorted_perm. Qed.

Lemma pending_length d specs :
  List.length (pending d specs) <= List.length specs.
Proof. apply filter_length_le. Qed.

(** The anatomy of a run that found its specs directory and could read its
    state: some rounds that mark a unit done, then one round that ends the
    loop.  The fuel of [main] is never used up. *)
Lemma loop_anatomy w o w' t :
  loop (S (List.length (glob_md (files w)))) state_ref w = (o, w', t) ->
  exists us wk t1 t2,
    rounds w us wk t1 /\ t = t1 ++ t2 /\
    round state_ref wk = (o, w', t2) /\ o <> Val None.
Proof.
  intros H. apply loop_rounds in H
    as (us & wk & t1 & t2 & Hrs & -> & [(-> & -> & -> & Hlen)|Hend]).
  - exfalso. destruct us as [|u us]; [discriminate|].
    destruct (rounds_first_done _ _ _ _ _ Hrs) as [d Hd].
    destruct (rounds_facts _ _ _ _ Hrs) as (_ & _ & _ & _ & _ & _ & Hdone & _).
    destruct (Hdone _ Hd) as (_ & Hle & _).
    pose proof (pending_length d (sorted (glob_md (files w)))) as Hp.
    rewrite sorted_length in Hp. lia.
  - destruct Hend as (Hr & Hstop). exists us, wk, t1, t2. auto.
Qed.

(** The three ways [main] can go; in the third, [w0] is the world
    [load_state] leaves, with the stored state in memory. *)
Lemma main_cases w o w' t :
  main w = (o, w', t) ->
  (specs_dir (files w) = None /\
   o = SysExit 1 /\ w' = w /\ t = [EvPrint (MsgSpecsNotFound SPECS_DIR)]) \/
  (exists e,
     stored (state_file (files w)) = Raise e /\ o = Exc e /\ w' = w /\ t = []) \/
  (exists w0,
     files w0 = files w /\ procs w0 = procs w /\ in_sync w0 /\
     load_state w = (Val state_ref, w0, []) /\
     loop (S (List.length (glob_md (files w0)))) state_ref w0 = (o, w', t)).
Proof.
  unfold main. destruct (specs_dir (files w)) as [entries|] eqn:Hs.
  - unfold bind.
    destruct (load_state_cases w) as [(st & Hst & ->)|(e & He & ->)].
    + set (w0 := World (files w) (procs w) (calls w) st).
      destruct (loop _ state_ref w0) as [[o1 w1] t1] eqn:Hl.
      intros [= <- <- <-]. right. right. exists w0.
      repeat apply conj; auto.
      eapply stored_well_formed; eassumption.
    + intros [= <- <- <-]. right. left. exists e. auto.
  - cbn. intros [= <- <- <-]. left. auto.
Qed.

(** [main] returns through one of its three [return]s, dies from an
    exception or leaves through [sys.exit]: its rounds are never used up. *)
Theorem main_returns w : fst (fst (main w)) <> Val None.
Proof.
  destruct (main w) as [[o w'] t] eqn:E. cbn.
  destruct (main_cases _ _ _ _ E)
    as [(_ & -> & _)|[(e & _ & -> & _)|(w0 & _ & _ & _ & _ & Hl)]];
    try discriminate.
  now apply loop_anatomy in Hl as (us & wk & t1 & t2 & _ & _ & _ & Hs).
Qed.

(** C5: in a run, every write to the state file holds the done list of the
    state before it with exactly one new unit appended, a unit that was not
    in it; the file ends up holding the last text written, and is left alone
    when nothing is written. *)
Theorem completed_set_only_grows (w : world) o w' t :
  main w = (o, w', t) ->
  state_file (files w') = last_write (state_file (files w)) (writes t) /\
  (writes t = [] \/
   exists st0 d0,
     stored (state_file (files w)) = Ok st0 /\
     getitem st0 "done" = Ok (VList d0) /\
     grows d0 (writes t)).
Proof.
  intros H.
  destruct (main_cases _ _ _ _ H)
    as [(_ & _ & -> & ->)|[(e & _ & _ & -> & ->)
                          |(w0 & Hf0 & _ & Hsync & _ & Hl)]];
    [cbn; auto | cbn; auto |].
  apply loop_anatomy in Hl as (us & wk & t1 & t2 & Hrs & -> & Hr & Hstop).
  destruct (stopping_round _ _ _ _ Hr Hstop) as (Hf & _ & _ & Hw2 & _).
  destruct (rounds_facts _ _ _ _ Hrs)
    as (_ & _ & _ & Hfile & Hlen & _ & Hdone & _).
  rewrite writes_app, Hw2, List.app_nil_r, Hf, <- Hf0. split; [exact Hfile|].
  destruct us as [|u us].
  - left. now apply length_zero_iff_nil.
  - right. destruct (rounds_first_done _ _ _ _ _ Hrs) as [d Hd].
    exists (heap w0), d. repeat apply conj; auto.
    + apply Hsync.
    + apply (Hdone _ Hd). apply Hsync.
Qed.

(** C4: a run in which some process exits with a status other than 0 (the
    agent or a verification command) ends there, through the agent-failed or
    the verification-failed [return].  The unit it was working on is the last
    one announced; nothing is written after the announcement, so the state
    file is what it was when the unit was taken up; and a run started on the
    files it leaves selects that same unit first. *)
Theorem failed_unit_is_not_marked (w : world) o w' t :
  main w = (o, w', t) ->
  existsb exit_failed t = true ->
  (o = Val (Some ClaudeFailed) \/ o = Val (Some VerifyFailed)) /\
  exists t1 u t2,
    t = t1 ++ EvPrint (MsgProcessing u) :: t2 /\
    no_announce t2 = true /\ writes t2 = [] /\
    state_file (files w') = last_write (state_file (files w)) (writes t1) /\
    ~ recorded (state_file (files w')) u /\
    forall w2,
      files w2 = files w' ->
      exists w3,
        load_state w2 = (Val state_ref, w3, []) /\
        (done <- subscript state_ref "done" ;; get_next_spec done) w3
        = (Val (Some u), w3, []).
Proof.
  intros H Hfail.
  destruct (main_cases _ _ _ _ H)
    as [(_ & _ & _ & ->)|[(e & _ & _ & _ & ->)
                         |(w0 & Hf0 & _ & Hsync & _ & Hl)]];
    [discriminate | discriminate |].
  apply loop_anatomy in Hl as (us & wk & t1 & t2 & Hrs & -> & Hr & Hstop).
  destruct (stopping_round _ _ _ _ Hr Hstop)
    as (Hf & _ & _ & Hw2 & _ & Hx & Hsel).
  destruct (rounds_facts _ _ _ _ Hrs)
    as (Hspecs & _ & Hx1 & Hfile & _ & _ & _ & Hsynck).
  rewrite existsb_app, Hx1 in Hfail. cbn [orb] in Hfail.
  apply Hx in Hfail.
  split; [exact Hfail|].
  destruct (Hsel Hfail) as (done & u & t' & Hd & Hu & -> & Hn).
  destruct (Hsynck Hsync) as [_ Hk].
  exists t1, u, t'. repeat apply conj; auto.
  - rewrite Hf, <- Hf0. exact Hfile.
  - intros (st & done' & Hs & Hd' & Hc).
    rewrite Hf, Hk in Hs. injection Hs as <-.
    rewrite Hd in Hd'. injection Hd' as <-.
    apply first_pending_some in Hu as [_ Hu]. congruence.
  - intros w2 Hw2f.
    destruct (load_state_cases w2) as [(st & Hst & Hload)|(e & He & _)];
      rewrite Hw2f, Hf, Hk in *; [|discriminate].
    injection Hst as <-.
    eexists. split; [exact Hload|].
    unfold bind. rewrite subscript_done. cbn [heap]. rewrite Hd.
    erewrite get_next_spec_done by (cbn [heap]; exact Hd).
    cbn [files]. rewrite Hu. reflexivity.
Qed.

(** What one run does to the record of done units. *)
Lemma run_summary w o w' t st0 d0 :
  main w = (o, w', t) ->
  stored (state_file (files w)) = Ok st0 ->
  getitem st0 "done" = Ok (VList d0) ->
  exists us st',
    stored (state_file (files w')) = Ok st' /\
    getitem st' "done" = Ok (VList (d0 ++ map VStr us)) /\
    forall v, succeeded v t <-> In v us.
Proof.
  intros H Hst0 Hd0.
  destruct (main_cases _ _ _ _ H)
    as [(_ & _ & -> & ->)|[(e & He & _)|(w0 & Hf0 & _ & Hsync & _ & Hl)]].
  - exists [], st0. rewrite List.app_nil_r.
    split; [exact Hst0|]. split; [exact Hd0|].
    intros v. split; [discriminate | intros []].
  - congruence.
  - pose proof Hsync as [_ Hst]. rewrite Hf0, Hst0 in Hst. injection Hst as ->.
    apply loop_anatomy in Hl as (us & wk & t1 & t2 & Hrs & -> & Hr & Hstop).
    destruct (stopping_round _ _ _ _ Hr Hstop) as (Hf & _ & _ & _ & Hnone & _).
    destruct (rounds_facts _ _ _ _ Hrs)
      as (_ & _ & _ & _ & _ & Hpass & Hdone & Hsynck).
    destruct (Hdone _ Hd0) as (Hdk & _).
    exists us, (heap wk). repeat apply conj.
    + rewrite Hf. apply Hsynck, Hsync.
    + exact Hdk.
    + intros v. unfold succeeded.
      rewrite milestones_app, Hpass, Hnone by eauto.
      rewrite orb_false_r, existsb_exists. split.
      * intros (x & Hx & E). apply String.eqb_eq in E. now subst.
      * intros Hin. exists v. split; [exact Hin | apply String.eqb_refl].
Qed.

Lemma in_map_VStr u us : In (VStr u) (map VStr us) <-> In u us.
Proof.
  rewrite in_map_iff. split.
  - intros (x & [= ->] & H). exact H.
  - intros H. eauto.
Qed.

(** C6: in a state file reached from no state file through runs of [main], a
    unit is recorded as done exactly when one of those runs saw, for that
    unit, the agent exit with 0 and then every verification command exit
    with 0. *)
Theorem recorded_iff_succeeded (sf : option string) (hist : list trace) :
  reachable sf hist ->
  forall u, recorded sf u <-> exists t, In t hist /\ succeeded u t.
Proof.
  intros H.
  assert (G : exists st d,
             stored sf = Ok st /\ getitem st "done" = Ok (VList d) /\
             forall u, In (VStr u) d <-> exists t, In t hist /\ succeeded u t).
  { induction H as [|sf hist w o w' t Hreach (st & d & Hst & Hd & IH) Hsf Hmain].
    - exists (VDict [("done", VList [])]), [].
      split; [reflexivity|]. split; [reflexivity|].
      intros u. split; [intros [] | intros (t & [] & _)].
    - subst sf.
      destruct (run_summary _ _ _ _ _ _ Hmain Hst Hd) as (us & st' & Hst' & Hd' & Hus).
      exists st', (d ++ map VStr us).
      split; [exact Hst'|]. split; [exact Hd'|]. intros u. split.
      + intros Hin. apply in_app_or in Hin as [Hin|Hin].
        * apply IH in Hin as (t0 & Ht0 & Hs). exists t0.
          split; [apply in_or_app; auto | exact Hs].
        * apply in_map_VStr, Hus in Hin. exists t.
          split; [apply in_or_app; simpl; auto | exact Hin].
      + intros (t0 & Ht0 & Hs). apply in_or_app.
        apply in_app_or in Ht0 as [Ht0|[<-|[]]].
        * left. apply IH. eauto.
        * right. apply in_map_VStr, Hus, Hs. }
  destruct G as (st & d & Hst & Hd & G). intros u. rewrite <- G.
  unfold recorded. split.
  - intros (st' & done & Hst' & Hd' & Hc).
    rewrite Hst in Hst'. injection Hst' as <-.
    rewrite Hd in Hd'. injection Hd' as <-. now apply contains_list.
  - intros Hin. exists st, (VList d). repeat apply conj; auto.
    now apply contains_list.
Qed.




Lemma completed_set_only_grows_witness :
  let r := main fresh_world in
  let o := fst (fst r) in let w' := snd (fst r) in let t := snd r in
  main fresh_world = (o, w', t) /\
  state_file (files w')
  = last_write (state_file (files fresh_world)) (writes t) /\
  (writes t = [] \/
   exists st0 d0,
     stored (state_file (files fresh_world)) = Ok st0 /\
     getitem st0 "done" = Ok (VList d0) /\
     grows d0 (writes t)).
Proof.
  split; [reflexivity|].
  apply (completed_set_only_grows fresh_world
           (fst (fst (main fresh_world))) (snd (fst (main fresh_world)))
           (snd (main fresh_world))).
  reflexivity.
Defined.

Lemma failed_unit_is_not_marked_witness :
  let r := main failing_world in
  let o := fst (fst r) in let w' := snd (fst r) in let t := snd r in
  (main failing_world = (o, w', t) /\ existsb exit_failed t = true) /\
  (o = Val (Some ClaudeFailed) \/ o = Val (Some VerifyFailed)) /\
  exists t1 u t2,
    t = t1 ++ EvPrint (MsgProcessing u) :: t2 /\
    no_announce t2 = true /\ writes t2 = [] /\
    state_file (files w')
    = last_write (state_file (files failing_world)) (writes t1) /\
    ~ recorded (state_file (files w')) u /\
    forall w2,
      files w2 = files w' ->
      exists w3,
        load_state w2 = (Val state_ref, w3, []) /\
        (done <- subscript state_ref "done" ;; get_next_spec done) w3
        = (Val (Some u), w3, []).
Proof.
  split; [split; reflexivity|].
  apply (failed_unit_is_not_marked failing_world
           (fst (fst (main failing_world))) (snd (fst (main failing_world)))
           (snd (main failing_world))); reflexivity.
Defined.

Lemma recorded_iff_succeeded_witness :
  let sf := state_file (files (snd (fst (main fresh_world)))) in
  let hist := [] ++ [snd (main fresh_world)] in
  reachable sf hist /\
  forall u, recorded sf u <-> exists t, In t hist /\ succeeded u t.
Proof.
  assert (H : reachable
                (state_file (files (snd (fst (main fresh_world)))))
                ([] ++ [snd (main fresh_world)])).
  { apply (reach_run None [] fresh_world (fst (fst (main fresh_world))));
      [constructor | reflexivity | reflexivity]. }
  split; [exact H | exact (recorded_iff_succeeded _ _ H)].
Defined.



(** *** Saving cut short *)

(** C1 fails as stated: stopped right after the state file is opened for
    writing, [save_state] leaves it empty, and loading it gives neither the
    state from before the commit nor the one after it but a decode error. *)
Lemma save_state_cut_leaves_unreadable_file :
  let f := Fs (Some two_specs) (Some (dumps a_done)) in
  let f' := save_state_cut ab_done 1 f in
  stored (state_file f) = Ok a_done /\
  state_file f' = Some EmptyString /\
  stored (state_file f') = Raise JSONDecodeError /\
  ~ (stored (state_file f') = Ok a_done \/ stored (state_file f') = Ok ab_done).
Proof.
  cbv zeta. repeat apply conj; try reflexivity.
  intros [H|H]; discriminate H.
Qed.

Lemma take_all s n : String.length s <= n -> take n s = s.
Proof.
  revert n. induction s as [|c s IH]; intros [|n] H; simpl in *; try reflexivity.
  - lia.
  - now rewrite IH by lia.
Qed.

(** C1, amended: [save_state] cut short leaves the state file untouched
    (stopped before the file is opened), holding the whole new text (all of
    it written) or holding a proper beginning of it, the empty text
    included.  Loading then gives what it gave before the commit, the state
    being saved, or the decode error of [json.loads]: never a state that is
    neither of the two.  [save_state] run to its end is the cut after the
    last character. *)
Theorem save_state_cut_outcomes (f : fs) (d : list (string * value)) (k : nat) :
  well_formed (VDict d) = true ->
  let st := VDict d in
  let f' := save_state_cut st k f in
  specs_dir f' = specs_dir f /\
  match k with
  | O => f' = f
  | S n =>
      if Nat.ltb n (String.length (dumps st))
      then state_file f' = Some (take n (dumps st)) /\
           stored (state_file f') = Raise JSONDecodeError
      else state_file f' = Some (dumps st) /\
           stored (state_file f') = Ok st
  end /\
  (stored (state_file f') = stored (state_file f) \/
   stored (state_file f') = Ok st \/
   stored (state_file f') = Raise JSONDecodeError) /\
  forall w,
    files w = f -> heap w = st ->
    files (snd (fst (save_state state_ref w)))
    = save_state_cut st (S (String.length (dumps st))) f.
Proof.
  intros Hwf st f'. subst f'. unfold save_state_cut.
  destruct k as [|n]; cbn [write_text_cut specs_dir state_file].
  - repeat apply conj; auto.
    intros w <- Hh. cbn. rewrite Hh. now rewrite take_all.
  - destruct (Nat.ltb_spec n (String.length (dumps st))) as [Hlt|Hge].
    + assert (E : stored (Some (take n (dumps st))) = Raise JSONDecodeError)
        by (apply loads_cut_dict; assumption).
      repeat apply conj; auto.
      intros w <- Hh. cbn. rewrite Hh. now rewrite take_all.
    + rewrite take_all by lia.
      assert (E : stored (Some (dumps st)) = Ok st)
        by (apply loads_dumps; assumption).
      repeat apply conj; auto.
      intros w <- Hh. cbn. rewrite Hh. now rewrite take_all.
Qed.

Lemma save_state_cut_outcomes_witness :
  let d := [("done", VList [VStr "01-a.md"; VStr "02-b.md"])] in
  let f := Fs (Some two_specs) (Some (dumps a_done)) in
  let k := 10 in
  well_formed (VDict d) = true /\
  let st := VDict d in
  let f' := save_state_cut st k f in
  specs_dir f' = specs_dir f /\
  match k with
  | O => f' = f
  | S n =>
      if Nat.ltb n (String.length (dumps st))
      then state_file f' = Some (take n (dumps st)) /\
           stored (state_file f') = Raise JSONDecodeError
      else state_file f' = Some (dumps st) /\
           stored (state_file f') = Ok st
  end /\
  (stored (state_file f') = stored (state_file f) \/
   stored (state_file f') = Ok st \/
   stored (state_file f') = Raise JSONDecodeError) /\
  forall w,
    files w = f -> heap w = st ->
    files (snd (fst (save_state state_ref w)))
    = save_state_cut st (S (String.length (dumps st))) f.
Proof.
  split; [reflexivity|].
  apply (save_state_cut_outcomes
           (Fs (Some two_specs) (Some (dumps a_done)))
           [("done", VList [VStr "01-a.md"; VStr "02-b.md"])] 10).
  reflexivity.
Defined.


(** *** Traces of the verification loop and of one round *)

Lemma announced_app a b : announced (a ++ b) = announced a ++ announced b.
Proof.
  induction a as [|[[]| | |] a IH]; simpl; auto. now rewrite IH.
Qed.

Lemma completed_units_app a b :
  completed_units (a ++ b) = completed_units a ++ completed_units b.
Proof.
  induction a as [|[[]| | |] a IH]; simpl; auto. now rewrite IH.
Qed.

Lemma commands_run_app a b :
  commands_run (a ++ b) = commands_run a ++ commands_run b.
Proof.
  induction a as [|[] a IH]; simpl; auto. now rewrite IH.
Qed.

Lemma no_announce_announced t : no_announce t = true -> announced t = [].
Proof.
  induction t as [|e t IH]; [reflexivity|].
  cbn [no_announce forallb]. intros H. apply andb_prop in H as [He Ht].
  destruct e as [[]| | |]; cbn [announced]; try discriminate; auto.
Qed.

(** What the verification loop leaves in the trace, whatever its outcome:
    the commands it started are a beginning of its list, all of it when it
    passes; no process is given an input. *)
Lemma verify_trace cmds : forall w o w' t,
  verify cmds w = (o, w', t) ->
  completed_units t = [] /\
  (forall c i r, ~ In (EvRun c (Some i) r) t) /\
  (exists pre post,
     cmds = pre ++ post /\ commands_run t = pre /\
     (o = Val true -> post = [])) /\
  (always_pass (procs w) -> o = Val true).
Proof.
  induction cmds as [|c cmds IH]; intros w o w' t; cbn [verify].
  - intros [= <- <- <-]. cbn. repeat apply conj; auto.
    exists [], []. auto.
  - unfold bind at 1. rewrite run_cmd_eq. cbv zeta.
    destruct (procs w (calls w) c None) as [p|e] eqn:Hp.
    2:{ intros [= <- <- <-]. cbn. repeat apply conj; auto.
        - intros c0 i r [H|[H|[]]]; discriminate.
        - exists [c], cmds. repeat apply conj; auto. discriminate.
        - intros Ha. destruct (Ha (calls w) c None) as (q & Hq & _).
          congruence. }
    cbn [fst]. destruct (returncode p =? 0)%Z eqn:Hrc; cbn [negb].
    + destruct (verify cmds _) as [[o1 w1] t1] eqn:E. intros [= <- <- <-].
      destruct (IH _ _ _ _ E)
        as (Hc & Hi & (pre & post & -> & Hr & Hpost) & Ha).
      cbn [app completed_units commands_run]. repeat apply conj; auto.
      * intros c0 i r [H|[H|[H|H]]]; try discriminate. eapply Hi, H.
      * exists (c :: pre), post. rewrite Hr. auto.
    + cbn. intros [= <- <- <-]. cbn. repeat apply conj; auto.
      * intros c0 i r [H|[H|[H|[H|[]]]]]; discriminate.
      * exists [c], cmds. repeat apply conj; auto. discriminate.
      * intros Ha. destruct (Ha (calls w) c None) as (q & Hq & Hq0).
        rewrite Hp in Hq. injection Hq as <-. rewrite Hq0 in Hrc. discriminate.
Qed.

Ltac verify_hyps :=
  try match goal with H : verify _ _ = _ |- _ =>
    let Hc := fresh "Hc" in let Hi := fresh "Hi" in
    let Hr := fresh "Hr" in let Ha := fresh "Ha" in
    let Hn := fresh "Hn" in let Hf := fresh "Hf" in
    destruct (verify_trace _ _ _ _ _ H) as (Hc & Hi & Hr & Ha);
    destruct (verify_facts _ _ _ _ _ H) as (Hf & _ & _ & Hn & _);
    apply no_announce_announced in Hn
  end.

(** A round announces at most one unit, the one [get_next_spec] returned. *)
Lemma round_announced w o w' t :
  round_path w o w' t ->
  specs_dir (files w') = specs_dir (files w) /\
  (announced t = [] \/
   exists done u,
     getitem (heap w) "done" = Ok done /\
     first_pending done (sorted (glob_md (files w))) = Ok (Some u) /\
     announced t = [u]).
Proof.
  intros H. inversion H; subst; clear H; verify_hyps;
    rewrite ?Hf; (split; [reflexivity|]); auto;
    right; exists done, u; repeat apply conj; auto;
    rewrite ?announced_app; cbn [agent_events announced app];
    rewrite ?announced_app, ?Hn; reflexivity.
Qed.

(** The unit of a round is reported completed exactly when the round goes
    on to the next. *)
Lemma round_completed w o w' t :
  round_path w o w' t ->
  completed_units t = match o with Val None => announced t | _ => [] end.
Proof.
  intros H. inversion H; subst; clear H; verify_hyps;
    rewrite ?completed_units_app, ?announced_app;
    cbn [agent_events announced completed_units app];
    rewrite ?completed_units_app, ?announced_app, ?Hn, ?Hc; reflexivity.
Qed.

(** The processes of a round: a beginning of [unit_commands], all of it in
    a round that goes on to the next. *)
Lemma round_commands w o w' t :
  round_path w o w' t ->
  exists pre post,
    unit_commands = pre ++ post /\ commands_run t = pre /\
    (o = Val None -> post = []).
Proof.
  intros H. inversion H; subst; clear H; verify_hyps;
    try (exists [], unit_commands; repeat apply conj; auto; discriminate);
    try (exists [claude_cmd], VERIFY_COMMANDS;
         rewrite ?commands_run_app; repeat apply conj; auto; discriminate);
    destruct Hr as (pre & post & E & Hr & Hpost);
    exists (claude_cmd :: pre), post; unfold unit_commands; rewrite E;
    rewrite !commands_run_app; cbn [agent_events commands_run app];
    rewrite ?commands_run_app, Hr; cbn [commands_run];
    rewrite ?List.app_nil_r; repeat apply conj; auto; try discriminate.
Qed.

(** Only the agent is given an input, and it is the prompt made from the
    text of the unit the round announced. *)
Lemma round_stdin w o w' t :
  round_path w o w' t ->
  forall c i r,
    In (EvRun c (Some i) r) t ->
    c = claude_cmd /\
    exists u text,
      announced t = [u] /\ read_spec u w = (Val text, w, []) /\
      i = make_prompt text.
Proof.
  intros H. inversion H; subst; clear H; verify_hyps; intros c i r Hin;
    repeat (apply in_app_or in Hin as [Hin|Hin]);
    cbn [agent_events In] in Hin;
    try (exfalso; eapply Hi; exact Hin);
    repeat (destruct Hin as [Hin|Hin]); try discriminate; try contradiction;
    injection Hin as <- <- <-; (split; [reflexivity|]); exists u, text;
    rewrite ?announced_app; cbn [agent_events announced app];
    rewrite ?announced_app, ?Hn; auto.
Qed.

(** A round whose unit cannot be read ends in [OSError] right after the
    announcement. *)
Lemma round_unreadable w o w' t u :
  round_path w o w' t ->
  In u (announced t) ->
  fst (fst (read_spec u w)) = Exc OSError ->
  o = Exc OSError /\ t = [EvPrint (MsgProcessing u)].
Proof.
  intros H. inversion H; subst; clear H; verify_hyps;
    rewrite ?announced_app; cbn [agent_events announced app];
    rewrite ?announced_app, ?Hn; cbn [app In];
    intros Hin Hread; try contradiction;
    destruct Hin as [<-|[]];
    try match goal with H : read_spec _ _ = _ |- _ =>
      rewrite H in Hread; discriminate end.
  auto.
Qed.

(** With every process exiting with 0, every unit readable and a list
    under ["done"], a round goes on to the next or finds nothing left. *)
Lemma round_all_pass w o w' t :
  round_path w o w' t ->
  always_pass (procs w) ->
  (forall u, In u (glob_md (files w)) ->
     exists text, read_spec u w = (Val text, w, [])) ->
  (exists d, getitem (heap w) "done" = Ok (VList d)) ->
  o = Val None \/ o = Val (Some AllCompleted).
Proof.
  intros H Hpass Hread [d Hd].
  inversion H; subst; clear H; verify_hyps; auto; exfalso;
    try match goal with H : getitem _ _ = _ |- _ =>
      rewrite Hd in H; try discriminate; injection H as <- end;
    try match goal with H : first_pending _ _ = Ok (Some _) |- _ =>
      pose proof (first_pending_some _ _ _ H) as [Hin _];
      apply (Permutation_in _ (sorted_perm _)) in Hin;
      destruct (Hread _ Hin) as [text' Hr'] end;
    try match goal with H : procs _ _ _ _ = _ |- _ =>
      destruct (Hpass (calls w) claude_cmd (Some (make_prompt text)))
        as (q & Hq & Hq0); rewrite H in Hq; try discriminate;
      injection Hq as <- end;
    try congruence;
    try (specialize (Ha Hpass); discriminate).
  match goal with H : first_pending (VList ?l) ?s = Raise _ |- _ =>
    destruct (first_pending_list l s) as (r & Hr' & _) end.
  congruence.
Qed.

(** *** Traces of the marking rounds *)

Lemma read_spec_files u w1 w2 :
  specs_dir (files w1) = specs_dir (files w2) ->
  fst (fst (read_spec u w1)) = fst (fst (read_spec u w2)).
Proof.
  unfold read_spec. intros ->.
  destruct (specs_dir (files w2)) as [entries|]; [|reflexivity].
  destruct (find _ entries) as [[n [text|]]|]; reflexivity.
Qed.

Lemma sorted_after (R : string -> string -> Prop) before u after x :
  StronglySorted R (before ++ u :: after) -> In x after -> R u x.
Proof.
  induction before as [|b before IH]; cbn [app]; intros H Hx.
  - apply StronglySorted_inv in H as [_ H].
    now apply (proj1 (Forall_forall _ _) H).
  - apply StronglySorted_inv in H as [H _]. auto.
Qed.

(** What a sequence of marking rounds leaves in the trace. *)
Lemma rounds_units w us w' t :
  rounds w us w' t ->
  announced t = us /\ completed_units t = us /\
  commands_run t = List.concat (List.repeat unit_commands (List.length us)) /\
  (forall c i r,
     In (EvRun c (Some i) r) t ->
     c = claude_cmd /\
     exists u text,
       In u us /\ fst (fst (read_spec u w)) = Val text /\
       i = make_prompt text) /\
  (forall u, In u us -> fst (fst (read_spec u w)) <> Exc OSError) /\
  (forall d, getitem (heap w) "done" = Ok (VList d) ->
     Forall (fun u => ~ In (VStr u) d /\
                      In u (sorted (glob_md (files w)))) us /\
     StronglySorted lt_name us).
Proof.
  induction 1 as [w | w done u w1 t1 us w2 t2 Hr Hd Hu Hrs IH].
  - cbn. repeat apply conj; auto; try contradiction.
    intros d _. split; constructor.
  - destruct IH as (Ha & Hc & Hcmd & Hin & Hread & Hfresh).
    destruct (marked_round _ _ _ Hr)
      as (d & u' & Hd' & Hu' & Hinu & Hnot & _ & Hd1 & Hf1 & _).
    rewrite Hd in Hd'. injection Hd' as ->.
    rewrite Hu in Hu'. injection Hu' as <-.
    assert (Hspecs : specs_dir (files w1) = specs_dir (files w))
      by now rewrite Hf1.
    assert (Hglob : glob_md (files w1) = glob_md (files w))
      by (unfold glob_md; now rewrite Hspecs).
    pose proof (round_paths _ _ _ _ Hr) as Hp.
    destruct (round_announced _ _ _ _ Hp)
      as (_ & [Hnone|(done' & u' & Hd' & Hu' & Hau)]).
    { exfalso. revert Hnone. inversion Hp; discriminate. }
    rewrite Hd in Hd'. injection Hd' as <-.
    rewrite Hu in Hu'. injection Hu' as <-.
    pose proof (round_completed _ _ _ _ Hp) as Hcu. cbn in Hcu.
    rewrite Hau in Hcu.
    destruct (round_commands _ _ _ _ Hp) as (pre & post & E & Hpre & Hpost).
    rewrite (Hpost eq_refl), List.app_nil_r in E. subst pre.
    destruct (Hfresh _ Hd1) as (Hall & Hsorted). rewrite Hglob in Hall.
    repeat apply conj.
    + rewrite announced_app, Hau, Ha. reflexivity.
    + rewrite completed_units_app, Hcu, Hc. reflexivity.
    + rewrite commands_run_app, Hpre, Hcmd. reflexivity.
    + intros c i r Hi. apply in_app_or in Hi as [Hi|Hi].
      * destruct (round_stdin _ _ _ _ Hp _ _ _ Hi)
          as (-> & u0 & text & Hu0 & Hr0 & ->).
        rewrite Hau in Hu0. injection Hu0 as <-.
        split; [reflexivity|]. exists u, text.
        rewrite Hr0. cbn. auto.
      * destruct (Hin _ _ _ Hi) as (-> & u0 & text & Hu0 & Hr0 & ->).
        split; [reflexivity|]. exists u0, text.
        rewrite <- (read_spec_files u0 w1 w Hspecs). cbn. auto.
    + intros u0 [<-|Hu0].
      * intros Hbad.
        destruct (round_unreadable _ _ _ _ u Hp) as [Ho _]; auto;
          [rewrite Hau; cbn; auto | discriminate].
      * rewrite <- (read_spec_files u0 w1 w Hspecs). auto.
    + intros d0 Hd0. rewrite Hd in Hd0. injection Hd0 as <-.
      assert (Hlater : forall x, In x us -> lt_name u x).
      { intros x Hx.
        apply (proj1 (Forall_forall _ _) Hall) in Hx as [Hxd Hxs].
        assert (Hne : u <> x).
        { intros <-. apply Hxd, in_or_app. cbn. auto. }
        split; [|exact Hne].
        destruct (first_pending_list d (sorted (glob_md (files w))))
          as (r & Hr' & Hshape).
        rewrite Hu in Hr'. injection Hr' as <-.
        destruct Hshape as (before & after & E & Hb & _).
        eapply (sorted_after le_name before u after).
        - rewrite <- E. apply sorted_sorted.
        - rewrite E in Hxs. apply in_app_or in Hxs as [Hxs|[Hxs|Hxs]]; auto.
          + exfalso. apply Hxd, in_or_app. auto.
          + contradiction. }
      split.
      * constructor; [auto|].
        eapply Forall_impl; [|exact Hall]. cbn.
        intros x [Hx1 Hx2]. split; [|exact Hx2].
        intros Hx. apply Hx1, in_or_app. auto.
      * constructor; [exact Hsorted|]. now apply Forall_forall.
Qed.

(** *** The anatomy of a run *)

Lemma round_never_exits w o w' t :
  round_path w o w' t -> (exists h, o = Val h) \/ (exists e, o = Exc e).
Proof. intros H. inversion H; subst; eauto. Qed.

(** A run stops for want of a specs directory, dies reading the state file,
    or goes through marking rounds to one last round. *)
Lemma main_anatomy w o w' t :
  main w = (o, w', t) ->
  (specs_dir (files w) = None /\
   o = SysExit 1 /\ w' = w /\ t = [EvPrint (MsgSpecsNotFound SPECS_DIR)]) \/
  (specs_dir (files w) <> None /\
   exists e,
     stored (state_file (files w)) = Raise e /\ o = Exc e /\ w' = w /\
     t = []) \/
  (specs_dir (files w) <> None /\
   exists w0 us wk t1 t2,
     files w0 = files w /\ procs w0 = procs w /\ in_sync w0 /\
     rounds w0 us wk t1 /\ in_sync wk /\
     specs_dir (files wk) = specs_dir (files w) /\ procs wk = procs w /\
     t = t1 ++ t2 /\ round state_ref wk = (o, w', t2) /\ o <> Val None).
Proof.
  intros H. destruct (specs_dir (files w)) as [entries|] eqn:Hs.
  - right.
    destruct (main_cases _ _ _ _ H)
      as [(Hnone & _)|[(e & He & -> & -> & ->)
                      |(w0 & Hf0 & Hp0 & Hsync & _ & Hl)]].
    + congruence.
    + left. split; [discriminate|]. exists e. auto.
    + right. split; [discriminate|].
      apply loop_anatomy in Hl as (us & wk & t1 & t2 & Hrs & -> & Hr & Hstop).
      destruct (rounds_facts _ _ _ _ Hrs)
        as (Hspecs & Hprocs & _ & _ & _ & _ & _ & Hsynck).
      exists w0, us, wk, t1, t2.
      repeat apply conj; auto; try congruence;
        try apply Hsync; apply (Hsynck Hsync).
  - left. unfold main in H. rewrite Hs in H. cbn in H.
    injection H as <- <- <-. auto.
Qed.

Lemma rounds_nil_inv w w' t : rounds w [] w' t -> w' = w /\ t = [].
Proof. inversion 1; subst; auto. Qed.

(** What is in the done collection stays in it through the marking
    rounds. *)
Lemma rounds_keep_done w us w' t done u :
  rounds w us w' t ->
  getitem (heap w) "done" = Ok done ->
  contains u done = Ok true ->
  exists done', getitem (heap w') "done" = Ok done' /\
                contains u done' = Ok true.
Proof.
  intros Hrs Hd Hc. destruct us as [|u0 us].
  - apply rounds_nil_inv in Hrs as [-> _]. eauto.
  - destruct (rounds_first_done _ _ _ _ _ Hrs) as [d Hd'].
    rewrite Hd in Hd'. injection Hd' as ->.
    destruct (rounds_facts _ _ _ _ Hrs) as (_ & _ & _ & _ & _ & _ & Hdone & _).
    destruct (Hdone _ Hd) as (Hd' & _).
    eexists. split; [exact Hd'|].
    apply contains_list, in_or_app. left. now apply contains_list.
Qed.

Lemma glob_md_ends u f : In u (glob_md f) -> ends_with ".md" u = true.
Proof.
  unfold glob_md. destruct (specs_dir f); [|contradiction].
  intros H. now apply filter_In in H.
Qed.

Lemma glob_md_files f1 f2 :
  specs_dir f1 = specs_dir f2 -> glob_md f1 = glob_md f2.
Proof. unfold glob_md. now intros ->. Qed.

Lemma in_sorted u l : In u (sorted l) <-> In u l.
Proof.
  split; apply Permutation_in;
    [apply sorted_perm | apply Permutation_sym, sorted_perm].
Qed.

Lemma first_pending_none done specs :
  first_pending done specs = Ok None ->
  forall u, In u specs -> contains u done = Ok true.
Proof.
  induction specs as [|s specs IH]; simpl; [contradiction|].
  destruct (contains s done) as [[|]|e] eqn:E; try discriminate.
  intros H u [<-|Hu]; auto.
Qed.

Lemma read_spec_val u w text :
  fst (fst (read_spec u w)) = Val text -> read_spec u w = (Val text, w, []).
Proof.
  destruct (read_spec_cases u w) as [E|(text' & E)]; rewrite E; cbn;
    congruence.
Qed.

(** *** The state file between runs *)

(** X1: [save_state] followed by [load_state] gives back the state that was
    in memory: the file then holds a text [json.loads] reads as that very
    state, whatever else it holds besides ["done"]; the specs directory is
    left alone. *)
Theorem save_state_then_load_state (w : world) :
  well_formed (heap w) = true ->
  exists w1,
    save_state state_ref w
    = (Val tt, w1, [EvWrite STATE_FILE (dumps (heap w))]) /\
    specs_dir (files w1) = specs_dir (files w) /\
    heap w1 = heap w /\
    forall w2,
      files w2 = files w1 ->
      load_state w2
      = (Val state_ref, World (files w2) (procs w2) (calls w2) (heap w), []).
Proof.
  intros Hwf.
  exists (World (Fs (specs_dir (files w)) (Some (dumps (heap w))))
            (procs w) (calls w) (heap w)).
  repeat apply conj; try reflexivity.
  intros w2 Hf.
  destruct (load_state_cases w2) as [(st & Hst & ->)|(e & He & _)];
    rewrite Hf in *; cbn [files state_file stored] in *;
    rewrite (loads_dumps _ Hwf) in *; congruence.
Qed.

Lemma save_state_then_load_state_witness :
  let w := World (Fs (Some two_specs) None) all_pass 0 rich_state in
  well_formed (heap w) = true /\
  exists w1,
    save_state state_ref w
    = (Val tt, w1, [EvWrite STATE_FILE (dumps (heap w))]) /\
    specs_dir (files w1) = specs_dir (files w) /\
    heap w1 = heap w /\
    forall w2,
      files w2 = files w1 ->
      load_state w2
      = (Val state_ref, World (files w2) (procs w2) (calls w2) (heap w), []).
Proof.
  split; [reflexivity|].
  apply (save_state_then_load_state
           (World (Fs (Some two_specs) None) all_pass 0 rich_state)).
  reflexivity.
Defined.

(** X2: a run started on a state file that an interrupted [save_state] left
    with only a beginning of its text dies in [load_state] with
    [JSONDecodeError]: nothing is printed, no process is started and the
    file stays as it is, so every later run ends the same way. *)
Theorem main_after_cut_save (w : world) (f : fs)
    (d : list (string * value)) (n : nat) :
  well_formed (VDict d) = true ->
  n < String.length (dumps (VDict d)) ->
  specs_dir f <> None ->
  files w = save_state_cut (VDict d) (S n) f ->
  main w = (Exc JSONDecodeError, w, []).
Proof.
  intros Hwf Hn Hs Hf. unfold main. rewrite Hf.
  cbn [save_state_cut write_text_cut files specs_dir].
  destruct (specs_dir f) as [entries|]; [|congruence].
  unfold bind.
  destruct (load_state_cases w) as [(st & Hst & _)|(e & He & ->)];
    rewrite Hf in *; cbn [save_state_cut write_text_cut state_file stored] in *;
    rewrite (loads_cut_dict d n Hwf Hn) in *; [discriminate|].
  now injection He as <-.
Qed.

Lemma main_after_cut_save_witness :
  let f := Fs (Some two_specs) (Some (dumps a_done)) in
  let d := [("done", VList [VStr "01-a.md"; VStr "02-b.md"])] in
  let n := 17 in
  let w := World (save_state_cut (VDict d) (S n) f) all_pass 0 VNone in
  (well_formed (VDict d) = true /\
   n < String.length (dumps (VDict d)) /\
   specs_dir f <> None /\
   files w = save_state_cut (VDict d) (S n) f) /\
  main w = (Exc JSONDecodeError, w, []).
Proof.
  assert (H : specs_dir (Fs (Some two_specs) (Some (dumps a_done))) <> None)
    by discriminate.
  split; [repeat apply conj; [reflexivity | cbn; lia | exact H | reflexivity]|].
  apply (main_after_cut_save
           (World (save_state_cut
                     (VDict [("done", VList [VStr "01-a.md"; VStr "02-b.md"])])
                     18 (Fs (Some two_specs) (Some (dumps a_done))))
              all_pass 0 VNone)
           (Fs (Some two_specs) (Some (dumps a_done)))
           [("done", VList [VStr "01-a.md"; VStr "02-b.md"])] 17);
    [reflexivity | cbn; lia | exact H | reflexivity].
Defined.

(** X3: when the state file holds something without a ["done"] entry, a
    dict lacking the key ([KeyError]) or no dict at all ([TypeError]),
    [main] dies at [state["done"]] in its first round: nothing is printed,
    no process is started, nothing is written. *)
Theorem main_without_done_key (w : world) (st : value) (e : exn) :
  specs_dir (files w) <> None ->
  stored (state_file (files w)) = Ok st ->
  getitem st "done" = Raise e ->
  main w = (Exc e, World (files w) (procs w) (calls w) st, []) /\
  (e = KeyError \/ e = TypeError).
Proof.
  intros Hs Hst Hd. split.
  - unfold main. destruct (specs_dir (files w)); [|congruence].
    unfold bind at 1.
    destruct (load_state_cases w) as [(st' & Hst' & ->)|(e' & He & _)];
      [|congruence].
    rewrite Hst in Hst'. injection Hst' as <-.
    cbn [loop]. unfold bind at 1. unfold round. unfold bind at 1.
    rewrite subscript_done. cbn [heap]. rewrite Hd. reflexivity.
  - destruct st as [| | | | | |d]; cbn in Hd; try (injection Hd as <-; auto).
    destruct (dict_get "done" d); [discriminate|]. injection Hd as <-. auto.
Qed.

Lemma main_without_done_key_witness :
  let w := World (Fs (Some two_specs) (Some "{}")) all_pass 0 VNone in
  let st := VDict [] in
  let e := KeyError in
  (specs_dir (files w) <> None /\
   stored (state_file (files w)) = Ok st /\
   getitem st "done" = Raise e) /\
  main w = (Exc e, World (files w) (procs w) (calls w) st, []) /\
  (e = KeyError \/ e = TypeError).
Proof.
  assert (H : specs_dir (files (World (Fs (Some two_specs) (Some "{}"))
                                  all_pass 0 VNone)) <> None)
    by discriminate.
  split; [repeat apply conj; [exact H | reflexivity | reflexivity]|].
  apply (main_without_done_key
           (World (Fs (Some two_specs) (Some "{}")) all_pass 0 VNone)
           (VDict []) KeyError); [exact H | reflexivity | reflexivity].
Defined.

(** *** Whole runs *)

(** X4: a run announces at most as many units as the directory has [*.md]
    names, so [while True] ends: [main] always leaves through a [return],
    an exception or [sys.exit], never for want of rounds. *)
Theorem main_announces_at_most_every_spec (w : world) o w' t :
  main w = (o, w', t) ->
  o <> Val None /\
  List.length (announced t) <= List.length (glob_md (files w)).
Proof.
  intros H.
  destruct (main_anatomy _ _ _ _ H)
    as [(_ & -> & _ & ->)|[(_ & e & _ & -> & _ & ->)
       |(_ & w0 & us & wk & t1 & t2 & Hf0 & _ & _ & Hrs & _ & Hspecs & _
         & -> & Hr & Hstop)]];
    [split; [discriminate | cbn; lia] | split; [discriminate | cbn; lia] |].
  split; [exact Hstop|].
  destruct (rounds_units _ _ _ _ Hrs) as (Ha & _).
  destruct (rounds_facts _ _ _ _ Hrs) as (_ & _ & _ & _ & _ & _ & Hdone & _).
  rewrite announced_app, length_app, Ha, <- Hf0.
  assert (Hglob : glob_md (files wk) = glob_md (files w0))
    by (apply glob_md_files; congruence).
  pose proof (sorted_length (glob_md (files w0))) as Hlen.
  destruct (round_announced _ _ _ _ (round_paths _ _ _ _ Hr))
    as (_ & [-> | (done & u & Hd & Hu & ->)]); cbn [List.length].
  - destruct us as [|u0 us]; [cbn; lia|].
    destruct (rounds_first_done _ _ _ _ _ Hrs) as [d Hd].
    destruct (Hdone _ Hd) as (_ & Hle & _).
    pose proof (pending_length d (sorted (glob_md (files w0)))). lia.
  - rewrite Hglob in Hu.
    pose proof (first_pending_some _ _ _ Hu) as [Hin Hc].
    destruct us as [|u0 us].
    + destruct (sorted (glob_md (files w0))); [destruct Hin|].
      cbn in *. lia.
    + destruct (rounds_first_done _ _ _ _ _ Hrs) as [d Hd0].
      destruct (Hdone _ Hd0) as (Hdk & Hle & _).
      rewrite Hd in Hdk. injection Hdk as ->.
      pose proof (pending_length d (sorted (glob_md (files w0)))).
      assert (Hp : In u (pending (d ++ map VStr (u0 :: us))
                           (sorted (glob_md (files w0))))).
      { apply filter_In. split; [exact Hin|].
        unfold is_pending. cbn [map] in Hc |- *. now rewrite Hc. }
      destruct (pending (d ++ map VStr (u0 :: us))
                  (sorted (glob_md (files w0)))); [destruct Hp|].
      cbn [List.length] in *. lia.
Qed.

Lemma main_announces_at_most_every_spec_witness :
  let r := main failing_world in
  let o := fst (fst r) in let w' := snd (fst r) in let t := snd r in
  main failing_world = (o, w', t) /\
  o <> Val None /\
  List.length (announced t) <= List.length (glob_md (files failing_world)).
Proof.
  split; [reflexivity|].
  apply (main_announces_at_most_every_spec failing_world
           (fst (fst (main failing_world))) (snd (fst (main failing_world)))
           (snd (main failing_world))).
  reflexivity.
Defined.

(** X5: the exit status of a run.  When the agent or a verification command
    exits with a status other than 0, [main] returns and the process exits
    with 0 all the same; the status differs from 0 only when the specs
    directory is absent or an exception goes uncaught. *)
Theorem main_exit_status (w : world) o w' t :
  main w = (o, w', t) ->
  (existsb exit_failed t = true -> exit_status o = 0%Z) /\
  (exit_status o <> 0%Z <->
   specs_dir (files w) = None \/ exists e, o = Exc e).
Proof.
  intros H.
  destruct (main_anatomy _ _ _ _ H)
    as [(Hs & -> & _ & ->)|[(Hs & e & _ & -> & _ & ->)
       |(Hs & w0 & us & wk & t1 & t2 & _ & _ & _ & Hrs & _ & _ & _
         & -> & Hr & Hstop)]].
  - cbn. split; [discriminate|]. split; [auto | discriminate].
  - cbn. split; [discriminate|]. split; [eauto | discriminate].
  - destruct (rounds_facts _ _ _ _ Hrs) as (_ & _ & Hx1 & _).
    destruct (stopping_round _ _ _ _ Hr Hstop) as (_ & _ & _ & _ & _ & Hx & _).
    split.
    + rewrite existsb_app, Hx1. cbn [orb]. intros Hfail.
      apply Hx in Hfail as [-> | ->]; reflexivity.
    + destruct (round_never_exits _ _ _ _ (round_paths _ _ _ _ Hr))
        as [[h ->]|[e ->]]; cbn.
      * split; [congruence|]. intros [Hn|[e He]]; congruence.
      * split; [eauto | discriminate].
Qed.

Lemma main_exit_status_witness :
  let r := main failing_world in
  let o := fst (fst r) in let w' := snd (fst r) in let t := snd r in
  main failing_world = (o, w', t) /\
  (existsb exit_failed t = true -> exit_status o = 0%Z) /\
  (exit_status o <> 0%Z <->
   specs_dir (files failing_world) = None \/ exists e, o = Exc e).
Proof.
  split; [reflexivity|].
  apply (main_exit_status failing_world
           (fst (fst (main failing_world))) (snd (fst (main failing_world)))
           (snd (main failing_world))).
  reflexivity.
Defined.

(** X6: the units a run reports completed are names of the directory ending
    in [.md], in strictly ascending order: none is completed twice in a
    run. *)
Theorem units_completed_in_ascending_order (w : world) o w' t :
  main w = (o, w', t) ->
  StronglySorted lt_name (completed_units t) /\
  List.length (completed_units t) = List.length (writes t) /\
  forall u, In u (completed_units t) ->
            In u (glob_md (files w)) /\ ends_with ".md" u = true.
Proof.
  intros H.
  destruct (main_anatomy _ _ _ _ H)
    as [(_ & _ & _ & ->)|[(_ & e & _ & _ & _ & ->)
       |(_ & w0 & us & wk & t1 & t2 & Hf0 & _ & _ & Hrs & _ & _ & _
         & -> & Hr & Hstop)]];
    [cbn; repeat apply conj; [constructor | reflexivity | contradiction]
    |cbn; repeat apply conj; [constructor | reflexivity | contradiction] |].
  destruct (rounds_units _ _ _ _ Hrs) as (_ & Hc & _ & _ & _ & Hfresh).
  destruct (rounds_facts _ _ _ _ Hrs) as (_ & _ & _ & _ & Hlen & _).
  destruct (stopping_round _ _ _ _ Hr Hstop) as (_ & _ & _ & Hw2 & _).
  pose proof (round_completed _ _ _ _ (round_paths _ _ _ _ Hr)) as Hc2.
  assert (E : completed_units t2 = [])
    by (destruct o as [[h|]|e|c]; auto; now destruct Hstop).
  rewrite completed_units_app, writes_app, E, Hw2, Hc, !List.app_nil_r.
  split; [|split; [now rewrite Hlen|]].
  - destruct us as [|u0 us]; [constructor|].
    destruct (rounds_first_done _ _ _ _ _ Hrs) as [d Hd].
    apply (Hfresh _ Hd).
  - intros u Hu. destruct us as [|u0 us]; [destruct Hu|].
    destruct (rounds_first_done _ _ _ _ _ Hrs) as [d Hd].
    destruct (Hfresh _ Hd) as (Hall & _).
    destruct (proj1 (Forall_forall _ _) Hall _ Hu) as [_ Hin].
    apply (proj1 (in_sorted _ _)) in Hin. rewrite Hf0 in Hin.
    split; [exact Hin | eapply glob_md_ends; exact Hin].
Qed.

Lemma units_completed_in_ascending_order_witness :
  let r := main fresh_world in
  let o := fst (fst r) in let w' := snd (fst r) in let t := snd r in
  main fresh_world = (o, w', t) /\
  StronglySorted lt_name (completed_units t) /\
  List.length (completed_units t) = List.length (writes t) /\
  forall u, In u (completed_units t) ->
            In u (glob_md (files fresh_world)) /\ ends_with ".md" u = true.
Proof.
  split; [reflexivity|].
  apply (units_completed_in_ascending_order fresh_world
           (fst (fst (main fresh_world))) (snd (fst (main fresh_world)))
           (snd (main fresh_world))).
  reflexivity.
Defined.

(** X7: a run only takes up units that are pending when it starts: every
    unit it announces is a name of the directory ending in [.md] that the
    state file it started from does not record as done. *)
Theorem only_pending_units_are_announced (w : world) o w' t (u : string) :
  main w = (o, w', t) ->
  In u (announced t) ->
  In u (glob_md (files w)) /\ ends_with ".md" u = true /\
  ~ recorded (state_file (files w)) u.
Proof.
  intros H Hu.
  destruct (main_anatomy _ _ _ _ H)
    as [(_ & _ & _ & ->)|[(_ & e & _ & _ & _ & ->)
       |(_ & w0 & us & wk & t1 & t2 & Hf0 & _ & Hsync & Hrs & _ & Hspecs & _
         & -> & Hr & Hstop)]];
    [destruct Hu | destruct Hu |].
  destruct (rounds_units _ _ _ _ Hrs) as (Ha & _ & _ & _ & _ & Hfresh).
  assert (Hglob : glob_md (files wk) = glob_md (files w))
    by (apply glob_md_files; exact Hspecs).
  rewrite announced_app, Ha in Hu.
  assert (G : In u (glob_md (files w)) /\
              forall done, getitem (heap w0) "done" = Ok done ->
                           contains u done <> Ok true).
  { apply in_app_or in Hu as [Hu|Hu].
    - destruct us as [|u0 us]; [destruct Hu|].
      destruct (rounds_first_done _ _ _ _ _ Hrs) as [d Hd].
      destruct (Hfresh _ Hd) as (Hall & _).
      destruct (proj1 (Forall_forall _ _) Hall _ Hu) as [Hnot Hin].
      apply (proj1 (in_sorted _ _)) in Hin. rewrite Hf0 in Hin.
      split; [exact Hin|].
      intros done Hd'. rewrite Hd in Hd'. injection Hd' as <-.
      intros Hc. now apply contains_list in Hc.
    - destruct (round_announced _ _ _ _ (round_paths _ _ _ _ Hr))
        as (_ & [E | (donek & u' & Hdk & Hu' & E)]);
        rewrite E in Hu; [destruct Hu | destruct Hu as [<-|[]]].
      rewrite Hglob in Hu'.
      pose proof (first_pending_some _ _ _ Hu') as [Hin Hc].
      apply (proj1 (in_sorted _ _)) in Hin. split; [exact Hin|].
      intros done Hd Htrue.
      destruct (rounds_keep_done _ _ _ _ _ _ Hrs Hd Htrue)
        as (done' & Hd' & Hc').
      congruence. }
  destruct G as [Hin Hnot].
  repeat apply conj; [exact Hin | eapply glob_md_ends; exact Hin |].
  intros (st & done & Hst & Hd & Hc).
  destruct Hsync as [_ Hst0]. rewrite Hf0, Hst in Hst0. injection Hst0 as ->.
  exact (Hnot _ Hd Hc).
Qed.

Lemma only_pending_units_are_announced_witness :
  let r := main failing_world in
  let o := fst (fst r) in let w' := snd (fst r) in let t := snd r in
  let u := "02-b.md" in
  (main failing_world = (o, w', t) /\ In u (announced t)) /\
  In u (glob_md (files failing_world)) /\ ends_with ".md" u = true /\
  ~ recorded (state_file (files failing_world)) u.
Proof.
  split; [split; [reflexivity | cbn; auto]|].
  apply (only_pending_units_are_announced failing_world
           (fst (fst (main failing_world))) (snd (fst (main failing_world)))
           (snd (main failing_world)) "02-b.md");
    [reflexivity | cbn; auto].
Defined.

Lemma main_nothing_pending w st done :
  specs_dir (files w) <> None ->
  stored (state_file (files w)) = Ok st ->
  getitem st "done" = Ok done ->
  first_pending done (sorted (glob_md (files w))) = Ok None ->
  main w
  = (Val (Some AllCompleted), World (files w) (procs w) (calls w) st,
     [EvPrint MsgAllCompleted]).
Proof.
  intros Hs Hst Hd Hnone. unfold main.
  destruct (specs_dir (files w)); [|congruence].
  unfold bind at 1.
  destruct (load_state_cases w) as [(st' & Hst' & ->)|(e' & He & _)];
    [|congruence].
  rewrite Hst in Hst'. injection Hst' as <-.
  cbn [loop]. unfold bind at 1. unfold round. unfold bind at 1.
  rewrite subscript_done. cbn [heap]. rewrite Hd.
  unfold bind at 1.
  erewrite get_next_spec_done by (cbn [heap]; exact Hd).
  cbn [files]. rewrite Hnone. reflexivity.
Qed.

(** X8: a run that reports all specs completed leaves a state file that
    records every [*.md] name of the directory as done, and every later run
    on those files only prints that report again: it starts no process and
    writes nothing. *)
Theorem all_completed_is_final (w : world) w' t :
  main w = (Val (Some AllCompleted), w', t) ->
  (forall u, In u (glob_md (files w')) ->
             recorded (state_file (files w')) u) /\
  forall w2,
    files w2 = files w' ->
    exists w3,
      main w2 = (Val (Some AllCompleted), w3, [EvPrint MsgAllCompleted]) /\
      files w3 = files w2.
Proof.
  intros H.
  destruct (main_anatomy _ _ _ _ H)
    as [(_ & Ho & _)|[(_ & e & _ & Ho & _)
       |(Hs & w0 & us & wk & t1 & t2 & _ & _ & _ & _ & Hsync & Hspecs & _
         & -> & Hr & _)]];
    [discriminate | discriminate |].
  pose proof (round_paths _ _ _ _ Hr) as Hp.
  inversion Hp; subst.
  match goal with
  | Hd : getitem _ _ = Ok ?done, Hn : first_pending _ _ = Ok None |- _ =>
      pose proof (first_pending_none _ _ Hn) as Hall;
      destruct Hsync as [_ Hst]; split;
      [ intros u Hu; exists (heap w'), done;
        repeat apply conj; auto; apply Hall; now apply in_sorted
      | intros w2 Hf; eexists;
        split; [apply (main_nothing_pending w2 (heap w') done)|];
        rewrite ?Hf; auto; congruence ]
  end.
Qed.

Lemma all_completed_is_final_witness :
  let r := main fresh_world in
  let w' := snd (fst r) in let t := snd r in
  main fresh_world = (Val (Some AllCompleted), w', t) /\
  (forall u, In u (glob_md (files w')) ->
             recorded (state_file (files w')) u) /\
  forall w2,
    files w2 = files w' ->
    exists w3,
      main w2 = (Val (Some AllCompleted), w3, [EvPrint MsgAllCompleted]) /\
      files w3 = files w2.
Proof.
  split; [reflexivity|].
  apply (all_completed_is_final fresh_world (snd (fst (main fresh_world)))
           (snd (main fresh_world))).
  reflexivity.
Defined.

(** X9: the processes of a run, in order: for each state file write the
    agent and then the verification commands, then at most one more
    beginning of that sequence.  No other program is started. *)
Theorem commands_of_a_run (w : world) o w' t :
  main w = (o, w', t) ->
  exists last rest,
    commands_run t
    = List.concat (List.repeat unit_commands (List.length (writes t)))
      ++ last /\
    unit_commands = last ++ rest.
Proof.
  intros H.
  destruct (main_anatomy _ _ _ _ H)
    as [(_ & _ & _ & ->)|[(_ & e & _ & _ & _ & ->)
       |(_ & w0 & us & wk & t1 & t2 & _ & _ & _ & Hrs & _ & _ & _
         & -> & Hr & Hstop)]];
    [exists [], unit_commands; auto | exists [], unit_commands; auto |].
  destruct (rounds_units _ _ _ _ Hrs) as (_ & _ & Hcmd & _).
  destruct (rounds_facts _ _ _ _ Hrs) as (_ & _ & _ & _ & Hlen & _).
  destruct (stopping_round _ _ _ _ Hr Hstop) as (_ & _ & _ & Hw2 & _).
  destruct (round_commands _ _ _ _ (round_paths _ _ _ _ Hr))
    as (pre & post & E & Hpre & _).
  exists pre, post.
  rewrite commands_run_app, writes_app, Hw2, List.app_nil_r, Hlen, Hcmd, Hpre.
  auto.
Qed.

Lemma commands_of_a_run_witness :
  let r := main failing_world in
  let o := fst (fst r) in let w' := snd (fst r) in let t := snd r in
  main failing_world = (o, w', t) /\
  exists last rest,
    commands_run t
    = List.concat (List.repeat unit_commands (List.length (writes t)))
      ++ last /\
    unit_commands = last ++ rest.
Proof.
  split; [reflexivity|].
  apply (commands_of_a_run failing_world
           (fst (fst (main failing_world))) (snd (fst (main failing_world)))
           (snd (main failing_world))).
  reflexivity.
Defined.

Lemma append_inj_l p : forall a b, p +++ a = p +++ b -> a = b.
Proof.
  induction p as [|c p IH]; cbn; intros a b H; [exact H|].
  injection H as H. auto.
Qed.

Lemma append_inj_r c : forall a b, a +++ c = b +++ c -> a = b.
Proof.
  induction a as [|x a IH]; intros [|y b] H; cbn in H.
  - reflexivity.
  - exfalso. apply (f_equal String.length) in H.
    cbn in H. rewrite length_append in H. lia.
  - exfalso. apply (f_equal String.length) in H.
    cbn in H. rewrite length_append in H. lia.
  - injection H as -> H. f_equal. auto.
Qed.

Lemma make_prompt_inj a b : make_prompt a = make_prompt b -> a = b.
Proof.
  unfold make_prompt. intros H.
  apply append_inj_l in H. now apply append_inj_r in H.
Qed.

(** X10: the only process a run gives an input to is the agent, and the
    input is the prompt made from the text of a spec the run announced:
    the fixed instructions, then the whole text of that spec file, then a
    newline.  No other text gives the same prompt. *)
Theorem agent_input_is_the_spec (w : world) o w' t
    (c : cmd) (input : string) (r : res completed) :
  main w = (o, w', t) ->
  In (EvRun c (Some input) r) t ->
  c = claude_cmd /\
  exists u text,
    In u (announced t) /\
    fst (fst (read_spec u w)) = Val text /\
    input = prompt_head +++ text +++ String newline EmptyString /\
    forall text', make_prompt text' = input -> text' = text.
Proof.
  intros H Hin.
  destruct (main_anatomy _ _ _ _ H)
    as [(_ & _ & _ & ->)|[(_ & e & _ & _ & _ & ->)
       |(_ & w0 & us & wk & t1 & t2 & Hf0 & _ & _ & Hrs & _ & Hspecs & _
         & -> & Hr & Hstop)]].
  - destruct Hin as [Hin|[]]. discriminate.
  - destruct Hin.
  - destruct (rounds_units _ _ _ _ Hrs) as (Ha & _ & _ & Hstd & _).
    assert (G : c = claude_cmd /\
                exists u text, In u (announced (t1 ++ t2)) /\
                  fst (fst (read_spec u w)) = Val text /\
                  input = make_prompt text).
    { rewrite announced_app, Ha. apply in_app_or in Hin as [Hin|Hin].
      - destruct (Hstd _ _ _ Hin) as (-> & u & text & Hu & Hr0 & ->).
        split; [reflexivity|]. exists u, text.
        rewrite <- (read_spec_files u w0 w) by now rewrite Hf0.
        repeat apply conj; auto. apply in_or_app. auto.
      - destruct (round_stdin _ _ _ _ (round_paths _ _ _ _ Hr) _ _ _ Hin)
          as (-> & u & text & Hu & Hr0 & ->).
        split; [reflexivity|]. exists u, text.
        rewrite <- (read_spec_files u wk w Hspecs), Hr0, Hu.
        repeat apply conj; auto. apply in_or_app. cbn. auto. }
    destruct G as (-> & u & text & Hu & Hr0 & ->).
    split; [reflexivity|]. exists u, text.
    repeat apply conj; auto. intros text'. apply make_prompt_inj.
Qed.

Lemma agent_input_is_the_spec_witness :
  let r := main failing_world in
  let o := fst (fst r) in let w' := snd (fst r) in let t := snd r in
  let c := claude_cmd in
  let input := make_prompt "do b" in
  let res := Ok (Exit 1 EmptyString "no") in
  (main failing_world = (o, w', t) /\ In (EvRun c (Some input) res) t) /\
  c = claude_cmd /\
  exists u text,
    In u (announced t) /\
    fst (fst (read_spec u failing_world)) = Val text /\
    input = prompt_head +++ text +++ String newline EmptyString /\
    forall text', make_prompt text' = input -> text' = text.
Proof.
  split; [split; [reflexivity | cbn; auto]|].
  apply (agent_input_is_the_spec failing_world
           (fst (fst (main failing_world))) (snd (fst (main failing_world)))
           (snd (main failing_world)) claude_cmd (make_prompt "do b")
           (Ok (Exit 1 EmptyString "no")));
    [reflexivity | cbn; auto].
Defined.

(** X11: when the text of an announced unit cannot be read (the entry is a
    directory, say), the run dies with [OSError] right after announcing it:
    the announcement is the last event, so the agent is not started for
    that unit and nothing is written for it. *)
Theorem unreadable_spec_stops_the_run (w : world) o w' t (u : string) :
  main w = (o, w', t) ->
  In u (announced t) ->
  fst (fst (read_spec u w)) = Exc OSError ->
  o = Exc OSError /\ exists t1, t = t1 ++ [EvPrint (MsgProcessing u)].
Proof.
  intros H Hu Hbad.
  destruct (main_anatomy _ _ _ _ H)
    as [(_ & _ & _ & ->)|[(_ & e & _ & _ & _ & ->)
       |(_ & w0 & us & wk & t1 & t2 & Hf0 & _ & _ & Hrs & _ & Hspecs & _
         & -> & Hr & Hstop)]];
    [destruct Hu | destruct Hu |].
  destruct (rounds_units _ _ _ _ Hrs) as (Ha & _ & _ & _ & Hread & _).
  rewrite announced_app, Ha in Hu. apply in_app_or in Hu as [Hu|Hu].
  - exfalso. apply (Hread _ Hu).
    now rewrite (read_spec_files u w0 w) by now rewrite Hf0.
  - destruct (round_unreadable _ _ _ _ u (round_paths _ _ _ _ Hr) Hu)
      as [-> ->].
    + now rewrite (read_spec_files u wk w Hspecs).
    + eauto.
Qed.

Lemma unreadable_spec_stops_the_run_witness :
  let w := unreadable_world in
  let r := main w in
  let o := fst (fst r) in let w' := snd (fst r) in let t := snd r in
  let u := "02-b.md" in
  (main w = (o, w', t) /\ In u (announced t) /\
   fst (fst (read_spec u w)) = Exc OSError) /\
  o = Exc OSError /\ exists t1, t = t1 ++ [EvPrint (MsgProcessing u)].
Proof.
  split; [repeat apply conj; [reflexivity | cbn; auto | reflexivity]|].
  apply (unreadable_spec_stops_the_run unreadable_world
           (fst (fst (main unreadable_world)))
           (snd (fst (main unreadable_world)))
           (snd (main unreadable_world)) "02-b.md");
    [reflexivity | cbn; auto | reflexivity].
Defined.

(** X12: when the state file holds under ["done"] something that is not a
    list (a dict or a string pass the [in] test of [get_next_spec], but
    have no [append]), no run ever writes the state file or reports a unit
    completed: the files stay as they were. *)
Theorem done_not_a_list_is_never_saved (w : world) o w' t (st done : value) :
  main w = (o, w', t) ->
  stored (state_file (files w)) = Ok st ->
  getitem st "done" = Ok done ->
  (forall d, done <> VList d) ->
  writes t = [] /\ completed_units t = [] /\ files w' = files w.
Proof.
  intros H Hst Hd Hnl.
  destruct (main_anatomy _ _ _ _ H)
    as [(_ & _ & -> & ->)|[(_ & e & _ & _ & -> & ->)
       |(_ & w0 & us & wk & t1 & t2 & Hf0 & _ & Hsync & Hrs & _ & _ & _
         & -> & Hr & Hstop)]]; auto.
  destruct Hsync as [_ Hst0]. rewrite Hf0, Hst in Hst0. injection Hst0 as Hh.
  destruct us as [|u0 us].
  - apply rounds_nil_inv in Hrs as [-> ->].
    destruct (stopping_round _ _ _ _ Hr Hstop) as (Hf & _ & _ & Hw2 & _).
    pose proof (round_completed _ _ _ _ (round_paths _ _ _ _ Hr)) as Hc2.
    assert (E : completed_units t2 = [])
      by (destruct o as [[h|]|e|c]; auto; now destruct Hstop).
    cbn [app]. repeat apply conj; auto. congruence.
  - exfalso. destruct (rounds_first_done _ _ _ _ _ Hrs) as [d Hd'].
    rewrite <- Hh, Hd in Hd'. injection Hd' as ->. now apply (Hnl d).
Qed.

Lemma done_not_a_list_is_never_saved_witness :
  let r := main dict_world in
  let o := fst (fst r) in let w' := snd (fst r) in let t := snd r in
  let st := dict_done in
  let done := VDict [] in
  (main dict_world = (o, w', t) /\
   stored (state_file (files dict_world)) = Ok st /\
   getitem st "done" = Ok done /\
   (forall d, done <> VList d)) /\
  writes t = [] /\ completed_units t = [] /\ files w' = files dict_world.
Proof.
  assert (Hnl : forall d, VDict [] <> VList d) by discriminate.
  split; [repeat apply conj; [reflexivity | reflexivity | reflexivity
                             | exact Hnl]|].
  apply (done_not_a_list_is_never_saved dict_world
           (fst (fst (main dict_world))) (snd (fst (main dict_world)))
           (snd (main dict_world)) dict_done (VDict []));
    [reflexivity | reflexivity | reflexivity | exact Hnl].
Defined.

(** X13: a run in which every process exits with 0 and every spec can be
    read, started on a state whose ["done"] is a list, ends by reporting
    all specs completed.  The units it completed are exactly the [*.md]
    names that were not in the list, and the state file it leaves holds
    the list with these names appended in the order they were completed. *)
Theorem all_passing_run_completes_everything (w : world) o w' t
    (st0 : value) (d0 : list value) :
  main w = (o, w', t) ->
  specs_dir (files w) <> None ->
  stored (state_file (files w)) = Ok st0 ->
  getitem st0 "done" = Ok (VList d0) ->
  always_pass (procs w) ->
  (forall u, In u (glob_md (files w)) ->
             exists text, fst (fst (read_spec u w)) = Val text) ->
  o = Val (Some AllCompleted) /\
  (forall u, In u (completed_units t) <->
             In u (glob_md (files w)) /\ ~ In (VStr u) d0) /\
  exists st',
    stored (state_file (files w')) = Ok st' /\
    getitem st' "done" = Ok (VList (d0 ++ map VStr (completed_units t))).
Proof.
  intros H Hs Hst Hd Hpass Hread.
  destruct (main_anatomy _ _ _ _ H)
    as [(Hnone & _)|[(_ & e & He & _)
       |(_ & w0 & us & wk & t1 & t2 & Hf0 & _ & Hsync & Hrs & Hsynck & Hspecs
         & Hprocs & -> & Hr & Hstop)]];
    [congruence | congruence |].
  destruct Hsync as [_ Hst0]. rewrite Hf0, Hst in Hst0. injection Hst0 as Hh.
  rewrite Hh in Hd.
  destruct (rounds_units _ _ _ _ Hrs) as (_ & Hc & _ & _ & _ & Hfresh).
  destruct (rounds_facts _ _ _ _ Hrs) as (_ & _ & _ & _ & _ & _ & Hdone & _).
  destruct (Hdone _ Hd) as (Hdk & _).
  destruct (Hfresh _ Hd) as (Hall & _).
  assert (Hglob : glob_md (files wk) = glob_md (files w))
    by (apply glob_md_files; exact Hspecs).
  pose proof (round_paths _ _ _ _ Hr) as Hp.
  assert (Ho : o = Val (Some AllCompleted)).
  { destruct (round_all_pass _ _ _ _ Hp) as [Ho|Ho]; eauto;
      [now rewrite Hprocs | | contradiction].
    intros u Hu. rewrite Hglob in Hu. destruct (Hread _ Hu) as [text Ht].
    exists text. apply read_spec_val.
    now rewrite (read_spec_files u wk w Hspecs). }
  subst o. split; [reflexivity|].
  pose proof (round_completed _ _ _ _ Hp) as Hc2. cbn in Hc2.
  rewrite completed_units_app, Hc2, Hc, List.app_nil_r.
  inversion Hp; subst.
  match goal with Hd' : getitem (heap w') _ = Ok _ |- _ =>
    rewrite Hdk in Hd'; injection Hd' as <- end.
  match goal with Hn : first_pending _ _ = Ok None |- _ =>
    pose proof (first_pending_none _ _ Hn) as Hevery end.
  split.
  - intros u. split.
    + intros Hu. destruct (proj1 (Forall_forall _ _) Hall _ Hu) as [Hnot Hin].
      apply (proj1 (in_sorted _ _)) in Hin. rewrite Hf0 in Hin. auto.
    + intros [Hin Hnot]. rewrite <- Hglob in Hin.
      apply (proj2 (in_sorted _ _)), Hevery, contains_list in Hin.
      apply in_app_or in Hin as [Hin|Hin]; [contradiction|].
      now apply in_map_VStr.
  - exists (heap w'). split; [apply Hsynck | exact Hdk].
Qed.

Lemma all_passing_run_completes_everything_witness :
  let w := fresh_world in
  let r := main w in
  let o := fst (fst r) in let w' := snd (fst r) in let t := snd r in
  let st0 := VDict [("done", VList [])] in
  let d0 := @nil value in
  (main w = (o, w', t) /\
   specs_dir (files w) <> None /\
   stored (state_file (files w)) = Ok st0 /\
   getitem st0 "done" = Ok (VList d0) /\
   always_pass (procs w) /\
   (forall u, In u (glob_md (files w)) ->
              exists text, fst (fst (read_spec u w)) = Val text)) /\
  o = Val (Some AllCompleted) /\
  (forall u, In u (completed_units t) <->
             In u (glob_md (files w)) /\ ~ In (VStr u) d0) /\
  exists st',
    stored (state_file (files w')) = Ok st' /\
    getitem st' "done" = Ok (VList (d0 ++ map VStr (completed_units t))).
Proof.
  assert (Hs : specs_dir (files fresh_world) <> None) by discriminate.
  assert (Hpass : always_pass (procs fresh_world)).
  { intros n c i. eexists. split; reflexivity. }
  assert (Hread : forall u, In u (glob_md (files fresh_world)) ->
            exists text, fst (fst (read_spec u fresh_world)) = Val text).
  { intros u [<-|[<-|[]]]; eexists; reflexivity. }
  split; [repeat apply conj; auto; reflexivity|].
  apply (all_passing_run_completes_everything fresh_world
           (fst (fst (main fresh_world))) (snd (fst (main fresh_world)))
           (snd (main fresh_world)) (VDict [("done", VList [])]) []);
    auto; reflexivity.
Defined.

(** X14: when every command of the verification loop exits with 0, the
    loop starts each of them once, in order, prints no failure message and
    falls through; nothing is written. *)
Theorem verify_runs_every_command (cmds : list cmd) : forall (w : world),
  (forall i c, nth_error cmds i = Some c ->
     exists q, procs w (calls w + i) c None = Ok q /\ returncode q = 0%Z) ->
  exists t,
    verify cmds w
    = (Val true,
       World (files w) (procs w) (calls w + List.length cmds) (heap w), t) /\
    commands_run t = cmds /\ writes t = [] /\
    existsb exit_failed t = false /\
    ~ In (EvPrint MsgVerifyFailed) t.
Proof.
  induction cmds as [|c cmds IH]; intros w H.
  - exists []. cbn. rewrite Nat.add_0_r. destruct w. repeat apply conj; auto.
  - destruct (H 0 c eq_refl) as (q & Hq & Hrc). rewrite Nat.add_0_r in Hq.
    destruct (IH (World (files w) (procs w) (S (calls w)) (heap w)))
      as (t & Ht & Hc & Hw & Hx & Hm).
    { intros i ci Hi. cbn. specialize (H (S i) ci Hi).
      now rewrite Nat.add_succ_r in H. }
    cbn [verify]. unfold bind at 1. rewrite run_cmd_eq, Hq. cbn.
    rewrite Hrc. cbn. rewrite Ht. cbn.
    eexists. repeat apply conj.
    + repeat f_equal. lia.
    + cbn. now rewrite Hc.
    + cbn. exact Hw.
    + cbn. rewrite Hrc. exact Hx.
    + cbn. intros [E|[E|[E|E]]]; try discriminate. auto.
Qed.

Lemma verify_runs_every_command_witness :
  let w := fresh_world in
  (forall i c, nth_error VERIFY_COMMANDS i = Some c ->
     exists q, procs w (calls w + i) c None = Ok q /\ returncode q = 0%Z) /\
  exists t,
    verify VERIFY_COMMANDS w
    = (Val true,
       World (files w) (procs w)
         (calls w + List.length VERIFY_COMMANDS) (heap w), t) /\
    commands_run t = VERIFY_COMMANDS /\ writes t = [] /\
    existsb exit_failed t = false /\
    ~ In (EvPrint MsgVerifyFailed) t.
Proof.
  assert (H : forall i c, nth_error VERIFY_COMMANDS i = Some c ->
     exists q, procs fresh_world (calls fresh_world + i) c None = Ok q /\
               returncode q = 0%Z).
  { intros i c _. eexists. split; reflexivity. }
  split; [exact H|].
  apply (verify_runs_every_command VERIFY_COMMANDS fresh_world). exact H.
Defined.

(** X15: a run that ends through the agent-failed [return] ends with the
    agent's run for the unit it announced, exited with a status other than
    0, followed only by the echo of its command line, its output and the
    failure message: no verification command is started after it. *)
Theorem agent_failure_skips_verification (w : world) w' t :
  main w = (Val (Some ClaudeFailed), w', t) ->
  exists t1 u text p,
    t = t1 ++ agent_events u (make_prompt text) p
           ++ [EvPrint MsgClaudeFailed] /\
    returncode p <> 0%Z /\
    fst (fst (read_spec u w)) = Val text.
Proof.
  intros H.
  destruct (main_anatomy _ _ _ _ H)
    as [(_ & Ho & _)|[(_ & e & _ & Ho & _)
       |(_ & w0 & us & wk & t1 & t2 & _ & _ & _ & _ & _ & Hspecs & _
         & -> & Hr & _)]];
    [discriminate | discriminate |].
  pose proof (round_paths _ _ _ _ Hr) as Hp. inversion Hp; subst.
  exists t1, u, text, p. repeat apply conj; auto.
  rewrite <- (read_spec_files u wk w Hspecs).
  match goal with E : read_spec _ _ = _ |- _ => now rewrite E end.
Qed.

Lemma agent_failure_skips_verification_witness :
  let r := main failing_world in
  let w' := snd (fst r) in let t := snd r in
  main failing_world = (Val (Some ClaudeFailed), w', t) /\
  exists t1 u text p,
    t = t1 ++ agent_events u (make_prompt text) p
           ++ [EvPrint MsgClaudeFailed] /\
    returncode p <> 0%Z /\
    fst (fst (read_spec u failing_world)) = Val text.
Proof.
  split; [reflexivity|].
  apply (agent_failure_skips_verification failing_world
           (snd (fst (main failing_world))) (snd (main failing_world))).
  reflexivity.
Defined.

